(** * Infrastructure Orchestration Platform: a shallow embedding

    The development follows [src/Fabric/Infrastructure Orchestration
    Platform.py].  Remote hosts are an external collaborator: they are
    modelled by an oracle that answers every [c.run] call from the history of
    what the orchestrator did so far, and every function of the orchestrator
    is written in a small state-and-exception monad over that history. *)

From Stdlib Require Import ZArith QArith String List Lia Permutation.
From stdpp Require Import base option list gmap strings pretty.

Local Open Scope string_scope.
Local Open Scope list_scope.
Local Open Scope Z_scope.

(** ** Python values the code relies on *)

Module Py.

(** Exceptions that the modelled code can meet. *)
Inductive Exn : Type :=
| ValueError (msg : string)
| ZeroDivisionError
| KeyError (key : string)
| TypeError (msg : string)
| TransportError (msg : string)
| UnexpectedExit (server command : string) (return_code : Z)
| GroupException
| Exception (msg : string).

(** [str(e)] for an exception. *)
Definition exn_str (e : Exn) : string :=
  match e with
  | ValueError m | TypeError m | TransportError m | Exception m => m
  | ZeroDivisionError => "division by zero"
  | KeyError k => "'" +:+ k +:+ "'"
  | UnexpectedExit _ c _ => "Encountered a bad command exit code: " +:+ c
  | GroupException => "GroupException"
  end.

Inductive Res (A : Type) : Type :=
| Ok (a : A)
| Raise (e : Exn).
Arguments Ok {A} a.
Arguments Raise {A} e.

(** [str(v)] as a protocol: the variable maps are [Dict[str, Any]]. *)
Class Str (V : Type) := str : V -> string.
#[export] Instance Str_string : Str string := fun s => s.
#[export] Instance Str_Z : Str Z := fun z => pretty z.

(** Number of elements of [range(start, stop, step)] for [step <> 0]. *)
Definition range_len (start stop step : Z) : Z :=
  if 0 <? step
  then (if start <? stop then (stop - start - 1) / step + 1 else 0)
  else (if stop <? start then (start - stop - 1) / (- step) + 1 else 0).

(** [range(start, stop, step)]; a zero step is a [ValueError]. *)
Definition range3 (start stop step : Z) : Res (list Z) :=
  if step =? 0 then Raise (ValueError "range() arg 3 must not be zero")
  else Ok (map (fun k : nat => start + Z.of_nat k * step)
               (seq 0 (Z.to_nat (range_len start stop step)))).

(** [range(stop)], which cannot fail. *)
Definition range1 (stop : Z) : list Z :=
  map Z.of_nat (seq 0 (Z.to_nat stop)).

(** Index clamping of a slice bound, for a sequence of length [n]. *)
Definition slice_index (n i : Z) : Z :=
  if i <? 0 then Z.max 0 (i + n) else Z.min i n.

(** [l[i:j]]. *)
Definition slice {A : Type} (l : list A) (i j : Z) : list A :=
  let n := Z.of_nat (length l) in
  let lo := slice_index n i in
  let hi := slice_index n j in
  firstn (Z.to_nat (hi - lo)) (skipn (Z.to_nat lo) l).

(** Is [p] a prefix of [s]? *)
Fixpoint starts_with (p s : string) : bool :=
  match p, s with
  | EmptyString, _ => true
  | String a p', String b s' => if Ascii.eqb a b then starts_with p' s' else false
  | String _ _, EmptyString => false
  end.

(** [s.replace(old, new)] for a non-empty [old]: every non-overlapping
    occurrence, scanning from the left.  [skip] counts the characters of a
    match that are still to be dropped. *)
Fixpoint replace_from (skip : nat) (old new s : string) : string :=
  match s with
  | EmptyString => EmptyString
  | String c s' =>
      match skip with
      | S k => replace_from k old new s'
      | O =>
          if starts_with old s
          then new +:+ replace_from (String.length old - 1)%nat old new s'
          else String c (replace_from 0 old new s')
      end
  end.

Definition replace (s old new : string) : string := replace_from 0 old new s.

End Py.
Export Py.

(** ** The remote world and the monad of orchestration steps *)

Module World.

(** What one [c.run(...)] call can do: finish with an exit status and the
    captured streams, or raise (no route, authentication, timeout, ...). *)
Inductive RunResult : Type :=
| Ran (return_code : Z) (stdout stderr : string)
| Raised (msg : string).

(** The warning and failure lines the orchestrator prints.  Progress
    banners carry nothing a caller can act on and are left out. *)
Inductive Notice : Type :=
| RetryNotice (server : string) (attempt retries : Z)
| ExceptionNotice (server : string) (attempt : Z) (e : string)
| StopFailed (service_name server : string)
| StartFailed (service_name server : string)
| HealthCheckFailed (server : string)
| RestartFailed
| ManualConfirmationRequired.

Inductive Event : Type :=
| Exec (server command : string) (r : RunResult)
| ConnectFailed (server msg : string)
| Slept (seconds : Z)
| Printed (n : Notice).

(** Everything done so far, oldest first. *)
Definition History : Type := list Event.

(** The remote executor.  [connect_error s] is the message of the exception
    [Connection(s)] raises, if it does; [respond h s c] is what running [c]
    on [s] does after history [h]. *)
Record Remote : Type := {
  connect_error : string -> option string;
  respond : History -> string -> string -> RunResult
}.

(** Did the command run and exit with status zero? *)
Definition run_succeeded (r : RunResult) : bool :=
  match r with
  | Ran rc _ _ => rc =? 0
  | Raised _ => false
  end.

Definition M (A : Type) : Type := History -> Res A * History.

Definition ret {A : Type} (a : A) : M A := fun h => (Ok a, h).

Definition bind {A B : Type} (m : M A) (k : A -> M B) : M B :=
  fun h => match m h with
           | (Ok a, h') => k a h'
           | (Raise e, h') => (Raise e, h')
           end.

Definition raise {A : Type} (e : Exn) : M A := fun h => (Raise e, h).

Definition lift {A : Type} (r : Res A) : M A := fun h => (r, h).

(** [try: m  except Exception as e: handler e] (also the bare [except:]). *)
Definition try_except {A : Type} (m : M A) (handler : Exn -> M A) : M A :=
  fun h => match m h with
           | (Ok a, h') => (Ok a, h')
           | (Raise e, h') => handler e h'
           end.

Definition emit (e : Event) : M unit := fun h => (Ok tt, h ++ [e]).

Definition print (n : Notice) : M unit := emit (Printed n).

(** [time.sleep(d)]: a negative length is a [ValueError]. *)
Definition sleep (d : Z) : M unit :=
  if d <? 0 then raise (ValueError "sleep length must be non-negative")
  else emit (Slept d).

End World.
Export World.

Declare Scope orch_scope.
Delimit Scope orch_scope with orch.
Notation "x <- m ;; k" := (bind m (fun x => k))
  (at level 100, m at next level, right associativity) : orch_scope.
Notation "m ;; k" := (bind m (fun _ => k))
  (at level 100, right associativity) : orch_scope.
Local Open Scope orch_scope.

Module Loops.

(** [for x in l: body], where the body may [return v] from the enclosing
    function ([Some v]) or fall through to the next element ([None]).
    The loop yields [None] when it runs off the end of [l]. *)
Fixpoint for_each {A R : Type} (l : list A) (body : A -> M (option R)) : M (option R) :=
  match l with
  | [] => ret None
  | x :: l' =>
      r <- body x ;;
      match r with
      | Some v => ret (Some v)
      | None => for_each l' body
      end
  end.

(** [for x in l: acc = body(acc, x)]: a loop that only updates a local. *)
Fixpoint for_acc {A B : Type} (l : list A) (acc : B) (body : B -> A -> M B) : M B :=
  match l with
  | [] => ret acc
  | x :: l' => acc' <- body acc x ;; for_acc l' acc' body
  end.

End Loops.
Export Loops.

(** ** The data classes *)

Module ServerGroup.
(** [variables] is only ever read at the key ['services'], whose value is a
    list of service names. *)
Record t : Type := {
  name : string;
  servers : list string;
  roles : list string;
  variables : gmap string (list string)
}.
End ServerGroup.

Module Task.
Record t : Type := {
  name : string;
  command : string;
  when : option string;
  retries : Z;
  delay : Z
}.
End Task.

(** The result of a [c.run] call that returned. *)
Module Result.
Record t : Type := {
  return_code : Z;
  stdout : string;
  stderr : string
}.
End Result.

(** The four dictionaries [execute_on_server] can return, one constructor per
    shape.  (The success dictionary spells its counter ['attempt'], the
    others ['attempts'].) *)
Inductive Outcome : Type :=
| Success (server stdout : string) (attempt : Z)
| Failed (server stderr : string) (return_code attempts : Z)
| Error (server error : string) (attempts : Z)
| ConnectionError (server error : string).

(** [result['status']] and [result['server']]. *)
Definition status (o : Outcome) : string :=
  match o with
  | Success _ _ _ => "success"
  | Failed _ _ _ _ => "failed"
  | Error _ _ _ => "error"
  | ConnectionError _ _ => "connection_error"
  end.

Definition server_of (o : Outcome) : string :=
  match o with
  | Success s _ _ | Failed s _ _ _ | Error s _ _ | ConnectionError s _ => s
  end.

(** ** The orchestrator *)

Module InfrastructureOrchestrator.

Record t : Type := { server_groups : gmap string ServerGroup.t }.

(** [self.server_groups[group_name]]. *)
Definition group (self : t) (group_name : string) : M ServerGroup.t :=
  match server_groups self !! group_name with
  | Some g => ret g
  | None => raise (KeyError group_name)
  end.

(** Entering [with Connection(server) as c].  Fabric opens the network
    connection inside the first [c.run], so a host that cannot be reached or
    authenticated to makes [run_warn] raise; [connect_error] stands for an
    exception of [Connection(server)] itself, raised before any call (a host
    string it cannot parse, say). *)
Definition Connection (rem : Remote) (server : string) : M unit :=
  match connect_error rem server with
  | Some msg => emit (ConnectFailed server msg) ;; raise (TransportError msg)
  | None => ret tt
  end.

(** [c.run(command, warn=True, ...)]: a non-zero exit status is returned,
    not raised. *)
Definition run_warn (rem : Remote) (server command : string) : M Result.t :=
  fun h =>
    let r := respond rem h server command in
    match r with
    | Ran rc out err =>
        (Ok {| Result.return_code := rc; Result.stdout := out; Result.stderr := err |},
         h ++ [Exec server command r])
    | Raised msg => (Raise (TransportError msg), h ++ [Exec server command r])
    end.

Definition substitute_variables {V : Type} `{Str V}
    (command : string) (variables : list (string * V)) : string :=
  fold_left (fun command '(var_name, var_value) =>
               replace command ("{" +:+ var_name +:+ "}") (str var_value))
            variables command.

Section Fleet.
Context {V : Type} `{Str V}.
Variable rem : Remote.
Variable task : Task.t.
Variable variables : list (string * V).

(** The body of [for attempt in range(task.retries + 1)]. *)
Definition attempt_body (server command : string) (attempt : Z) : M (option Outcome) :=
  try_except
    (result <- run_warn rem server command ;;
     if Result.return_code result =? 0 then
       ret (Some (Success server (Result.stdout result) (attempt + 1)))
     else if attempt <? Task.retries task then
       print (RetryNotice server (attempt + 1) (Task.retries task)) ;;
       sleep (Task.delay task) ;;
       ret None
     else
       ret (Some (Failed server (Result.stderr result)
                         (Result.return_code result) (attempt + 1))))
    (fun e =>
       if attempt <? Task.retries task then
         print (ExceptionNotice server (attempt + 1) (exn_str e)) ;;
         sleep (Task.delay task) ;;
         ret None
       else
         ret (Some (Error server (exn_str e) (attempt + 1)))).

(** The worker.  [None] is Python's [None], returned when the attempt loop
    runs off its end. *)
Definition execute_on_server (server : string) : M (option Outcome) :=
  try_except
    (Connection rem server ;;
     let command := substitute_variables (Task.command task) variables in
     for_each (range1 (Task.retries task + 1)) (attempt_body server command))
    (fun e => ret (Some (ConnectionError server (exn_str e)))).

(** [as_completed] hands the futures back in completion order, which is
    some rearrangement of the submitted ones. *)
Variable as_completed : forall A : Type, list A -> list A.

(** Each worker owns its connection and sees only its own calls; a future
    holds what the worker returned or raised. *)
Definition submit (server : string) : Res (option Outcome) :=
  fst (execute_on_server server []).

(** The collecting loop: [result['status']] on [None] is a [TypeError]. *)
Fixpoint collect (futures : list (Res (option Outcome))) (results : list Outcome)
  : Res (list Outcome) :=
  match futures with
  | [] => Ok results
  | Raise e :: _ => Raise e
  | Ok None :: _ => Raise (TypeError "'NoneType' object is not subscriptable")
  | Ok (Some result) :: futures' => collect futures' (results ++ [result])
  end.

Definition execute_task_on_servers (servers : list string) : Res (list Outcome) :=
  collect (as_completed _ (map submit servers)) [].

End Fleet.

Definition stop_command (service_name : string) : string :=
  "sudo systemctl stop " +:+ service_name.
Definition start_command (service_name : string) : string :=
  "sudo systemctl start " +:+ service_name.
Definition is_active_command (service_name : string) : string :=
  "systemctl is-active " +:+ service_name.
Definition enable_command (service_name : string) : string :=
  "sudo systemctl enable " +:+ service_name.

Section Rollout.
Variable rem : Remote.
Variable service_name : string.

(** [for server in batch: ... stop ...]: a failure is only reported. *)
Definition stop_batch (batch : list string) : M (option bool) :=
  for_each batch (fun server =>
    Connection rem server ;;
    result <- run_warn rem server (stop_command service_name) ;;
    (if negb (Result.return_code result =? 0)
     then print (StopFailed service_name server) else ret tt) ;;
    ret None).

(** [for server in batch: ... start ...]: a failure returns [False]. *)
Definition start_batch (batch : list string) : M (option bool) :=
  for_each batch (fun server =>
    Connection rem server ;;
    result <- run_warn rem server (start_command service_name) ;;
    if negb (Result.return_code result =? 0)
    then print (StartFailed service_name server) ;; ret (Some false)
    else ret None).

(** The health-check loop, which updates [health_ok]. *)
Definition health_check_batch (batch : list string) : M bool :=
  for_acc batch true (fun health_ok server =>
    Connection rem server ;;
    result <- run_warn rem server (is_active_command service_name) ;;
    if negb (Result.return_code result =? 0)
    then print (HealthCheckFailed server) ;; ret false
    else ret health_ok).

(** The body of [for i in range(0, len(servers), batch_size)]. *)
Definition batch_body (servers : list string) (batch_size i : Z) : M (option bool) :=
  let batch := slice servers i (i + batch_size) in
  stop_batch batch ;;
  sleep 5 ;;
  started <- start_batch batch ;;
  match started with
  | Some v => ret (Some v)
  | None =>
      sleep 10 ;;
      health_ok <- health_check_batch batch ;;
      if negb health_ok then
        print RestartFailed ;; ret (Some false)
      else
        (if i + batch_size <? Z.of_nat (length servers)
         then sleep 30 else ret tt) ;;
        ret None
  end.

Definition rolling_restart (self : t) (server_group : string) (batch_size : Z) : M bool :=
  g <- group self server_group ;;
  let servers := ServerGroup.servers g in
  indices <- lift (range3 0 (Z.of_nat (length servers)) batch_size) ;;
  r <- for_each indices (batch_body servers batch_size) ;;
  match r with
  | Some v => ret v
  | None => ret true
  end.

End Rollout.

Section Health.
Variable rem : Remote.

(** One turn of [for server in servers] in [check_group_health]. *)
Definition probe (healthy_servers : Z) (server : string) : M Z :=
  try_except
    (Connection rem server ;;
     result <- run_warn rem server "uptime" ;;
     if Result.return_code result =? 0
     then ret (healthy_servers + 1) else ret healthy_servers)
    (fun _ => ret healthy_servers).

(** [(healthy_servers / len(servers)) * 100 >= 80], with exact rationals
    for Python's true division. *)
Definition check_group_health (self : t) (group_name : string) : M bool :=
  g <- group self group_name ;;
  let servers := ServerGroup.servers g in
  healthy_servers <- for_acc servers 0 probe ;;
  let n := Z.of_nat (length servers) in
  if n =? 0 then raise ZeroDivisionError
  else
    let health_percentage := (inject_Z healthy_servers / inject_Z n * 100)%Q in
    ret (Qle_bool 80 health_percentage).

(** [group.run(command)] on a [ThreadingGroup]: every member runs the
    command (here in list order), and any failure, a non-zero exit
    included since [warn] is off, raises [GroupException] afterwards. *)
Definition group_member (command : string) (failed : bool) (server : string) : M bool :=
  fun h =>
    let r := respond rem h server command in
    (Ok (failed || negb (run_succeeded r)), h ++ [Exec server command r]).

Definition group_run (servers : list string) (command : string) : M unit :=
  failed <- for_acc servers false (group_member command) ;;
  if failed : bool then raise GroupException else ret tt.

(** The services loop of [disaster_recovery]. *)
Definition activate (servers services : list string) : M unit :=
  for_acc services tt (fun _ service =>
    group_run servers (start_command service) ;;
    group_run servers (enable_command service)).

Definition disaster_recovery (self : t) (primary_group backup_group : string) : M bool :=
  primary <- group self primary_group ;;
  backup <- group self backup_group ;;
  let backup_servers := ServerGroup.servers backup in
  primary_healthy <- check_group_health self primary_group ;;
  backup_healthy <- check_group_health self backup_group ;;
  if negb backup_healthy then
    raise (Exception "Backup servers are not healthy - cannot proceed with failover")
  else
    (if primary_healthy then print ManualConfirmationRequired else ret tt) ;;
    backup_group_obj <- group self backup_group ;;
    for_acc backup_servers tt (fun _ server => Connection rem server) ;;
    let services := default ["nginx"; "app"]
                      (ServerGroup.variables backup_group_obj !! "services") in
    activate backup_servers services ;;
    sleep 2 ;;
    ret true.

End Health.

End InfrastructureOrchestrator.

Export InfrastructureOrchestrator.

(** ** Reading a history *)

Module Trace.

(** The [c.run] calls of a history, in order. *)
Definition runs (h : History) : list (string * string * RunResult) :=
  omap (fun e => match e with Exec s c r => Some (s, c, r) | _ => None end) h.

(** The (server, command) pairs that were issued. *)
Definition calls (h : History) : list (string * string) := map fst (runs h).


(** Servers that were sent some command. *)
Definition contacted (h : History) : list string := map fst (calls h).

(** One probe per connection attempt: the server and whether it answered
    with exit status zero. *)
Definition probes (h : History) : list (string * bool) :=
  omap (fun e => match e with
                 | Exec s _ r => Some (s, run_succeeded r)
                 | ConnectFailed s _ => Some (s, false)
                 | _ => None
                 end) h.

Definition probe_results (h : History) : list bool := map snd (probes h).

(** The warning and failure lines that were printed. *)
Definition notices (h : History) : list Notice :=
  omap (fun e => match e with Printed n => Some n | _ => None end) h.

End Trace.
Export Trace.

(** ** The words of the specification, for comparison *)

Module Spec.

(** The status enumeration of a task outcome (the keys of [status_emoji]). *)
Definition declared_statuses : list string :=
  ["success"; "failed"; "error"; "connection_error"].

Definition count_true (probeResults : list bool) : Z :=
  Z.of_nat (length (List.filter (fun b : bool => b) probeResults)).

(** [ratio = count(true) / count(all)];
    [isHealthy = (total > 0) AND (ratio >= threshold)]. *)
Definition ratio (probeResults : list bool) : Q :=
  (inject_Z (count_true probeResults) / inject_Z (Z.of_nat (length probeResults)))%Q.

Definition assess (probeResults : list bool) (threshold : Q) : bool :=
  (0 <? Z.of_nat (length probeResults)) && Qle_bool threshold (ratio probeResults).

Inductive Decision : Type :=
| Proceed
| Refuse (reason : string)
| RequiresConfirmation.

(** The three-case policy of the failover decider. *)
Definition decide (primaryHealthy standbyHealthy : bool) : Decision :=
  if negb standbyHealthy then Refuse "standby not healthy"
  else if primaryHealthy then RequiresConfirmation
  else Proceed.

End Spec.

(** ** Scenarios *)

Module Scenario.

(** A remote that opens every connection and answers every call with [r]. *)
Definition always (r : RunResult) : Remote :=
  {| connect_error := fun _ => None; respond := fun _ _ _ => r |}.

(** A remote on which exactly the listed (server, command) pairs exit with
    status 1 and everything else with 0. *)
Definition failing (bad : list (string * string)) : Remote :=
  {| connect_error := fun _ => None;
     respond := fun _ s c =>
       if existsb (fun '(s', c') => String.eqb s s' && String.eqb c c') bad
       then Ran 1 "" "failed" else Ran 0 "ok" "" |}.

(** A remote whose first call raises and whose later calls succeed. *)
Definition flaky : Remote :=
  {| connect_error := fun _ => None;
     respond := fun h _ _ =>
       match runs h with
       | [] => Raised "connection reset"
       | _ => Ran 0 "ok" ""
       end |}.

(** A remote on which [Connection(down)] itself raises. *)
Definition unreachable (down : string) : Remote :=
  {| connect_error := fun s => if String.eqb s down then Some "no route to host" else None;
     respond := fun _ _ _ => Ran 0 "ok" "" |}.

(** A remote on which everything succeeds. *)
Definition healthy : Remote := always (Ran 0 "ok" "").

(** The nginx start command fails on server b. *)
Definition start_fails_on_b : Remote := failing [("b", "sudo systemctl start nginx")].

(** The nginx stop command fails on server a. *)
Definition stop_fails_on_a : Remote := failing [("a", "sudo systemctl stop nginx")].

Definition web_servers : list string := ["a"; "b"; "c"; "d"].

(** The probes of the groups web and standby on the healthy remote. *)
Definition web_probes : History :=
  [Exec "a" "uptime" (Ran 0 "ok" ""); Exec "b" "uptime" (Ran 0 "ok" "");
   Exec "c" "uptime" (Ran 0 "ok" ""); Exec "d" "uptime" (Ran 0 "ok" "")].

Definition all_probes : History := web_probes ++ [Exec "x" "uptime" (Ran 0 "ok" "")].

(** What a restart of nginx in batches of two does when the start on b
    fails. *)
Definition aborted_restart : History :=
  [Exec "a" "sudo systemctl stop nginx" (Ran 0 "ok" "");
   Exec "b" "sudo systemctl stop nginx" (Ran 0 "ok" "");
   Slept 5;
   Exec "a" "sudo systemctl start nginx" (Ran 0 "ok" "");
   Exec "b" "sudo systemctl start nginx" (Ran 1 "" "failed");
   Printed (StartFailed "nginx" "b")].

Definition make_task (command : string) (retries delay : Z) : Task.t :=
  {| Task.name := "task"; Task.command := command; Task.when := None;
     Task.retries := retries; Task.delay := delay |}.

Definition make_group (name : string) (servers : list string) : ServerGroup.t :=
  {| ServerGroup.name := name; ServerGroup.servers := servers;
     ServerGroup.roles := []; ServerGroup.variables := ∅ |}.

Definition inventory : InfrastructureOrchestrator.t :=
  {| server_groups :=
       {[ "web" := make_group "web" web_servers;
          "db" := make_group "db" ["p"; "q"; "r"; "s"; "t"];
          "standby" := make_group "standby" ["x"];
          "empty" := make_group "empty" [] ]} |}.

End Scenario.

(** ** Vocabulary of the statements *)

Module Claims.

(** The outcome once the attempts are used up, from the last call. *)
Definition exhausted (server : string) (attempts : Z) (r : RunResult) : Outcome :=
  match r with
  | Ran rc _ err => Failed server err rc attempts
  | Raised msg => Error server msg attempts
  end.

(** The server a settled future speaks about. *)
Definition future_server (f : Res (option Outcome)) : string :=
  match f with
  | Ok (Some o) => server_of o
  | _ => ""
  end.

(** The judgment of [check_group_health] from the probes it made. *)
Definition judged (probeResults : list bool) : bool :=
  Qle_bool 80 (inject_Z (Spec.count_true probeResults)
               / inject_Z (Z.of_nat (length probeResults)) * 100)%Q.

(** C5 as the specification words it: the judgment follows whatever
    threshold in [0,1] the caller picks. *)
Definition health_uses_the_given_threshold : Prop :=
  forall (rem : Remote) (self : InfrastructureOrchestrator.t) (group_name : string)
         (g : ServerGroup.t) (threshold : Q) (b : bool) (tr : History),
    server_groups self !! group_name = Some g ->
    ServerGroup.servers g <> [] ->
    (0 <= threshold)%Q -> (threshold <= 1)%Q ->
    check_group_health rem self group_name [] = (Ok b, tr) ->
    b = Spec.assess (probe_results tr) threshold.

(** The second case of C6 as the specification words it: with both groups
    healthy the standby is not activated, so nothing is sent after the
    probes. *)
Definition healthy_primary_is_not_failed_over : Prop :=
  forall (rem : Remote) (self : InfrastructureOrchestrator.t)
         (primary_group backup_group : string) (h1 h2 : History)
         (res : Res bool) (tr : History),
    check_group_health rem self primary_group [] = (Ok true, h1) ->
    check_group_health rem self backup_group h1 = (Ok true, h2) ->
    disaster_recovery rem self primary_group backup_group [] = (res, tr) ->
    calls tr = calls h2.

(** What activating [services] on [servers] sends, in order. *)
Definition activation_calls (servers services : list string) : list (string * string) :=
  concat (map (fun service =>
                 map (fun s => (s, start_command service)) servers
                 ++ map (fun s => (s, enable_command service)) servers)
              services).

(** C8 as the specification words it, for the batch size (the code takes
    no threshold): a batch size that is not positive is rejected with an
    error, before anything is sent. *)
Definition bad_batch_size_fails_fast : Prop :=
  forall (rem : Remote) (service_name : string) (self : InfrastructureOrchestrator.t)
         (server_group : string) (batch_size : Z) (h : History),
    batch_size <= 0 ->
    exists e,
      rolling_restart rem service_name self server_group batch_size h = (Raise e, h).

(** The start command on [s] ran and exited with a non-zero status. *)
Definition start_failed_at (service_name s : string) (h : History) : Prop :=
  exists rc out err,
    In (Exec s (start_command service_name) (Ran rc out err)) h /\ rc <> 0.

(** Every command in [h] is [command], sent to a member of [batch]. *)
Definition sent_only (command : string) (batch : list string) (h : History) : Prop :=
  forall s c, In (s, c) (calls h) -> c = command /\ In s batch.

(** Every stop command that exited non-zero is reported. *)
Definition stops_logged (service_name : string) (h : History) : Prop :=
  forall s rc out err,
    In (Exec s (stop_command service_name) (Ran rc out err)) h -> rc <> 0 ->
    In (StopFailed service_name s) (notices h).

(** Commands in [h] reach members of [batch] only. *)
Definition within (batch : list string) (h : History) : Prop :=
  forall s c, In (s, c) (calls h) -> In s batch.

(** The stop, start and health-check commands all reached [s]. *)
Definition restarted (service_name s : string) (h : History) : Prop :=
  In (s, stop_command service_name) (calls h)
  /\ In (s, start_command service_name) (calls h)
  /\ In (s, is_active_command service_name) (calls h).

(** The batch indices of a rolling restart over [n] servers. *)
Definition batch_indices (n batch_size : Z) : list Z :=
  map (fun k : nat => 0 + Z.of_nat k * batch_size)
      (seq 0 (Z.to_nat (range_len 0 n batch_size))).


End Claims.
Export Claims.

(** ** The inventory and the playbooks *)

(** One entry of [inventory['groups']] as the YAML loader hands it over:
    ['hosts'] is required, ['roles'] and ['vars'] are optional. *)
Module GroupConfig.
Record t : Type := {
  hosts : option (list string);
  roles : option (list string);
  vars : option (gmap string (list string))
}.
End GroupConfig.

Module Playbook.
Record t (V : Type) : Type := {
  name : string;
  hosts : string;
  tasks : list Task.t;
  variables : list (string * V)
}.
Arguments name {V} _.
Arguments hosts {V} _.
Arguments tasks {V} _.
Arguments variables {V} _.
End Playbook.

Module Loading.

(** The loop of [__init__] over [inventory['groups'].items()]: a group
    without ['hosts'] is a [KeyError]. *)
Fixpoint load_groups (items : list (string * GroupConfig.t))
    (server_groups : gmap string ServerGroup.t) : Res (gmap string ServerGroup.t) :=
  match items with
  | [] => Ok server_groups
  | (group_name, group_config) :: items' =>
      match GroupConfig.hosts group_config with
      | None => Raise (KeyError "hosts")
      | Some hosts =>
          load_groups items'
            (<[group_name :=
                 {| ServerGroup.name := group_name;
                    ServerGroup.servers := hosts;
                    ServerGroup.roles := default [] (GroupConfig.roles group_config);
                    ServerGroup.variables := default ∅ (GroupConfig.vars group_config) |}]>
               server_groups)
      end
  end.

(** [__init__] from the loaded inventory, whose ['groups'] entry may be
    missing.  Opening and parsing the file is the loader's business. *)
Definition init (groups : option (list (string * GroupConfig.t)))
  : Res InfrastructureOrchestrator.t :=
  match groups with
  | None => Raise (KeyError "groups")
  | Some items =>
      match load_groups items ∅ with
      | Ok server_groups => Ok {| server_groups := server_groups |}
      | Raise e => Raise e
      end
  end.

Section RunPlaybook.
Context {V : Type} `{Str V}.
Variable rem : Remote.
Variable as_completed : forall A : Type, list A -> list A.

(** The target servers of a playbook.  For ['all'] the groups are visited
    in the order the map enumerates them; the fleet hands its outcomes back
    in completion order, so that order is not observable. *)
Definition target_servers (self : InfrastructureOrchestrator.t) (hosts : string)
  : Res (list string) :=
  if String.eqb hosts "all"
  then Ok (concat (map (fun kg => ServerGroup.servers (snd kg))
                       (map_to_list (server_groups self))))
  else match server_groups self !! hosts with
       | Some g => Ok (ServerGroup.servers g)
       | None => Raise (KeyError hosts)
       end.

(** The task loop: [results[task.name] = task_results]. *)
Fixpoint run_tasks (tasks : list Task.t) (servers : list string)
    (variables : list (string * V)) (results : gmap string (list Outcome))
  : Res (gmap string (list Outcome)) :=
  match tasks with
  | [] => Ok results
  | task :: tasks' =>
      match execute_task_on_servers rem task variables as_completed servers with
      | Ok task_results =>
          run_tasks tasks' servers variables (<[Task.name task := task_results]> results)
      | Raise e => Raise e
      end
  end.

(** [run_playbook] from the loaded playbook. *)
Definition run_playbook (self : InfrastructureOrchestrator.t) (playbook : Playbook.t V)
  : Res (gmap string (list Outcome)) :=
  match target_servers self (Playbook.hosts playbook) with
  | Ok servers =>
      run_tasks (Playbook.tasks playbook) servers (Playbook.variables playbook) ∅
  | Raise e => Raise e
  end.

End RunPlaybook.

End Loading.
Export Loading.

(** ** Vocabulary of the further properties *)

Module Facts.

(** [sub in s]. *)
Fixpoint contains (sub s : string) : bool :=
  starts_with sub s
  || match s with
     | EmptyString => false
     | String _ s' => contains sub s'
     end.


(** The health check of [s] ran and exited with a non-zero status. *)
Definition health_failed_at (service_name s : string) (h : History) : Prop :=
  exists rc out err,
    In (Exec s (is_active_command service_name) (Ran rc out err)) h /\ rc <> 0.

(** [s] went through a whole restart: it was reachable, was sent the stop
    command, and its start and health-check commands exited with status
    zero. *)
Definition restart_ok (rem : Remote) (service_name s : string) (h : History) : Prop :=
  connect_error rem s = None
  /\ In (s, stop_command service_name) (calls h)
  /\ (exists out err, In (Exec s (start_command service_name) (Ran 0 out err)) h)
  /\ (exists out err, In (Exec s (is_active_command service_name) (Ran 0 out err)) h).

(** Every call in [h] exited with status zero. *)
Definition all_succeeded (h : History) : Prop :=
  Forall (fun x => run_succeeded (snd x) = true) (runs h).

(** The group [__init__] builds from one entry whose hosts are [hosts]. *)
Definition loaded_group (group_name : string) (group_config : GroupConfig.t)
    (hosts : list string) : ServerGroup.t :=
  {| ServerGroup.name := group_name;
     ServerGroup.servers := hosts;
     ServerGroup.roles := default [] (GroupConfig.roles group_config);
     ServerGroup.variables := default ∅ (GroupConfig.vars group_config) |}.

(** Every call in [h] was answered by the remote. *)
Definition answered (rem : Remote) (h : History) : Prop :=
  Forall (fun x => exists h', snd x = respond rem h' (fst (fst x)) (snd (fst x))) (runs h).

(** The servers of [servers] whose connection can be opened. *)
Definition reachable_servers (rem : Remote) (servers : list string) : list string :=
  List.filter (fun s => match connect_error rem s with None => true | Some _ => false end)
              servers.

(** The lengths of the waits in a history, in order. *)
Definition waits (h : History) : list Z :=
  omap (fun e => match e with Slept d => Some d | _ => None end) h.

(** The waits of the batch that starts at index [i], when it passes. *)
Definition batch_waits (n batch_size i : Z) : list Z :=
  5 :: 10 :: (if i + batch_size <? n then [30] else []).

End Facts.
Export Facts.

(** ** More scenarios *)

Module Sample.

(** The health check of nginx fails on server a. *)
Definition check_fails_on_a : Remote :=
  Scenario.failing [("a", "systemctl is-active nginx")].

(** The nginx start command fails on server q. *)
Definition start_fails_on_q : Remote :=
  Scenario.failing [("q", "sudo systemctl start nginx")].

Definition db_servers : list string := ["p"; "q"; "r"; "s"; "t"].

(** The probes of the groups standby and db when all of them answer. *)
Definition standby_probes : History := [Exec "x" "uptime" (Ran 0 "ok" "")].

Definition standby_and_db_probes : History :=
  standby_probes
    ++ [Exec "p" "uptime" (Ran 0 "ok" ""); Exec "q" "uptime" (Ran 0 "ok" "");
        Exec "r" "uptime" (Ran 0 "ok" ""); Exec "s" "uptime" (Ran 0 "ok" "");
        Exec "t" "uptime" (Ran 0 "ok" "")].

(** A loaded inventory file with two groups. *)
Definition two_groups : list (string * GroupConfig.t) :=
  [("web", {| GroupConfig.hosts := Some ["a"; "b"]; GroupConfig.roles := None;
              GroupConfig.vars := None |});
   ("db", {| GroupConfig.hosts := Some ["p"]; GroupConfig.roles := Some ["primary"];
             GroupConfig.vars := None |})].

(** A playbook of two tasks for the group [hosts]. *)
Definition two_tasks : list Task.t :=
  [Scenario.make_task "echo {v}" 0 0; Scenario.make_task "uptime" 1 0].

Definition deploy (hosts : string) : Playbook.t string :=
  {| Playbook.name := "deploy"; Playbook.hosts := hosts;
     Playbook.tasks := two_tasks; Playbook.variables := [("v", "1")] |}.

End Sample.

(** ** Command templates

    A command template read as the texts and the [{name}] tokens it is made
    of; the vocabulary in which the effect of [substitute_variables] on a
    whole template is stated. *)

Module Template.

Inductive Segment : Type :=
  | Text (text : string)
  | Token (name : string).

(** The token of a variable, [f"{{{var_name}}}"]. *)
Definition token (name : string) : string := "{" +:+ name +:+ "}".

(** The command string a template stands for. *)
Fixpoint render (template : list Segment) : string :=
  match template with
  | [] => ""
  | Text text :: rest => text +:+ render rest
  | Token name :: rest => token name +:+ render rest
  end.

(** No opening brace occurs in [s], so no token starts inside it. *)
Definition brace_free (s : string) : bool := negb (contains "{" s).

(** A variable name without braces. *)
Definition name_ok (name : string) : bool :=
  brace_free name && negb (contains "}" name).

Definition segment_ok (segment : Segment) : bool :=
  match segment with
  | Text text => brace_free text
  | Token name => name_ok name
  end.

(** Braces occur in the rendered template only around the names of its
    tokens. *)
Definition well_formed (template : list Segment) : bool :=
  forallb segment_ok template.

(** The template with every token of [name] replaced by the segments of
    [value]. *)
Definition expand (name : string) (value template : list Segment) : list Segment :=
  flat_map (fun segment =>
              match segment with
              | Text _ => [segment]
              | Token n => if String.eqb n name then value else [segment]
              end) template.

(** The string read off a template when every token of [name] stands for the
    string [value], whatever that string is. *)
Fixpoint fill (name value : string) (template : list Segment) : string :=
  match template with
  | [] => ""
  | Text text :: rest => text +:+ fill name value rest
  | Token n :: rest =>
      (if String.eqb n name then value else token n) +:+ fill name value rest
  end.

(** Bindings whose values are templates themselves, in the order the
    dictionary yields them. *)
Definition Bindings : Type := list (string * list Segment).

Definition bindings_ok (bindings : Bindings) : bool :=
  forallb (fun binding => name_ok (fst binding) && well_formed (snd binding)) bindings.

(** The dictionary passed to [substitute_variables]. *)
Definition variables_of (bindings : Bindings) : list (string * string) :=
  map (fun binding => (fst binding, render (snd binding))) bindings.

(** One binding after the other, each applied to the outcome of the ones
    before it. *)
Definition expand_all (bindings : Bindings) (template : list Segment) : list Segment :=
  fold_left (fun t binding => expand (fst binding) (snd binding) t) bindings template.

End Template.
Export Template.


(** * Properties *)

(** ** Variable substitution *)

Section Substitution.
Context {V : Type} `{Str V}.

Lemma substitute_variables_nil (command : string) :
  substitute_variables command ([] : list (string * V)) = command.
Proof. reflexivity. Qed.

Lemma substitute_variables_cons (command var_name : string) (var_value : V) rest :
  substitute_variables command ((var_name, var_value) :: rest)
  = substitute_variables (replace command ("{" +:+ var_name +:+ "}") (str var_value)) rest.
Proof. reflexivity. Qed.

Lemma substitute_variables_app (command : string) (vs1 vs2 : list (string * V)) :
  substitute_variables command (vs1 ++ vs2)
  = substitute_variables (substitute_variables command vs1) vs2.
Proof. unfold substitute_variables. apply fold_left_app. Qed.

End Substitution.

Lemma starts_with_refl (s : string) : starts_with s s = true.
Proof.
  induction s as [|c s IH]; simpl; [reflexivity|].
  rewrite Ascii.eqb_refl. exact IH.
Qed.

Lemma replace_from_skip_all (old new s : string) (k : nat) :
  (String.length s <= k)%nat -> replace_from k old new s = "".
Proof.
  revert k. induction s as [|c s IH]; intros k Hk; simpl in *; [reflexivity|].
  destruct k as [|k]; [lia|]. apply IH. lia.
Qed.

Lemma append_cons (c : Ascii.ascii) (s t : string) :
  String c s +:+ t = String c (s +:+ t).
Proof. reflexivity. Qed.

Lemma append_empty_r (s : string) : s +:+ "" = s.
Proof.
  induction s as [|c s IH]; [reflexivity|].
  rewrite append_cons. f_equal. exact IH.
Qed.

(** Replacing a token inside the string that consists of just that token. *)
Lemma replace_whole_token (name new : string) :
  replace ("{" +:+ name +:+ "}") ("{" +:+ name +:+ "}") new = new.
Proof.
  unfold replace.
  assert (Htok : exists c, "{" +:+ name +:+ "}" = String c (name +:+ "}"))
    by (eexists; reflexivity).
  destruct Htok as [c ->]. cbn [replace_from].
  rewrite starts_with_refl.
  rewrite replace_from_skip_all; [apply append_empty_r|].
  cbn [String.length]. lia.
Qed.

(** The chained rewrite on a command line: ["{dir}"] is put in by the first
    binding and expanded by the second. *)
Example substitute_chain :
  substitute_variables "cd {path} && ls"
    [("path", "{dir}/releases"); ("dir", "/srv/app")]
  = "cd /srv/app/releases && ls".
Proof. reflexivity. Qed.

(** In the other order the inserted token stays. *)
Example substitute_order_matters :
  substitute_variables "cd {path} && ls"
    [("dir", "/srv/app"); ("path", "{dir}/releases")]
  = "cd {dir}/releases && ls".
Proof. reflexivity. Qed.

(** ** The monad and the history *)

Ltac break_if :=
  match goal with
  | |- context [if ?b then _ else _] => destruct b eqn:?
  end.

Ltac break_sleep :=
  match goal with
  | |- context [sleep ?d ?h] => destruct (sleep d h) as [[[]|?] ?]
  end.

Lemma sleep_ok (d : Z) (h : History) :
  0 <= d -> sleep d h = (Ok tt, h ++ [Slept d]).
Proof.
  intros Hd. unfold sleep.
  destruct (Z.ltb_spec d 0) as [Hlt|_]; [lia|reflexivity].
Qed.

Lemma runs_app (h1 h2 : History) : runs (h1 ++ h2) = runs h1 ++ runs h2.
Proof. unfold runs. apply omap_app. Qed.

Lemma calls_app (h1 h2 : History) : calls (h1 ++ h2) = calls h1 ++ calls h2.
Proof. unfold calls. now rewrite runs_app, map_app. Qed.


(** ** One target: the attempt loop *)

Section Attempts.
Context {V : Type} `{Str V}.
Variable rem : Remote.
Variable task : Task.t.
Variable server command : string.

Let retries := Task.retries task.
Let delay := Task.delay task.

(** The last allowed attempt ends the loop whatever the call did. *)
Lemma attempt_body_last (attempt : Z) (h : History) :
  retries <= attempt ->
  exists o,
    attempt_body rem task server command attempt h
    = (Ok (Some o), h ++ [Exec server command (respond rem h server command)])
    /\ server_of o = server
    /\ (run_succeeded (respond rem h server command) = false ->
        o = exhausted server (attempt + 1) (respond rem h server command)).
Proof.
  intros Hlast. unfold attempt_body, try_except, bind, run_warn.
  destruct (respond rem h server command) as [rc out err|msg]; cbn.
  - destruct (Z.eqb_spec rc 0) as [->|Hrc]; cbn.
    + eexists; split; [reflexivity|]. split; [reflexivity|discriminate].
    + destruct (Z.ltb_spec attempt (Task.retries task)) as [Hlt|_];
        [subst retries; lia|].
      eexists; split; [reflexivity|]. split; reflexivity.
  - destruct (Z.ltb_spec attempt (Task.retries task)) as [Hlt|_];
      [subst retries; lia|].
    eexists; split; [reflexivity|]. split; reflexivity.
Qed.


(** When no call ever succeeds, the loop uses every attempt. *)
Section NeverSucceeds.
Variable P : RunResult -> Prop.
Hypothesis P_respond : forall h, P (respond rem h server command).
Hypothesis P_unsuccessful : forall r, P r -> run_succeeded r = false.
Hypothesis delay_ok : 0 <= delay.


End NeverSucceeds.

(** Whatever an attempt returns is about this server. *)
Lemma attempt_body_server (attempt : Z) (h h1 : History) (o : Outcome) :
  attempt_body rem task server command attempt h = (Ok (Some o), h1) ->
  server_of o = server.
Proof.
  unfold attempt_body, try_except, bind, run_warn, print, emit, ret, raise.
  destruct (respond rem h server command) as [rc out err|msg]; cbn;
    repeat (break_if; cbn);
    repeat (break_sleep; cbn; repeat (break_if; cbn));
    intros Heq; inversion Heq; reflexivity.
Qed.

(** With [retries >= 0] the loop never runs off its end: it returns an
    outcome for this server or raises. *)
Lemma attempts_return (n a : nat) (h : History) :
  Z.of_nat a + Z.of_nat n = retries ->
  match fst (for_each (map Z.of_nat (seq a (S n)))
               (attempt_body rem task server command) h) with
  | Ok (Some o) => server_of o = server
  | Ok None => False
  | Raise _ => True
  end.
Proof.
  revert a h. induction n as [|n IH]; intros a h Ha.
  - destruct (attempt_body_last (Z.of_nat a) h) as (o & Hrun & Hs & _); [lia|].
    cbn [seq map for_each]. unfold bind. rewrite Hrun. exact Hs.
  - change (seq a (S (S n))) with (a :: seq (S a) (S n)).
    cbn [map for_each]. unfold bind at 1.
    destruct (attempt_body rem task server command (Z.of_nat a) h)
      as [[[o|]|e] h1] eqn:Hrun.
    + exact (attempt_body_server _ _ _ _ Hrun).
    + apply IH. lia.
    + exact I.
Qed.

End Attempts.

(** ** One target: the worker *)

Lemma range1_succ (r : Z) :
  0 <= r -> range1 (r + 1) = map Z.of_nat (seq 0 (S (Z.to_nat r))).
Proof.
  intros Hr. unfold range1. f_equal. f_equal. lia.
Qed.

Section Worker.
Context {V : Type} `{Str V}.
Variable rem : Remote.
Variable task : Task.t.
Variable variables : list (string * V).
Variable server : string.

Let command := substitute_variables (Task.command task) variables.

Lemma execute_on_server_unreachable (msg : string) (h : History) :
  connect_error rem server = Some msg ->
  execute_on_server rem task variables server h
  = (Ok (Some (ConnectionError server msg)), h ++ [ConnectFailed server msg]).
Proof.
  intros Hc. unfold execute_on_server, try_except, bind, Connection.
  rewrite Hc. reflexivity.
Qed.

Lemma execute_on_server_connected (h : History) :
  connect_error rem server = None ->
  execute_on_server rem task variables server h
  = try_except
      (for_each (range1 (Task.retries task + 1))
         (attempt_body rem task server command))
      (fun e => ret (Some (ConnectionError server (exn_str e)))) h.
Proof.
  intros Hc. unfold execute_on_server, try_except, bind, Connection.
  rewrite Hc. reflexivity.
Qed.


(** With [retries >= 0] the worker always hands back an outcome, and the
    outcome names its own server. *)
Lemma submit_returns :
  0 <= Task.retries task ->
  exists o, submit rem task variables server = Ok (Some o) /\ server_of o = server.
Proof.
  intros Hr. unfold submit.
  destruct (connect_error rem server) as [msg|] eqn:Hc.
  - rewrite (execute_on_server_unreachable msg) by exact Hc.
    eexists; split; reflexivity.
  - rewrite execute_on_server_connected by exact Hc.
    unfold try_except. rewrite range1_succ by exact Hr.
    pose proof (attempts_return rem task server command
                  (Z.to_nat (Task.retries task)) 0 []) as Hret.
    destruct (for_each _ _ []) as [[[o|]|e] h1]; cbn in *.
    + exists o. split; [reflexivity|]. apply Hret. lia.
    + exfalso. apply Hret. lia.
    + eexists; split; reflexivity.
Qed.

End Worker.




(** When [Connection("c")] itself raises, no call is made, although three
    retries are allowed. *)
Example unreachable_target_is_a_connection_error :
  execute_on_server (Scenario.unreachable "c") (Scenario.make_task "uptime" 3 1)
    ([] : list (string * string)) "c" []
  = (Ok (Some (ConnectionError "c" "no route to host")),
     [ConnectFailed "c" "no route to host"]).
Proof. reflexivity. Qed.

(** ** The fleet *)

(** What a settled future contributes to the result list. *)
Lemma collect_outcomes (outs acc : list Outcome) :
  collect (map (fun o => Ok (Some o)) outs) acc = Ok (acc ++ outs).
Proof.
  revert acc. induction outs as [|o outs IH]; intros acc; cbn.
  - now rewrite app_nil_r.
  - rewrite IH. now rewrite <- app_assoc.
Qed.

Lemma all_outcomes (futures : list (Res (option Outcome))) :
  Forall (fun f => exists o, f = Ok (Some o)) futures ->
  exists outs, futures = map (fun o => Ok (Some o)) outs.
Proof.
  induction 1 as [|f futures [o ->] _ [outs ->]].
  - exists []. reflexivity.
  - exists (o :: outs). reflexivity.
Qed.

(** C2.  Whatever order the futures complete in, and whatever happens on the
    individual targets (unreachable ones included), a task with
    [retries >= 0] yields a result list with exactly one outcome per
    submitted target: as many outcomes as targets, the outcomes' servers are
    the targets (each as often as it was submitted), every status is one of
    the four declared ones, and each outcome is exactly what that target's
    own worker produced, so no target's failure changes or removes
    another's. *)
Theorem fleet_one_outcome_per_target
    {V : Type} `{Str V}
    (as_completed : forall A : Type, list A -> list A)
    (rem : Remote) (task : Task.t) (variables : list (string * V))
    (servers : list string) :
  (forall (A : Type) (l : list A), Permutation (as_completed A l) l) ->
  0 <= Task.retries task ->
  exists results,
    execute_task_on_servers rem task variables as_completed servers = Ok results
    /\ length results = length servers
    /\ Permutation (map server_of results) servers
    /\ Forall (fun o => In (status o) Spec.declared_statuses) results
    /\ Permutation (map (fun o => Ok (Some o)) results)
                   (map (submit rem task variables) servers).
Proof.
  intros Hperm Hr.
  assert (Hall : Forall (fun f => exists o, f = Ok (Some o))
                   (as_completed _ (map (submit rem task variables) servers))).
  { eapply Permutation_Forall; [symmetry; apply Hperm|].
    apply Forall_map, Forall_forall. intros s _.
    destruct (submit_returns rem task variables s Hr) as (o & Ho & _).
    exists o. exact Ho. }
  destruct (all_outcomes _ Hall) as [results Hres].
  assert (Hp : Permutation (map (fun o => Ok (Some o)) results)
                 (map (submit rem task variables) servers)).
  { rewrite <- Hres. apply Hperm. }
  exists results. unfold execute_task_on_servers. rewrite Hres, collect_outcomes.
  split; [reflexivity|].
  split.
  { apply Permutation_length in Hp. now rewrite !length_map in Hp. }
  split.
  { apply (Permutation_map future_server) in Hp.
    rewrite !map_map in Hp. cbn in Hp.
    erewrite (map_ext_in (fun s => future_server (submit rem task variables s)) id) in Hp.
    - now rewrite map_id in Hp.
    - intros s _.
      destruct (submit_returns rem task variables s Hr) as (o & -> & Ho).
      exact Ho. }
  split; [|exact Hp].
  apply Forall_forall. intros o _. unfold Spec.declared_statuses.
  destruct o; cbn; tauto.
Qed.

(** Five targets, one of them unreachable, futures completing in reverse. *)
Lemma fleet_one_outcome_per_target_witness :
  exists results,
    execute_task_on_servers (Scenario.unreachable "c") (Scenario.make_task "uptime" 0 0)
      ([] : list (string * string)) (fun _ l => rev l) ["a"; "b"; "c"; "d"; "e"]
    = Ok results
    /\ length results = length ["a"; "b"; "c"; "d"; "e"]
    /\ Permutation (map server_of results) ["a"; "b"; "c"; "d"; "e"]
    /\ Forall (fun o => In (status o) Spec.declared_statuses) results
    /\ Permutation (map (fun o => Ok (Some o)) results)
         (map (submit (Scenario.unreachable "c") (Scenario.make_task "uptime" 0 0)
                 ([] : list (string * string)))
              ["a"; "b"; "c"; "d"; "e"]).
Proof.
  refine (fleet_one_outcome_per_target (fun _ l => rev l)
            (Scenario.unreachable "c") (Scenario.make_task "uptime" 0 0)
            ([] : list (string * string)) ["a"; "b"; "c"; "d"; "e"] _ _).
  - intros A l. symmetry. apply Permutation_rev.
  - cbn. lia.
Defined.

(** The scenario of the specification: four successes and exactly one
    connection error, for the target that could not be reached. *)
Example fleet_with_one_unreachable :
  execute_task_on_servers (Scenario.unreachable "c") (Scenario.make_task "uptime" 0 0)
    ([] : list (string * string)) (fun _ l => rev l) ["a"; "b"; "c"; "d"; "e"]
  = Ok [Success "e" "ok" 1; Success "d" "ok" 1;
        ConnectionError "c" "no route to host";
        Success "b" "ok" 1; Success "a" "ok" 1].
Proof. reflexivity. Qed.

(** A negative [retries] is outside the data model, and the code does not
    survive it: the worker returns [None] and the collecting loop raises. *)
Example negative_retries_abort_the_run :
  execute_task_on_servers (Scenario.always (Ran 0 "ok" "")) (Scenario.make_task "uptime" (-1) 0)
    ([] : list (string * string)) (fun _ l => l) ["a"; "b"]
  = Raise (TypeError "'NoneType' object is not subscriptable").
Proof. reflexivity. Qed.

(** ** Group health *)

Lemma probes_app (h1 h2 : History) : probes (h1 ++ h2) = probes h1 ++ probes h2.
Proof. unfold probes. apply omap_app. Qed.

Lemma probe_results_app (h1 h2 : History) :
  probe_results (h1 ++ h2) = probe_results h1 ++ probe_results h2.
Proof. unfold probe_results. now rewrite probes_app, map_app. Qed.

Lemma count_true_app (l1 l2 : list bool) :
  Spec.count_true (l1 ++ l2) = Spec.count_true l1 + Spec.count_true l2.
Proof. unfold Spec.count_true. rewrite List.filter_app, length_app. lia. Qed.

Section HealthFacts.
Variable rem : Remote.

(** One probe leaves one event, never raises, and adds one to the counter
    exactly when the command ran and exited with status zero. *)
Lemma probe_spec (healthy_servers : Z) (server : string) (h : History) :
  exists e b,
    probe rem healthy_servers server h
    = (Ok (healthy_servers + Spec.count_true [b]), h ++ [e])
    /\ probes [e] = [(server, b)]
    /\ (e = Exec server "uptime" (respond rem h server "uptime")
        \/ exists msg, e = ConnectFailed server msg).
Proof.
  unfold probe, try_except, bind, Connection, run_warn.
  destruct (connect_error rem server) as [msg|] eqn:Hc; cbn.
  - exists (ConnectFailed server msg), false. cbn.
    rewrite Z.add_0_r. repeat split. right. now exists msg.
  - destruct (respond rem h server "uptime") as [rc out err|msg] eqn:Hr; cbn.
    + exists (Exec server "uptime" (Ran rc out err)), (rc =? 0). cbn.
      destruct (rc =? 0); cbn; rewrite ?Z.add_0_r; repeat split; now left.
    + exists (Exec server "uptime" (Raised msg)), false. cbn.
      rewrite Z.add_0_r. repeat split. now left.
Qed.

(** The probing loop visits every server once, in order. *)
Lemma probing_spec (servers : list string) (healthy_servers : Z) (h : History) :
  exists tr,
    for_acc servers healthy_servers (probe rem) h
    = (Ok (healthy_servers + Spec.count_true (probe_results tr)), h ++ tr)
    /\ map fst (probes tr) = servers
    /\ calls tr = map (fun s => (s, "uptime")) (List.filter
         (fun s => match connect_error rem s with None => true | _ => false end)
         servers).
Proof.
  revert healthy_servers h.
  induction servers as [|s servers IH]; intros acc h.
  - exists []. cbn. rewrite Z.add_0_r, app_nil_r. repeat split.
  - destruct (probe_spec acc s h) as (e & b & Hp & Hpe & He).
    destruct (IH (acc + Spec.count_true [b]) (h ++ [e])) as (tr & Hloop & Hs & Hc).
    exists ([e] ++ tr).
    cbn [for_acc]. unfold bind at 1. rewrite Hp, Hloop.
    rewrite <- app_assoc, probe_results_app, probes_app, count_true_app, calls_app.
    split; [|split].
    + f_equal. f_equal.
      assert (Hb : probe_results [e] = [b])
        by (unfold probe_results; now rewrite Hpe).
      rewrite Hb. lia.
    + rewrite map_app, Hpe, Hs. reflexivity.
    + rewrite Hc. cbn [List.filter].
      destruct He as [->|[msg ->]].
      * destruct (connect_error rem s) eqn:Hcs.
        -- exfalso. revert Hp. unfold probe, try_except, bind, Connection.
           rewrite Hcs. cbn. intros [= _ Hh]. apply app_inv_head in Hh.
           discriminate.
        -- reflexivity.
      * destruct (connect_error rem s) eqn:Hcs.
        -- reflexivity.
        -- exfalso. revert Hp. unfold probe, try_except, bind, Connection, run_warn.
           rewrite Hcs. cbn.
           destruct (respond rem h s "uptime"); cbn;
             try destruct (_ =? 0); intros [= _ Hh];
             apply app_inv_head in Hh; discriminate.
Qed.

Lemma probe_results_length (h : History) :
  length (probe_results h) = length (probes h).
Proof. unfold probe_results. apply length_map. Qed.

(** The whole check on a group that is known and not empty. *)
Lemma check_group_health_spec (self : InfrastructureOrchestrator.t)
    (group_name : string) (g : ServerGroup.t) (h : History) :
  server_groups self !! group_name = Some g ->
  ServerGroup.servers g <> [] ->
  exists tr,
    check_group_health rem self group_name h = (Ok (judged (probe_results tr)), h ++ tr)
    /\ map fst (probes tr) = ServerGroup.servers g
    /\ calls tr = map (fun s => (s, "uptime")) (List.filter
         (fun s => match connect_error rem s with None => true | _ => false end)
         (ServerGroup.servers g)).
Proof.
  intros Hg Hne.
  destruct (probing_spec (ServerGroup.servers g) 0 h) as (tr & Hloop & Hs & Hc).
  exists tr. unfold check_group_health, group, bind. rewrite Hg. cbn.
  rewrite Hloop.
  assert (Hlen : length (probe_results tr) = length (ServerGroup.servers g)).
  { rewrite probe_results_length, <- Hs. now rewrite length_map. }
  destruct (Z.eqb_spec (Z.of_nat (length (ServerGroup.servers g))) 0) as [H0|_].
  - destruct (ServerGroup.servers g); [congruence|cbn in H0; lia].
  - unfold judged. rewrite Hlen. cbn. auto.
Qed.

End HealthFacts.

(** The judgment in integers: at least 80 in 100 of the probes are good. *)
Lemma percent_le (a n : Z) :
  0 < n ->
  Qle_bool 80 (inject_Z a / inject_Z n * 100)%Q = (80 * n <=? 100 * a).
Proof.
  intros Hn. apply Bool.eq_iff_eq_true.
  rewrite Qle_bool_iff, Z.leb_le.
  destruct n as [|p|p]; try lia.
  unfold Qle, Qdiv, Qmult, Qinv, inject_Z. cbn. lia.
Qed.

Lemma ratio_le (a n : Z) :
  0 < n ->
  Qle_bool (80 # 100) (inject_Z a / inject_Z n)%Q = (80 * n <=? 100 * a).
Proof.
  intros Hn. apply Bool.eq_iff_eq_true.
  rewrite Qle_bool_iff, Z.leb_le.
  destruct n as [|p|p]; try lia.
  unfold Qle, Qdiv, Qmult, Qinv, inject_Z. cbn. lia.
Qed.

Lemma judged_assess (probeResults : list bool) :
  probeResults <> [] ->
  judged probeResults = Spec.assess probeResults (80 # 100)
  /\ (judged probeResults = true <->
      80 * Z.of_nat (length probeResults) <= 100 * Spec.count_true probeResults).
Proof.
  intros Hne.
  assert (Hn : 0 < Z.of_nat (length probeResults))
    by (destruct probeResults; [congruence|cbn; lia]).
  unfold judged, Spec.assess, Spec.ratio.
  rewrite percent_le, ratio_le by exact Hn.
  split.
  - destruct (Z.ltb_spec 0 (Z.of_nat (length probeResults))); [reflexivity|lia].
  - apply Z.leb_le.
Qed.

(** C4, at the failing input.  On a group without servers the check reaches
    [healthy_servers / len(servers)] with a zero divisor: it raises
    [ZeroDivisionError] instead of answering [False]. *)
Theorem empty_group_divides_by_zero
    (rem : Remote) (self : InfrastructureOrchestrator.t)
    (group_name : string) (g : ServerGroup.t) (h : History) :
  server_groups self !! group_name = Some g ->
  ServerGroup.servers g = [] ->
  check_group_health rem self group_name h = (Raise ZeroDivisionError, h).
Proof.
  intros Hg Hs. unfold check_group_health, group, bind.
  rewrite Hg. cbn. rewrite Hs. reflexivity.
Qed.

Lemma empty_group_divides_by_zero_witness :
  check_group_health (Scenario.always (Ran 0 "ok" "")) Scenario.inventory "empty" []
  = (Raise ZeroDivisionError, []).
Proof.
  refine (empty_group_divides_by_zero (Scenario.always (Ran 0 "ok" ""))
            Scenario.inventory "empty" (Scenario.make_group "empty" []) [] _ _).
  - reflexivity.
  - reflexivity.
Defined.

(** C5, as the code has it.  For a non-empty group the check probes every
    server, takes [ratio = count(true) / count(all)] and answers
    [ratio >= threshold] with the comparison inclusive, but the threshold is
    the constant 80% and not a value the caller passes: the answer is [true]
    exactly when at least 80 in 100 of the probes are good. *)
Theorem health_threshold_is_eighty_percent
    (rem : Remote) (self : InfrastructureOrchestrator.t)
    (group_name : string) (g : ServerGroup.t) (h : History) :
  server_groups self !! group_name = Some g ->
  ServerGroup.servers g <> [] ->
  exists tr,
    check_group_health rem self group_name h
    = (Ok (Spec.assess (probe_results tr) (80 # 100)), h ++ tr)
    /\ length (probe_results tr) = length (ServerGroup.servers g)
    /\ (Spec.assess (probe_results tr) (80 # 100) = true <->
        80 * Z.of_nat (length (probe_results tr))
        <= 100 * Spec.count_true (probe_results tr)).
Proof.
  intros Hg Hne.
  destruct (check_group_health_spec rem self group_name g h Hg Hne)
    as (tr & Hrun & Hs & _).
  assert (Hlen : length (probe_results tr) = length (ServerGroup.servers g)).
  { rewrite probe_results_length, <- Hs. now rewrite length_map. }
  assert (Hp : probe_results tr <> []).
  { intros E. rewrite E in Hlen. destruct (ServerGroup.servers g); [congruence|discriminate]. }
  destruct (judged_assess _ Hp) as [Heq Hiff].
  exists tr. rewrite Hrun, Heq. split; [reflexivity|]. split; [exact Hlen|].
  rewrite <- Heq. exact Hiff.
Qed.

Lemma health_threshold_is_eighty_percent_witness :
  exists tr,
    check_group_health (Scenario.failing [("t", "uptime")]) Scenario.inventory "db" []
    = (Ok (Spec.assess (probe_results tr) (80 # 100)), [] ++ tr)
    /\ length (probe_results tr)
       = length (ServerGroup.servers (Scenario.make_group "db" ["p"; "q"; "r"; "s"; "t"]))
    /\ (Spec.assess (probe_results tr) (80 # 100) = true <->
        80 * Z.of_nat (length (probe_results tr))
        <= 100 * Spec.count_true (probe_results tr)).
Proof.
  refine (health_threshold_is_eighty_percent (Scenario.failing [("t", "uptime")])
            Scenario.inventory "db"
            (Scenario.make_group "db" ["p"; "q"; "r"; "s"; "t"]) [] _ _).
  - reflexivity.
  - discriminate.
Defined.

(** Exactly 80% is healthy: the comparison is inclusive. *)
Example four_of_five_is_healthy :
  fst (check_group_health (Scenario.failing [("t", "uptime")]) Scenario.inventory "db" [])
  = Ok true.
Proof. reflexivity. Qed.

(** Probes [true, true, false, false]: the ratio is one half and the group is
    judged unhealthy, where a threshold of one half would make it healthy. *)
Example two_of_four_is_unhealthy :
  let run := check_group_health
               (Scenario.failing [("c", "uptime"); ("d", "uptime")])
               Scenario.inventory "web" [] in
  fst run = Ok false
  /\ probe_results (snd run) = [true; true; false; false]
  /\ Qeq (Spec.ratio (probe_results (snd run))) (1 # 2)
  /\ Spec.assess (probe_results (snd run)) (1 # 2) = true.
Proof. repeat split. Qed.

(** C5 as worded fails at that input. *)
Lemma health_uses_the_given_threshold_counterexample :
  ~ health_uses_the_given_threshold.
Proof.
  intros Hclaim.
  specialize (Hclaim (Scenario.failing [("c", "uptime"); ("d", "uptime")])
                Scenario.inventory "web"
                (Scenario.make_group "web" ["a"; "b"; "c"; "d"])
                (1 # 2) false
                [Exec "a" "uptime" (Ran 0 "ok" "");
                 Exec "b" "uptime" (Ran 0 "ok" "");
                 Exec "c" "uptime" (Ran 1 "" "failed");
                 Exec "d" "uptime" (Ran 1 "" "failed")]).
  assert (Hfalse : false = true).
  { apply Hclaim.
    - reflexivity.
    - discriminate.
    - unfold Qle; cbn; lia.
    - unfold Qle; cbn; lia.
    - reflexivity. }
  discriminate Hfalse.
Qed.



(** A server that raises during the probe and one that cannot be reached are
    both counted as unhealthy; the check still answers. *)
Example raising_probes_count_as_unhealthy :
  check_group_health (Scenario.always (Raised "timed out")) Scenario.inventory "standby" []
  = (Ok false, [Exec "x" "uptime" (Raised "timed out")])
  /\ check_group_health (Scenario.unreachable "c") Scenario.inventory "web" []
     = (Ok false,
        [Exec "a" "uptime" (Ran 0 "ok" ""); Exec "b" "uptime" (Ran 0 "ok" "");
         ConnectFailed "c" "no route to host"; Exec "d" "uptime" (Ran 0 "ok" "")]).
Proof. split; reflexivity. Qed.

(** ** Failover *)

Lemma notices_app (h1 h2 : History) : notices (h1 ++ h2) = notices h1 ++ notices h2.
Proof. unfold notices. apply omap_app. Qed.

Section FailoverFacts.
Variable rem : Remote.
Variable servers : list string.
Hypothesis reachable : forall s, In s servers -> connect_error rem s = None.
Hypothesis succeed :
  forall h s c, In s servers -> run_succeeded (respond rem h s c) = true.

Lemma connections_open (l : list string) (h : History) :
  incl l servers ->
  for_acc l tt (fun _ server => Connection rem server) h = (Ok tt, h).
Proof.
  revert h. induction l as [|s l IH]; intros h Hl; [reflexivity|].
  cbn [for_acc]. unfold bind, Connection at 1.
  rewrite (reachable s) by (apply Hl; now left). cbn.
  apply IH. intros x Hx. apply Hl. now right.
Qed.

Lemma group_run_members (command : string) (l : list string) (failed : bool) (h : History) :
  incl l servers ->
  exists evs,
    for_acc l failed (group_member rem command) h = (Ok failed, h ++ evs)
    /\ calls evs = map (fun s => (s, command)) l
    /\ notices evs = [].
Proof.
  revert failed h. induction l as [|s l IH]; intros failed h Hl.
  - exists []. cbn. now rewrite app_nil_r.
  - cbn [for_acc]. unfold bind at 1, group_member at 1. cbn zeta.
    rewrite succeed by (apply Hl; now left). cbn [negb].
    rewrite orb_false_r.
    destruct (IH failed (h ++ [Exec s command (respond rem h s command)]))
      as (evs & Hrun & Hcalls & Hnot); [intros x Hx; apply Hl; now right|].
    exists ([Exec s command (respond rem h s command)] ++ evs).
    rewrite Hrun, <- app_assoc, calls_app, notices_app, Hcalls, Hnot.
    repeat split.
Qed.

Lemma group_run_ok (command : string) (h : History) :
  exists evs,
    group_run rem servers command h = (Ok tt, h ++ evs)
    /\ calls evs = map (fun s => (s, command)) servers
    /\ notices evs = [].
Proof.
  destruct (group_run_members command servers false h) as (evs & Hrun & Hc & Hn);
    [apply incl_refl|].
  exists evs. unfold group_run, bind. rewrite Hrun. repeat split; assumption.
Qed.

Lemma activate_ok (services : list string) (h : History) :
  exists evs,
    activate rem servers services h = (Ok tt, h ++ evs)
    /\ calls evs = activation_calls servers services
    /\ notices evs = [].
Proof.
  unfold activate. revert h. induction services as [|service services IH]; intros h.
  - exists []. cbn. now rewrite app_nil_r.
  - destruct (group_run_ok (start_command service) h) as (e1 & H1 & C1 & N1).
    destruct (group_run_ok (enable_command service) (h ++ e1)) as (e2 & H2 & C2 & N2).
    destruct (IH ((h ++ e1) ++ e2)) as (e3 & H3 & C3 & N3).
    exists (e1 ++ e2 ++ e3).
    cbn [for_acc]. unfold bind at 1. unfold bind at 1. rewrite H1, H2, H3.
    rewrite !calls_app, !notices_app, C1, C2, C3, N1, N2, N3.
    rewrite <- !app_assoc. repeat split.
    unfold activation_calls. cbn [map concat]. now rewrite <- app_assoc.
Qed.

End FailoverFacts.

Lemma check_group_health_known (rem : Remote) (self : InfrastructureOrchestrator.t)
    (group_name : string) (b : bool) (h h' : History) :
  check_group_health rem self group_name h = (Ok b, h') ->
  exists g, server_groups self !! group_name = Some g.
Proof.
  unfold check_group_health, group, bind.
  destruct (server_groups self !! group_name) as [g|]; [eauto|discriminate].
Qed.

(** C6, as the code has it.  An unhealthy standby is always refused: the
    call raises and nothing is sent after the probes, whatever the primary's
    health.  A healthy standby is activated whether or not the primary is
    healthy: when its servers accept the commands, every service is started
    and enabled on every standby server and the call returns [True]; a
    healthy primary only adds the printed remark that manual confirmation is
    required. *)
Theorem failover_activates_a_healthy_standby
    (rem : Remote) (self : InfrastructureOrchestrator.t)
    (primary_group backup_group : string) (backup : ServerGroup.t)
    (primary_healthy backup_healthy : bool) (h1 h2 : History) :
  server_groups self !! backup_group = Some backup ->
  check_group_health rem self primary_group [] = (Ok primary_healthy, h1) ->
  check_group_health rem self backup_group h1 = (Ok backup_healthy, h2) ->
  (backup_healthy = false ->
   disaster_recovery rem self primary_group backup_group []
   = (Raise (Exception "Backup servers are not healthy - cannot proceed with failover"), h2))
  /\ (backup_healthy = true ->
      (forall s, In s (ServerGroup.servers backup) -> connect_error rem s = None) ->
      (forall h s c, In s (ServerGroup.servers backup) ->
                     run_succeeded (respond rem h s c) = true) ->
      exists tail,
        disaster_recovery rem self primary_group backup_group [] = (Ok true, h2 ++ tail)
        /\ calls tail
           = activation_calls (ServerGroup.servers backup)
               (default ["nginx"; "app"] (ServerGroup.variables backup !! "services"))
        /\ notices tail
           = if primary_healthy then [ManualConfirmationRequired] else []).
Proof.
  intros Hb Hp Hs.
  destruct (check_group_health_known _ _ _ _ _ _ Hp) as [primary Hpg].
  split.
  - intros ->. unfold disaster_recovery, bind, group.
    rewrite Hpg, Hb. cbn. rewrite Hp, Hs. reflexivity.
  - intros -> Hreach Hok.
    set (notice := if primary_healthy then [Printed ManualConfirmationRequired] else []).
    destruct (activate_ok rem (ServerGroup.servers backup) Hok
                (default ["nginx"; "app"] (ServerGroup.variables backup !! "services"))
                (h2 ++ notice)) as (acts & Hact & Hcalls & Hnot).
    exists (notice ++ acts ++ [Slept 2]).
    unfold disaster_recovery, bind, group.
    rewrite Hpg, Hb. cbn. rewrite Hp, Hs. cbn.
    assert (Hprint : (if primary_healthy then print ManualConfirmationRequired else ret tt) h2
                     = (Ok tt, h2 ++ notice)).
    { subst notice. destruct primary_healthy; cbn; [reflexivity|].
      unfold ret. now rewrite app_nil_r. }
    rewrite Hprint. cbn.
    rewrite (connections_open rem (ServerGroup.servers backup) Hreach)
      by apply incl_refl.
    rewrite Hact. cbn.
    rewrite <- !app_assoc. split; [reflexivity|].
    rewrite !calls_app, !notices_app, Hcalls, Hnot.
    subst notice. destruct primary_healthy; cbn; rewrite ?app_nil_r; split; reflexivity.
Qed.

Lemma failover_activates_a_healthy_standby_witness :
  (true = false ->
   disaster_recovery Scenario.healthy Scenario.inventory "web" "standby" []
   = (Raise (Exception "Backup servers are not healthy - cannot proceed with failover"),
      Scenario.all_probes))
  /\ (true = true ->
      (forall s, In s ["x"] -> connect_error Scenario.healthy s = None) ->
      (forall h s c, In s ["x"] -> run_succeeded (respond Scenario.healthy h s c) = true) ->
      exists tail,
        disaster_recovery Scenario.healthy Scenario.inventory "web" "standby" []
        = (Ok true, Scenario.all_probes ++ tail)
        /\ calls tail
           = activation_calls ["x"]
               (default ["nginx"; "app"]
                  (ServerGroup.variables (Scenario.make_group "standby" ["x"]) !! "services"))
        /\ notices tail = [ManualConfirmationRequired]).
Proof.
  refine (failover_activates_a_healthy_standby Scenario.healthy Scenario.inventory
            "web" "standby" (Scenario.make_group "standby" ["x"]) true true
            Scenario.web_probes Scenario.all_probes _ _ _).
  - reflexivity.
  - reflexivity.
  - reflexivity.
Defined.

(** Both groups healthy: the remark is printed and the standby is activated
    all the same. *)
Example failover_of_a_healthy_primary :
  let run := disaster_recovery (Scenario.always (Ran 0 "ok" ""))
               Scenario.inventory "web" "standby" [] in
  fst run = Ok true
  /\ notices (snd run) = [ManualConfirmationRequired]
  /\ In ("x", "sudo systemctl start nginx") (calls (snd run)).
Proof. vm_compute. repeat split. right. right. right. right. right. now left. Qed.

(** The second case of C6 as worded fails there. *)
Lemma healthy_primary_is_not_failed_over_counterexample :
  ~ healthy_primary_is_not_failed_over.
Proof.
  intros Hclaim.
  specialize (Hclaim Scenario.healthy Scenario.inventory "web" "standby"
                Scenario.web_probes Scenario.all_probes
                (fst (disaster_recovery Scenario.healthy Scenario.inventory "web" "standby" []))
                (snd (disaster_recovery Scenario.healthy Scenario.inventory "web" "standby" []))).
  assert (Hcalls : calls (snd (disaster_recovery Scenario.healthy Scenario.inventory
                                 "web" "standby" []))
                   = calls Scenario.all_probes).
  { apply Hclaim; reflexivity. }
  vm_compute in Hcalls. discriminate Hcalls.
Qed.

(** ** Rolling restart: the batch size *)

(** C8, as the code has it.  No batch size is validated.  With a batch size
    that is not positive nothing is sent to any server, but only zero is an
    error (the [ValueError] of [range]); a negative batch size makes the loop
    empty and the restart reports success. *)
Theorem nonpositive_batch_size_sends_nothing
    (rem : Remote) (service_name : string) (self : InfrastructureOrchestrator.t)
    (server_group : string) (g : ServerGroup.t) (batch_size : Z) (h : History) :
  server_groups self !! server_group = Some g ->
  batch_size <= 0 ->
  rolling_restart rem service_name self server_group batch_size h
  = (if batch_size =? 0
     then Raise (ValueError "range() arg 3 must not be zero")
     else Ok true, h).
Proof.
  intros Hg Hb. unfold rolling_restart, bind, group, lift, range3.
  rewrite Hg. cbn.
  destruct (Z.eqb_spec batch_size 0) as [->|Hne]; [reflexivity|].
  unfold range_len.
  destruct (Z.ltb_spec 0 batch_size) as [Hpos|_]; [lia|].
  destruct (Z.ltb_spec (Z.of_nat (length (ServerGroup.servers g))) 0) as [Hneg|_]; [lia|].
  reflexivity.
Qed.

Lemma nonpositive_batch_size_sends_nothing_witness :
  rolling_restart (Scenario.always (Ran 0 "ok" "")) "nginx" Scenario.inventory "web" (-2) []
  = (if -2 =? 0
     then Raise (ValueError "range() arg 3 must not be zero")
     else Ok true, []).
Proof.
  refine (nonpositive_batch_size_sends_nothing (Scenario.always (Ran 0 "ok" "")) "nginx"
            Scenario.inventory "web" (Scenario.make_group "web" ["a"; "b"; "c"; "d"])
            (-2) [] _ _).
  - reflexivity.
  - lia.
Defined.

Example zero_batch_size_raises :
  rolling_restart (Scenario.always (Ran 0 "ok" "")) "nginx" Scenario.inventory "web" 0 []
  = (Raise (ValueError "range() arg 3 must not be zero"), []).
Proof. reflexivity. Qed.

(** C8 as worded fails for a negative batch size: the restart returns
    [True]. *)
Lemma bad_batch_size_fails_fast_counterexample : ~ bad_batch_size_fails_fast.
Proof.
  intros Hclaim.
  destruct (Hclaim (Scenario.always (Ran 0 "ok" "")) "nginx" Scenario.inventory "web" (-1) [])
    as [e He]; [lia|].
  discriminate He.
Qed.

(** ** Rolling restart: batches *)

Lemma exec_in_calls (s c : string) (r : RunResult) (h : History) :
  In (Exec s c r) h -> In (s, c) (calls h).
Proof.
  intros Hin. unfold calls, runs.
  apply (in_map fst _ (s, c, r)).
  apply list_elem_of_In, list_elem_of_omap.
  exists (Exec s c r). split; [now apply list_elem_of_In|reflexivity].
Qed.

Lemma start_failed_at_app (service_name s : string) (h1 h2 : History) :
  start_failed_at service_name s (h1 ++ h2) ->
  start_failed_at service_name s h1 \/ start_failed_at service_name s h2.
Proof.
  intros (rc & out & err & Hin & Hrc). apply in_app_or in Hin as [Hin|Hin];
    [left|right]; exists rc, out, err; now split.
Qed.

Lemma start_failed_calls (service_name s : string) (h : History) :
  start_failed_at service_name s h -> In (s, start_command service_name) (calls h).
Proof. intros (rc & out & err & Hin & _). eapply exec_in_calls, Hin. Qed.

Lemma sent_only_nil (command : string) (batch : list string) : sent_only command batch [].
Proof. intros s c []. Qed.

Lemma sent_only_app (command : string) (batch : list string) (h1 h2 : History) :
  sent_only command batch h1 -> sent_only command batch h2 ->
  sent_only command batch (h1 ++ h2).
Proof.
  intros H1 H2 s c Hin. rewrite calls_app in Hin.
  apply in_app_or in Hin as [Hin|Hin]; auto.
Qed.

Lemma sent_only_tail (command : string) (x : string) (batch : list string) (h : History) :
  sent_only command batch h -> sent_only command (x :: batch) h.
Proof. intros Hh s c Hin. destruct (Hh s c Hin). split; [assumption|now right]. Qed.

Lemma commands_differ (service_name : string) :
  stop_command service_name <> start_command service_name
  /\ is_active_command service_name <> start_command service_name
  /\ stop_command service_name <> is_active_command service_name.
Proof.
  unfold stop_command, start_command, is_active_command.
  repeat split; intros E; cbv [String.append] in E; discriminate E.
Qed.

Ltac hist_eq :=
  unfold ret; repeat match goal with x := _ |- _ => subst x end;
  rewrite ?app_nil_r; repeat (rewrite <- ?app_assoc; cbn [app]); reflexivity.

Section Phases.
Variable rem : Remote.
Variable service_name : string.

(** What opening a connection and running one command can do. *)
Lemma connect_run_cases {A : Type} (server command : string)
    (K : Result.t -> M A) (h : History) :
  (exists e, calls [e] = [] /\ notices [e] = []
             /\ (forall s, ~ start_failed_at service_name s [e])
             /\ exists x, (Connection rem server ;; result <- run_warn rem server command ;; K result) h
                = (Raise x, h ++ [e]))
  \/ (exists msg,
        respond rem h server command = Raised msg
        /\ (Connection rem server ;; result <- run_warn rem server command ;; K result) h
           = (Raise (TransportError msg), h ++ [Exec server command (Raised msg)]))
  \/ (exists rc out err,
        connect_error rem server = None
        /\ respond rem h server command = Ran rc out err
        /\ (Connection rem server ;; result <- run_warn rem server command ;; K result) h
           = K {| Result.return_code := rc; Result.stdout := out; Result.stderr := err |}
               (h ++ [Exec server command (Ran rc out err)])).
Proof.
  unfold bind, Connection, run_warn.
  destruct (connect_error rem server) as [msg|] eqn:Hc; cbn.
  - left. exists (ConnectFailed server msg). repeat split.
    + intros s (rc & out & err & [Hin|[]] & _). discriminate Hin.
    + eexists. reflexivity.
  - destruct (respond rem h server command) as [rc out err|msg] eqn:Hr; cbn.
    + right. right. exists rc, out, err. repeat split.
    + right. left. exists msg. split; reflexivity.
Qed.

Lemma stop_batch_cons (server : string) (batch : list string) :
  stop_batch rem service_name (server :: batch)
  = (r <- (Connection rem server ;;
           result <- run_warn rem server (stop_command service_name) ;;
           (if negb (Result.return_code result =? 0)
            then print (StopFailed service_name server) else ret tt) ;;
           ret None) ;;
     match r with
     | Some v => ret (Some v)
     | None => stop_batch rem service_name batch
     end).
Proof. reflexivity. Qed.

Lemma stop_batch_spec (batch : list string) (h : History) :
  exists evs r,
    stop_batch rem service_name batch h = (r, h ++ evs)
    /\ sent_only (stop_command service_name) batch evs
    /\ (forall s, ~ start_failed_at service_name s evs)
    /\ (forall s rc out err,
          In (Exec s (stop_command service_name) (Ran rc out err)) evs -> rc <> 0 ->
          In (StopFailed service_name s) (notices evs)).
Proof.
  revert h. induction batch as [|server batch IH]; intros h.
  - exists [], (Ok None). rewrite app_nil_r.
    split; [reflexivity|]. split; [|split].
    + apply sent_only_nil.
    + intros s (rc & out & err & [] & _).
    + intros s rc out err [].
  - rewrite stop_batch_cons. unfold bind at 1.
    destruct (connect_run_cases server (stop_command service_name)
                (fun result =>
                   (if negb (Result.return_code result =? 0)
                    then print (StopFailed service_name server) else ret tt) ;;
                   ret (None : option bool)) h)
      as [(e & Hc & Hn & Hsf & x & Hrun)|[(msg & Hr & Hrun)|(rc & out & err & Hc & Hr & Hrun)]].
    + rewrite Hrun. exists [e], (Raise x).
      split; [reflexivity|]. split; [|split].
      * intros s c Hin. rewrite Hc in Hin. destruct Hin.
      * exact Hsf.
      * intros s rc out err Hin Hrc. exfalso.
        apply exec_in_calls in Hin. rewrite Hc in Hin. destruct Hin.
    + rewrite Hrun. eexists _, _. split; [reflexivity|]. split; [|split].
      * intros s c [Hin|[]]. injection Hin as <- <-. split; [reflexivity|now left].
      * intros s (rc & out & err & [Hin|[]] & _). discriminate Hin.
      * intros s rc out err [Hin|[]] _. discriminate Hin.
    + rewrite Hrun. unfold bind at 1. cbn [Result.return_code].
      remember (Exec server (stop_command service_name) (Ran rc out err)) as e eqn:He.
      remember (if negb (rc =? 0) then [Printed (StopFailed service_name server)] else [])
        as logged eqn:Hlogged.
      assert (Hlog : (if negb (rc =? 0)
                      then print (StopFailed service_name server) else ret tt) (h ++ [e])
                     = (Ok tt, (h ++ [e]) ++ logged)).
      { subst logged. destruct (negb (rc =? 0)); [reflexivity|].
        unfold ret. now rewrite app_nil_r. }
      rewrite Hlog. cbn.
      destruct (IH ((h ++ [e]) ++ logged)) as (evs & r & Hrest & Hsent & Hsf & Hlogd).
      rewrite Hrest. exists ([e] ++ logged ++ evs), r.
      split; [now rewrite <- !app_assoc|].
      assert (Hcl : calls logged = [] /\ forall s, ~ start_failed_at service_name s logged).
      { subst logged. destruct (negb (rc =? 0)); split; try reflexivity.
        - intros s (? & ? & ? & [Hin|[]] & _). discriminate Hin.
        - intros s (? & ? & ? & [] & _). }
      destruct Hcl as [Hcl Hsl].
      assert (Hce : calls [e] = [(server, stop_command service_name)])
        by (subst e; reflexivity).
      split; [|split].
      * intros s c Hin. rewrite !calls_app, Hce, Hcl in Hin.
        destruct Hin as [Hin|Hin].
        -- injection Hin as <- <-. split; [reflexivity|now left].
        -- destruct (Hsent s c Hin). split; [assumption|now right].
      * intros s Hs. apply start_failed_at_app in Hs as [Hs|Hs].
        -- apply start_failed_calls in Hs. rewrite Hce in Hs.
           destruct Hs as [Hs|[]]. injection Hs as _ Hcmd.
           unfold stop_command, start_command in Hcmd.
           cbv [String.append] in Hcmd. discriminate Hcmd.
        -- apply start_failed_at_app in Hs as [Hs|Hs]; [exact (Hsl s Hs)|exact (Hsf s Hs)].
      * intros s rc' out' err' Hin Hrc. rewrite !notices_app.
        apply in_app_or in Hin as [Hin|Hin]; [|apply in_app_or in Hin as [Hin|Hin]].
        -- subst e. destruct Hin as [Hin|[]]. injection Hin as <- <- <- <-.
           apply in_or_app. right. apply in_or_app. left.
           subst logged. destruct (Z.eqb_spec rc 0); [contradiction|]. now left.
        -- exfalso. apply exec_in_calls in Hin. rewrite Hcl in Hin. destruct Hin.
        -- apply in_or_app. right. apply in_or_app. right. eapply Hlogd; eassumption.
Qed.

Lemma other_command_is_no_start (command : string) (batch : list string) (h : History) :
  sent_only command batch h -> command <> start_command service_name ->
  forall s, ~ start_failed_at service_name s h.
Proof.
  intros Hsent Hne s Hs. apply start_failed_calls in Hs.
  destruct (Hsent _ _ Hs) as [Hc _]. congruence.
Qed.

Lemma start_batch_cons (server : string) (batch : list string) :
  start_batch rem service_name (server :: batch)
  = (r <- (Connection rem server ;;
           result <- run_warn rem server (start_command service_name) ;;
           if negb (Result.return_code result =? 0)
           then print (StartFailed service_name server) ;; ret (Some false)
           else ret None) ;;
     match r with
     | Some v => ret (Some v)
     | None => start_batch rem service_name batch
     end).
Proof. reflexivity. Qed.

Lemma start_batch_spec (batch : list string) (h : History) :
  exists evs r,
    start_batch rem service_name batch h = (r, h ++ evs)
    /\ sent_only (start_command service_name) batch evs
    /\ (forall s, start_failed_at service_name s evs ->
          r = Ok (Some false)
          /\ last evs = Some (Printed (StartFailed service_name s))).
Proof.
  revert h. induction batch as [|server batch IH]; intros h.
  - exists [], (Ok None). rewrite app_nil_r.
    split; [reflexivity|]. split.
    + apply sent_only_nil.
    + intros s (rc & out & err & [] & _).
  - rewrite start_batch_cons. unfold bind at 1.
    destruct (connect_run_cases server (start_command service_name)
                (fun result =>
                   if negb (Result.return_code result =? 0)
                   then print (StartFailed service_name server) ;; ret (Some false)
                   else ret (None : option bool)) h)
      as [(e & Hc & Hn & Hsf & x & Hrun)|[(msg & Hr & Hrun)|(rc & out & err & Hc & Hr & Hrun)]].
    + rewrite Hrun. exists [e], (Raise x).
      split; [reflexivity|]. split.
      * intros s c Hin. rewrite Hc in Hin. destruct Hin.
      * intros s Hs. destruct (Hsf s Hs).
    + rewrite Hrun. eexists _, _. split; [reflexivity|]. split.
      * intros s c [Hin|[]]. injection Hin as <- <-. split; [reflexivity|now left].
      * intros s (rc & out & err & [Hin|[]] & _). discriminate Hin.
    + rewrite Hrun. cbn [Result.return_code].
      destruct (Z.eqb_spec rc 0) as [->|Hrc]; cbn [negb].
      * unfold ret at 1.
        destruct (IH (h ++ [Exec server (start_command service_name) (Ran 0 out err)]))
          as (evs & r & Hrest & Hsent & Hfail).
        rewrite Hrest.
        exists ([Exec server (start_command service_name) (Ran 0 out err)] ++ evs), r.
        split; [now rewrite <- app_assoc|]. split.
        -- intros s c Hin. rewrite calls_app in Hin. destruct Hin as [Hin|Hin].
           ++ injection Hin as <- <-. split; [reflexivity|now left].
           ++ destruct (Hsent s c Hin). split; [assumption|now right].
        -- intros s Hs. apply start_failed_at_app in Hs as [Hs|Hs].
           ++ destruct Hs as (rc & ? & ? & [Hin|[]] & Hrc). injection Hin as _ <- _ _.
              contradiction.
           ++ destruct (Hfail s Hs) as [-> Hlast]. split; [reflexivity|].
              rewrite last_app, Hlast. reflexivity.
      * unfold bind, print, emit, ret. cbn.
        exists [Exec server (start_command service_name) (Ran rc out err);
                Printed (StartFailed service_name server)], (Ok (Some false)).
        split; [now rewrite <- app_assoc|]. split.
        -- intros s c [Hin|[]]. injection Hin as <- <-. split; [reflexivity|now left].
        -- intros s (rc' & ? & ? & [Hin|[Hin|[]]] & _); [|discriminate Hin].
           injection Hin as <- _ _ _. split; reflexivity.
Qed.

Lemma health_check_batch_spec (batch : list string) (health_ok : bool) (h : History) :
  exists evs r,
    for_acc batch health_ok (fun health_ok server =>
      Connection rem server ;;
      result <- run_warn rem server (is_active_command service_name) ;;
      if negb (Result.return_code result =? 0)
      then print (HealthCheckFailed server) ;; ret false
      else ret health_ok) h = (r, h ++ evs)
    /\ sent_only (is_active_command service_name) batch evs.
Proof.
  revert health_ok h. induction batch as [|server batch IH]; intros health_ok h.
  - exists [], (Ok health_ok). rewrite app_nil_r.
    split; [reflexivity|apply sent_only_nil].
  - cbn [for_acc]. unfold bind at 1.
    destruct (connect_run_cases server (is_active_command service_name)
                (fun result =>
                   if negb (Result.return_code result =? 0)
                   then print (HealthCheckFailed server) ;; ret false
                   else ret health_ok) h)
      as [(e & Hc & Hn & Hsf & x & Hrun)|[(msg & Hr & Hrun)|(rc & out & err & Hc & Hr & Hrun)]].
    + rewrite Hrun. exists [e], (Raise x).
      split; [reflexivity|]. intros s c Hin. rewrite Hc in Hin. destruct Hin.
    + rewrite Hrun. eexists _, _. split; [reflexivity|].
      intros s c [Hin|[]]. injection Hin as <- <-. split; [reflexivity|now left].
    + rewrite Hrun. cbn [Result.return_code].
      remember (Exec server (is_active_command service_name) (Ran rc out err)) as e eqn:He.
      assert (Hstep : exists b logged,
                 (if negb (rc =? 0)
                  then print (HealthCheckFailed server) ;; ret false
                  else ret health_ok) (h ++ [e]) = (Ok b, (h ++ [e]) ++ logged)
                 /\ calls logged = []).
      { destruct (negb (rc =? 0)).
        - exists false, [Printed (HealthCheckFailed server)]. split; reflexivity.
        - exists health_ok, []. unfold ret. now rewrite app_nil_r. }
      destruct Hstep as (b & logged & Hstep & Hcl). rewrite Hstep.
      destruct (IH b ((h ++ [e]) ++ logged)) as (evs & r & Hrest & Hsent).
      rewrite Hrest. exists ([e] ++ logged ++ evs), r.
      split; [now rewrite <- !app_assoc|].
      intros s c Hin. rewrite !calls_app, Hcl in Hin. subst e.
      destruct Hin as [Hin|Hin].
      * injection Hin as <- <-. split; [reflexivity|now left].
      * destruct (Hsent s c Hin). split; [assumption|now right].
Qed.

Lemma silent_no_start (h : History) :
  calls h = [] -> forall s, ~ start_failed_at service_name s h.
Proof. intros Hc s Hs. apply start_failed_calls in Hs. rewrite Hc in Hs. destruct Hs. Qed.

Lemma silent_stops_logged (h : History) : calls h = [] -> stops_logged service_name h.
Proof.
  intros Hc s rc out err Hin _. apply exec_in_calls in Hin.
  rewrite Hc in Hin. destruct Hin.
Qed.

Lemma stops_logged_app (h1 h2 : History) :
  stops_logged service_name h1 -> stops_logged service_name h2 ->
  stops_logged service_name (h1 ++ h2).
Proof.
  intros H1 H2 s rc out err Hin Hrc. rewrite notices_app.
  apply in_or_app. apply in_app_or in Hin as [Hin|Hin]; [left|right]; eauto.
Qed.

Lemma other_command_stops_logged (command : string) (batch : list string) (h : History) :
  sent_only command batch h -> command <> stop_command service_name ->
  stops_logged service_name h.
Proof.
  intros Hsent Hne s rc out err Hin _. apply exec_in_calls in Hin.
  destruct (Hsent _ _ Hin) as [Hc _]. congruence.
Qed.

Lemma within_sent (command : string) (batch : list string) (h : History) :
  sent_only command batch h -> within batch h.
Proof. intros Hs s c Hin. now destruct (Hs s c Hin). Qed.

Lemma within_silent (batch : list string) (h : History) : calls h = [] -> within batch h.
Proof. intros Hc s c Hin. rewrite Hc in Hin. destruct Hin. Qed.

Lemma within_app (batch : list string) (h1 h2 : History) :
  within batch h1 -> within batch h2 -> within batch (h1 ++ h2).
Proof.
  intros H1 H2 s c Hin. rewrite calls_app in Hin.
  apply in_app_or in Hin as [Hin|Hin]; eauto.
Qed.

Lemma batch_body_spec (servers : list string) (batch_size i : Z) (h : History) :
  exists evs r,
    batch_body rem service_name servers batch_size i h = (r, h ++ evs)
    /\ within (slice servers i (i + batch_size)) evs
    /\ (forall s, start_failed_at service_name s evs ->
          r = Ok (Some false)
          /\ last evs = Some (Printed (StartFailed service_name s))
          /\ In s (slice servers i (i + batch_size)))
    /\ stops_logged service_name evs.
Proof.
  destruct (commands_differ service_name) as (Hd1 & Hd2 & Hd3).
  unfold batch_body. cbn zeta.
  set (batch := slice servers i (i + batch_size)).
  destruct (stop_batch_spec batch h) as (e1 & r1 & H1 & S1 & F1 & L1).
  unfold bind at 1. rewrite H1.
  destruct r1 as [o1|x1].
  2:{ exists e1, (Raise x1). split; [reflexivity|].
      split; [eapply within_sent, S1|]. split; [|exact L1].
      intros s Hs. destruct (F1 s Hs). }
  unfold bind at 1. rewrite sleep_ok by lia.
  destruct (start_batch_spec batch ((h ++ e1) ++ [Slept 5])) as (e2 & r2 & H2 & S2 & F2).
  unfold bind at 1. rewrite H2.
  assert (W12 : within batch (e1 ++ [Slept 5] ++ e2)).
  { apply within_app; [eapply within_sent, S1|].
    apply within_app; [now apply within_silent|eapply within_sent, S2]. }
  assert (L12 : stops_logged service_name (e1 ++ [Slept 5] ++ e2)).
  { apply stops_logged_app; [exact L1|].
    apply stops_logged_app; [now apply silent_stops_logged|].
    eapply other_command_stops_logged; [exact S2|congruence]. }
  assert (F12 : forall s, start_failed_at service_name s (e1 ++ [Slept 5] ++ e2) ->
                          r2 = Ok (Some false)
                          /\ last (e1 ++ [Slept 5] ++ e2)
                             = Some (Printed (StartFailed service_name s))
                          /\ In s batch).
  { intros s Hs. pose proof (start_failed_calls _ _ _ Hs) as Hin.
    apply W12 in Hin.
    apply start_failed_at_app in Hs as [Hs|Hs]; [destruct (F1 s Hs)|].
    apply start_failed_at_app in Hs as [Hs|Hs];
      [destruct (silent_no_start [Slept 5] eq_refl s Hs)|].
    destruct (F2 s Hs) as [-> Hlast]. split; [reflexivity|]. split; [|exact Hin].
    rewrite !last_app, Hlast. reflexivity. }
  destruct r2 as [[v|]|x2].
  - exists (e1 ++ [Slept 5] ++ e2), (Ok (Some v)).
    split; [now rewrite <- !app_assoc|]. split; [exact W12|]. split; [exact F12|exact L12].
  - unfold bind at 1. rewrite sleep_ok by lia.
    destruct (health_check_batch_spec batch true (((h ++ e1) ++ [Slept 5]) ++ e2 ++ [Slept 10]))
      as (e3 & r3 & H3 & S3).
    rewrite <- !app_assoc in H3 |- *.
    unfold bind at 1. unfold health_check_batch. rewrite H3.
    set (pre := e1 ++ [Slept 5] ++ e2) in *.
    assert (N3 : forall s, ~ start_failed_at service_name s ([Slept 10] ++ e3)).
    { intros s Hs. apply start_failed_at_app in Hs as [Hs|Hs].
      - exact (silent_no_start [Slept 10] eq_refl s Hs).
      - eapply other_command_is_no_start; [exact S3|congruence|exact Hs]. }
    assert (W3 : within batch ([Slept 10] ++ e3)).
    { apply within_app; [now apply within_silent|eapply within_sent, S3]. }
    assert (L3 : stops_logged service_name ([Slept 10] ++ e3)).
    { apply stops_logged_app; [now apply silent_stops_logged|].
      eapply other_command_stops_logged; [exact S3|congruence]. }
    assert (Hfin : forall tail (r : Res (option bool)),
               calls tail = [] ->
               within batch (pre ++ ([Slept 10] ++ e3) ++ tail)
               /\ (forall s, start_failed_at service_name s (pre ++ ([Slept 10] ++ e3) ++ tail) ->
                     r = Ok (Some false)
                     /\ last (pre ++ ([Slept 10] ++ e3) ++ tail)
                        = Some (Printed (StartFailed service_name s))
                     /\ In s batch)
               /\ stops_logged service_name (pre ++ ([Slept 10] ++ e3) ++ tail)).
    { intros tail r Ht. split; [|split].
      - apply within_app; [exact W12|]. apply within_app; [exact W3|now apply within_silent].
      - intros s Hs. exfalso.
        apply start_failed_at_app in Hs as [Hs|Hs]; [destruct (F12 s Hs) as [Hr _]; discriminate Hr|].
        apply start_failed_at_app in Hs as [Hs|Hs]; [exact (N3 s Hs)|].
        exact (silent_no_start tail Ht s Hs).
      - apply stops_logged_app; [exact L12|].
        apply stops_logged_app; [exact L3|now apply silent_stops_logged]. }
    destruct r3 as [[|]|x3]; cbn [negb].
    + destruct (Z.ltb_spec (i + batch_size) (Z.of_nat (length servers))).
      * unfold bind. rewrite sleep_ok by lia. cbn.
        exists (pre ++ ([Slept 10] ++ e3) ++ [Slept 30]), (Ok None).
        split; [hist_eq|]. now apply Hfin.
      * unfold bind, ret.
        exists (pre ++ ([Slept 10] ++ e3) ++ []), (Ok None).
        split; [hist_eq|]. now apply Hfin.
    + unfold bind, print, emit, ret.
      exists (pre ++ ([Slept 10] ++ e3) ++ [Printed RestartFailed]), (Ok (Some false)).
      split; [hist_eq|].
      destruct (Hfin [Printed RestartFailed] (Ok None) eq_refl) as (Hw & Hf & Hl).
      split; [exact Hw|]. split; [|exact Hl].
      intros s Hs. destruct (Hf s Hs) as [Hr _]. discriminate Hr.
    + exists (pre ++ ([Slept 10] ++ e3) ++ []), (Raise x3).
      split; [hist_eq|]. now apply Hfin.
  - exists (e1 ++ [Slept 5] ++ e2), (Raise x2).
    split; [now rewrite <- !app_assoc|]. split; [exact W12|]. split; [exact F12|exact L12].
Qed.

(** The batch loop: commands go to the batches that were entered, and a
    failed start is the last thing that happens. *)
Lemma batches_spec (servers : list string) (batch_size : Z) (indices : list Z) (h : History) :
  exists evs r entered rest,
    indices = entered ++ rest
    /\ for_each indices (batch_body rem service_name servers batch_size) h = (r, h ++ evs)
    /\ (forall s c, In (s, c) (calls evs) ->
          exists i, In i entered /\ In s (slice servers i (i + batch_size)))
    /\ (forall s, start_failed_at service_name s evs ->
          r = Ok (Some false)
          /\ last evs = Some (Printed (StartFailed service_name s))
          /\ exists i, last entered = Some i /\ In s (slice servers i (i + batch_size)))
    /\ stops_logged service_name evs.
Proof.
  revert h. induction indices as [|i indices IH]; intros h.
  - exists [], (Ok None), [], [].
    split; [reflexivity|]. split; [cbn; unfold ret; now rewrite app_nil_r|].
    split; [|split].
    + intros s c [].
    + intros s (rc & out & err & [] & _).
    + intros s rc out err [].
  - destruct (batch_body_spec servers batch_size i h) as (e1 & r1 & H1 & W1 & F1 & L1).
    cbn [for_each]. unfold bind at 1. rewrite H1.
    assert (Hstop : forall r : Res (option bool),
               (r1 = Ok None -> False) ->
               (forall s c, In (s, c) (calls e1) ->
                  exists i', In i' [i] /\ In s (slice servers i' (i' + batch_size)))
               /\ (forall s, start_failed_at service_name s e1 ->
                     r1 = Ok (Some false)
                     /\ last e1 = Some (Printed (StartFailed service_name s))
                     /\ exists i', last [i] = Some i'
                                   /\ In s (slice servers i' (i' + batch_size)))).
    { intros _ _. split.
      - intros s c Hin. exists i. split; [now left|exact (W1 s c Hin)].
      - intros s Hs. destruct (F1 s Hs) as (Hr & Hl & Hin).
        split; [exact Hr|]. split; [exact Hl|]. exists i. split; [reflexivity|exact Hin]. }
    destruct r1 as [[v|]|x].
    + exists e1, (Ok (Some v)), [i], indices.
      destruct (Hstop (Ok None)) as [Hw Hf]; [discriminate|].
      split; [reflexivity|]. split; [reflexivity|]. split; [exact Hw|]. split; [|exact L1].
      intros s Hs. destruct (Hf s Hs) as ([= ->] & Hl & Hi). auto.
    + destruct (IH (h ++ e1)) as (e2 & r2 & entered & rest & Heq & H2 & W2 & F2 & L2).
      exists (e1 ++ e2), r2, (i :: entered), rest.
      split; [now rewrite Heq|]. split; [now rewrite H2, <- app_assoc|].
      split; [|split].
      * intros s c Hin. rewrite calls_app in Hin. apply in_app_or in Hin as [Hin|Hin].
        -- exists i. split; [now left|exact (W1 s c Hin)].
        -- destruct (W2 s c Hin) as (i' & Hi' & Hs). exists i'. split; [now right|exact Hs].
      * intros s Hs. apply start_failed_at_app in Hs as [Hs|Hs].
        -- destruct (F1 s Hs) as [Hr _]. discriminate Hr.
        -- destruct (F2 s Hs) as (Hr & Hl & i' & Hi' & Hin).
           split; [exact Hr|]. split; [now rewrite last_app, Hl|].
           exists i'. split; [|exact Hin]. now rewrite last_cons, Hi'.
      * now apply stops_logged_app.
    + exists e1, (Raise x), [i], indices.
      destruct (Hstop (Ok None)) as [Hw Hf]; [discriminate|].
      split; [reflexivity|]. split; [reflexivity|]. split; [exact Hw|]. split; [|exact L1].
      intros s Hs. destruct (Hf s Hs) as (Hr & _). discriminate Hr.
Qed.
End Phases.

Lemma slice_positions {A : Type} (l : list A) (i n : Z) (x : A) :
  0 <= i -> 0 < n ->
  In x (slice l i (i + n)) <->
  exists p : nat, l !! p = Some x /\ i <= Z.of_nat p < i + n.
Proof.
  intros Hi Hn. unfold slice, slice_index.
  destruct (Z.ltb_spec i 0) as [?|_]; [lia|].
  destruct (Z.ltb_spec (i + n) 0) as [?|_]; [lia|].
  rewrite <- list_elem_of_In, list_elem_of_lookup.
  split.
  - intros [j Hj]. apply lookup_take_Some in Hj as [Hj Hlt].
    rewrite lookup_drop in Hj.
    exists (Z.to_nat (Z.min i (Z.of_nat (length l))) + j)%nat.
    split; [exact Hj|].
    apply lookup_lt_Some in Hj. lia.
  - intros (p & Hp & Hrange).
    pose proof (lookup_lt_Some _ _ _ Hp) as Hlen.
    exists (p - Z.to_nat i)%nat.
    apply lookup_take_Some. rewrite lookup_drop. split.
    + rewrite <- Hp. f_equal. lia.
    + lia.
Qed.

(** The indices of [range(0, n, step)] by position. *)
Lemma range_lookup (step : Z) (n b a : nat) (j : Z) :
  map (fun k : nat => 0 + Z.of_nat k * step) (seq b n) !! a = Some j ->
  j = Z.of_nat (b + a) * step /\ (a < n)%nat.
Proof.
  revert b a. induction n as [|n IH]; intros b a; cbn [seq map]; [discriminate|].
  destruct a as [|a]; cbn.
  - intros [= <-]. split; [f_equal; lia|lia].
  - intros Hj. apply IH in Hj as [-> Hlt]. split; [f_equal; lia|lia].
Qed.

Lemma entered_positions (step : Z) (n : nat) (entered rest : list Z) (i j : Z) :
  0 < step ->
  map (fun k : nat => 0 + Z.of_nat k * step) (seq 0 n) = entered ++ rest ->
  last entered = Some i -> In j entered ->
  0 <= j <= i /\ exists k : nat, i = Z.of_nat k * step.
Proof.
  intros Hstep Heq Hlast Hin.
  rewrite last_lookup in Hlast.
  apply list_elem_of_In, list_elem_of_lookup in Hin as [a Ha].
  pose proof (lookup_lt_Some _ _ _ Ha) as Hlt.
  pose proof (lookup_lt_Some _ _ _ Hlast) as Hlt'.
  rewrite <- (lookup_app_l entered rest) in Ha, Hlast by assumption.
  rewrite <- Heq in Ha, Hlast.
  apply range_lookup in Ha as [-> _]. apply range_lookup in Hlast as [-> _].
  split; [nia|]. eexists. reflexivity.
Qed.


Lemma run_succeeded_inv (r : RunResult) :
  run_succeeded r = true -> exists out err, r = Ran 0 out err.
Proof.
  destruct r as [rc out err|msg]; cbn; [|discriminate].
  intros Hrc. apply Z.eqb_eq in Hrc as ->. eauto.
Qed.

Lemma connect_run_ok {A : Type} (rem : Remote) (server command : string)
    (K : Result.t -> M A) (h : History) (rc : Z) (out err : string) :
  connect_error rem server = None ->
  respond rem h server command = Ran rc out err ->
  (Connection rem server ;; result <- run_warn rem server command ;; K result) h
  = K {| Result.return_code := rc; Result.stdout := out; Result.stderr := err |}
      (h ++ [Exec server command (Ran rc out err)]).
Proof.
  intros Hc Hr. unfold bind, Connection, run_warn. rewrite Hc. cbn. rewrite Hr. reflexivity.
Qed.

Section Benign.
Variable rem : Remote.
Variable service_name : string.
Variable servers : list string.
Hypothesis reachable : forall s, In s servers -> connect_error rem s = None.
Hypothesis stop_returns :
  forall h s, In s servers ->
    exists rc out err, respond rem h s (stop_command service_name) = Ran rc out err.
Hypothesis start_succeeds :
  forall h s, In s servers ->
    run_succeeded (respond rem h s (start_command service_name)) = true.
Hypothesis is_active_succeeds :
  forall h s, In s servers ->
    run_succeeded (respond rem h s (is_active_command service_name)) = true.

Lemma stop_batch_benign (batch : list string) (h : History) :
  incl batch servers ->
  exists evs,
    stop_batch rem service_name batch h = (Ok None, h ++ evs)
    /\ forall s, In s batch -> In (s, stop_command service_name) (calls evs).
Proof.
  revert h. induction batch as [|server batch IH]; intros h Hincl.
  - exists []. split; [cbn; unfold ret; now rewrite app_nil_r|]. intros s [].
  - destruct (stop_returns h server) as (rc & out & err & Hr); [apply Hincl; now left|].
    rewrite stop_batch_cons. unfold bind at 1.
    rewrite (connect_run_ok rem server _ _ h rc out err
               (reachable _ (Hincl _ (or_introl eq_refl))) Hr).
    cbn [Result.return_code].
    assert (Hlog : exists logged,
               ((if negb (rc =? 0) then print (StopFailed service_name server) else ret tt) ;;
                ret (None : option bool))
                 (h ++ [Exec server (stop_command service_name) (Ran rc out err)])
               = (Ok None, (h ++ [Exec server (stop_command service_name) (Ran rc out err)])
                           ++ logged)
               /\ calls logged = []).
    { destruct (negb (rc =? 0)).
      - exists [Printed (StopFailed service_name server)]. split; reflexivity.
      - exists []. split; [unfold bind, ret; now rewrite app_nil_r|reflexivity]. }
    destruct Hlog as (logged & -> & Hcl).
    destruct (IH ((h ++ [Exec server (stop_command service_name) (Ran rc out err)]) ++ logged))
      as (evs & Hrest & Hcalls); [intros x Hx; apply Hincl; now right|].
    rewrite Hrest.
    exists ([Exec server (stop_command service_name) (Ran rc out err)] ++ logged ++ evs).
    split; [now rewrite <- !app_assoc|].
    intros s Hs. rewrite !calls_app, Hcl. destruct Hs as [<-|Hs]; [now left|].
    right. now apply Hcalls.
Qed.

Lemma start_batch_benign (batch : list string) (h : History) :
  incl batch servers ->
  exists evs,
    start_batch rem service_name batch h = (Ok None, h ++ evs)
    /\ forall s, In s batch -> In (s, start_command service_name) (calls evs).
Proof.
  revert h. induction batch as [|server batch IH]; intros h Hincl.
  - exists []. split; [cbn; unfold ret; now rewrite app_nil_r|]. intros s [].
  - destruct (run_succeeded_inv _ (start_succeeds h server (Hincl _ (or_introl eq_refl))))
      as (out & err & Hr).
    rewrite start_batch_cons. unfold bind at 1.
    rewrite (connect_run_ok rem server _ _ h 0 out err
               (reachable _ (Hincl _ (or_introl eq_refl))) Hr).
    cbn [Result.return_code Z.eqb negb]. unfold ret at 1.
    destruct (IH (h ++ [Exec server (start_command service_name) (Ran 0 out err)]))
      as (evs & Hrest & Hcalls); [intros x Hx; apply Hincl; now right|].
    rewrite Hrest.
    exists ([Exec server (start_command service_name) (Ran 0 out err)] ++ evs).
    split; [now rewrite <- !app_assoc|].
    intros s Hs. rewrite !calls_app. destruct Hs as [<-|Hs]; [now left|].
    right. now apply Hcalls.
Qed.

Lemma health_check_batch_benign (batch : list string) (health_ok : bool) (h : History) :
  incl batch servers ->
  exists evs,
    for_acc batch health_ok (fun health_ok server =>
      Connection rem server ;;
      result <- run_warn rem server (is_active_command service_name) ;;
      if negb (Result.return_code result =? 0)
      then print (HealthCheckFailed server) ;; ret false
      else ret health_ok) h = (Ok health_ok, h ++ evs)
    /\ forall s, In s batch -> In (s, is_active_command service_name) (calls evs).
Proof.
  revert h. induction batch as [|server batch IH]; intros h Hincl.
  - exists []. split; [cbn; unfold ret; now rewrite app_nil_r|]. intros s [].
  - destruct (run_succeeded_inv _ (is_active_succeeds h server (Hincl _ (or_introl eq_refl))))
      as (out & err & Hr).
    cbn [for_acc]. unfold bind at 1.
    rewrite (connect_run_ok rem server _ _ h 0 out err
               (reachable _ (Hincl _ (or_introl eq_refl))) Hr).
    cbn [Result.return_code Z.eqb negb]. unfold ret at 1.
    destruct (IH (h ++ [Exec server (is_active_command service_name) (Ran 0 out err)]))
      as (evs & Hrest & Hcalls); [intros x Hx; apply Hincl; now right|].
    rewrite Hrest.
    exists ([Exec server (is_active_command service_name) (Ran 0 out err)] ++ evs).
    split; [now rewrite <- !app_assoc|].
    intros s Hs. rewrite !calls_app. destruct Hs as [<-|Hs]; [now left|].
    right. now apply Hcalls.
Qed.

Lemma restarted_app_l (s : string) (h1 h2 : History) :
  restarted service_name s h1 -> restarted service_name s (h1 ++ h2).
Proof.
  intros (H1 & H2 & H3). unfold restarted. rewrite calls_app.
  repeat split; apply in_or_app; now left.
Qed.

Lemma restarted_app_r (s : string) (h1 h2 : History) :
  restarted service_name s h2 -> restarted service_name s (h1 ++ h2).
Proof.
  intros (H1 & H2 & H3). unfold restarted. rewrite calls_app.
  repeat split; apply in_or_app; now right.
Qed.

Lemma batch_body_benign (batch_size i : Z) (h : History) :
  incl (slice servers i (i + batch_size)) servers ->
  exists evs,
    batch_body rem service_name servers batch_size i h = (Ok None, h ++ evs)
    /\ forall s, In s (slice servers i (i + batch_size)) -> restarted service_name s evs.
Proof.
  intros Hincl. unfold batch_body. cbn zeta.
  set (batch := slice servers i (i + batch_size)) in *.
  destruct (stop_batch_benign batch h Hincl) as (e1 & H1 & C1).
  unfold bind at 1. rewrite H1. unfold bind at 1. rewrite sleep_ok by lia.
  destruct (start_batch_benign batch ((h ++ e1) ++ [Slept 5]) Hincl) as (e2 & H2 & C2).
  unfold bind at 1. rewrite H2. unfold bind at 1. rewrite sleep_ok by lia.
  destruct (health_check_batch_benign batch true
              ((((h ++ e1) ++ [Slept 5]) ++ e2) ++ [Slept 10]) Hincl) as (e3 & H3 & C3).
  unfold bind at 1. unfold health_check_batch. rewrite H3. cbn [negb].
  assert (Hwait : exists tail,
             ((if i + batch_size <? Z.of_nat (length servers) then sleep 30 else ret tt) ;;
              ret (None : option bool))
               (((((h ++ e1) ++ [Slept 5]) ++ e2) ++ [Slept 10]) ++ e3)
             = (Ok None, (((((h ++ e1) ++ [Slept 5]) ++ e2) ++ [Slept 10]) ++ e3) ++ tail)).
  { destruct (i + batch_size <? Z.of_nat (length servers)).
    - exists [Slept 30]. unfold bind. rewrite sleep_ok by lia. reflexivity.
    - exists []. unfold bind, ret. now rewrite app_nil_r. }
  destruct Hwait as (tail & ->).
  exists (e1 ++ [Slept 5] ++ e2 ++ [Slept 10] ++ e3 ++ tail).
  split; [now rewrite <- !app_assoc|].
  intros s Hs. unfold restarted. rewrite !calls_app.
  split; [|split].
  - apply in_or_app. left. now apply C1.
  - apply in_or_app. right. apply in_or_app. right. apply in_or_app. left. now apply C2.
  - do 4 (apply in_or_app; right). apply in_or_app. left. now apply C3.
Qed.

Lemma batches_benign (batch_size : Z) (indices : list Z) (h : History) :
  (forall i, In i indices -> incl (slice servers i (i + batch_size)) servers) ->
  exists evs,
    for_each indices (batch_body rem service_name servers batch_size) h = (Ok None, h ++ evs)
    /\ forall i s, In i indices -> In s (slice servers i (i + batch_size)) ->
                   restarted service_name s evs.
Proof.
  revert h. induction indices as [|i indices IH]; intros h Hincl.
  - exists []. split; [cbn; unfold ret; now rewrite app_nil_r|]. intros i s [].
  - destruct (batch_body_benign batch_size i h) as (e1 & H1 & C1);
      [apply Hincl; now left|].
    destruct (IH (h ++ e1)) as (e2 & H2 & C2); [intros j Hj; apply Hincl; now right|].
    exists (e1 ++ e2). cbn [for_each]. unfold bind at 1. rewrite H1, H2.
    split; [now rewrite <- app_assoc|].
    intros j s [<-|Hj] Hs.
    + apply restarted_app_l. now apply C1.
    + apply restarted_app_r. now apply (C2 j).
Qed.
End Benign.

Lemma rolling_restart_unfold (rem : Remote) (service_name : string)
    (self : InfrastructureOrchestrator.t) (server_group : string) (g : ServerGroup.t)
    (batch_size : Z) (h : History) :
  server_groups self !! server_group = Some g ->
  0 < batch_size ->
  rolling_restart rem service_name self server_group batch_size h
  = (let (r, h') :=
       for_each (batch_indices (Z.of_nat (length (ServerGroup.servers g))) batch_size)
         (batch_body rem service_name (ServerGroup.servers g) batch_size) h in
     (match r with
      | Ok (Some v) => Ok v
      | Ok None => Ok true
      | Raise x => Raise x
      end, h')).
Proof.
  intros Hg Hbs. unfold rolling_restart, bind, group, lift, range3, batch_indices.
  rewrite Hg. cbn [ret].
  destruct (Z.eqb_spec batch_size 0) as [?|_]; [lia|].
  destruct (for_each _ _ h) as [[[v|]|x] h']; reflexivity.
Qed.

Lemma drop_positions {A : Type} (l : list A) (n : nat) (x : A) :
  In x (skipn n l) -> exists q : nat, l !! q = Some x /\ (n <= q)%nat.
Proof.
  intros Hin. apply list_elem_of_In, list_elem_of_lookup in Hin as [j Hj].
  rewrite lookup_drop in Hj. exists (n + j)%nat. split; [exact Hj|lia].
Qed.

Lemma batch_indices_lookup (n batch_size : Z) (entered rest : list Z) (i j : Z) :
  0 < batch_size ->
  batch_indices n batch_size = entered ++ rest ->
  last entered = Some i -> In j entered ->
  0 <= j <= i /\ exists k : nat, i = Z.of_nat k * batch_size.
Proof.
  intros Hbs Heq. unfold batch_indices in Heq.
  eapply entered_positions; eassumption.
Qed.

Lemma batch_indices_cover {A : Type} (l : list A) (batch_size : Z) (x : A) :
  0 < batch_size -> In x l ->
  exists i, In i (batch_indices (Z.of_nat (length l)) batch_size)
            /\ In x (slice l i (i + batch_size)).
Proof.
  intros Hbs Hin.
  apply list_elem_of_In, list_elem_of_lookup in Hin as [p Hp].
  pose proof (lookup_lt_Some _ _ _ Hp) as Hlt.
  exists (0 + Z.of_nat (Z.to_nat (Z.of_nat p / batch_size)) * batch_size).
  assert (Hk : 0 <= Z.of_nat p / batch_size) by (apply Z.div_pos; lia).
  pose proof (Z.mul_div_le (Z.of_nat p) batch_size Hbs) as Hle.
  pose proof (Z.mul_succ_div_gt (Z.of_nat p) batch_size Hbs) as Hgt.
  split.
  - unfold batch_indices.
    apply (in_map (fun k : nat => 0 + Z.of_nat k * batch_size)), in_seq. split; [lia|].
    unfold range_len.
    destruct (Z.ltb_spec 0 batch_size) as [_|?]; [|lia].
    destruct (Z.ltb_spec 0 (Z.of_nat (length l))) as [_|?]; [|lia].
    assert (Hdiv : Z.of_nat p / batch_size <= (Z.of_nat (length l) - 0 - 1) / batch_size)
      by (apply Z.div_le_mono; lia).
    lia.
  - apply slice_positions; [lia|exact Hbs|].
    exists p. split; [exact Hp|]. lia.
Qed.

Lemma batch_indices_incl {A : Type} (l : list A) (batch_size i : Z) :
  0 < batch_size ->
  In i (batch_indices (Z.of_nat (length l)) batch_size) ->
  incl (slice l i (i + batch_size)) l.
Proof.
  intros Hbs Hi x Hx. unfold batch_indices in Hi.
  apply in_map_iff in Hi as (k & <- & _).
  apply slice_positions in Hx as (p & Hp & _); [|lia|exact Hbs].
  apply list_elem_of_In. eapply list_elem_of_lookup_2, Hp.
Qed.

(** C7.  In a rolling restart with a positive batch size over distinct
    servers: when the start command exits non-zero on a target of batch [k],
    the restart returns [False], the report of that failed start is the last
    thing it does, and no command of any kind is ever sent to a target of a
    later batch.  A stop command that exits non-zero is only reported; when
    the servers are reachable, the stop commands return (with whatever exit
    status) and the start and health-check commands succeed, the restart
    returns [True] and every server is stopped, started and checked. *)
Theorem start_failure_aborts_the_rollout
    (rem : Remote) (service_name : string) (self : InfrastructureOrchestrator.t)
    (server_group : string) (g : ServerGroup.t) (batch_size : Z)
    (res : Res bool) (tr : History) :
  let servers := ServerGroup.servers g in
  server_groups self !! server_group = Some g ->
  0 < batch_size ->
  NoDup servers ->
  rolling_restart rem service_name self server_group batch_size [] = (res, tr) ->
  (forall s k,
      0 <= k ->
      In s (slice servers (k * batch_size) (k * batch_size + batch_size)) ->
      start_failed_at service_name s tr ->
      res = Ok false
      /\ last tr = Some (Printed (StartFailed service_name s))
      /\ forall s', In s' (skipn (Z.to_nat ((k + 1) * batch_size)) servers) ->
                    ~ In s' (contacted tr))
  /\ stops_logged service_name tr
  /\ ((forall s, In s servers -> connect_error rem s = None) ->
      (forall h s, In s servers ->
         exists rc out err, respond rem h s (stop_command service_name) = Ran rc out err) ->
      (forall h s, In s servers ->
         run_succeeded (respond rem h s (start_command service_name)) = true) ->
      (forall h s, In s servers ->
         run_succeeded (respond rem h s (is_active_command service_name)) = true) ->
      res = Ok true /\ forall s, In s servers -> restarted service_name s tr).
Proof.
  intros servers Hg Hbs Hnd Hrun.
  rewrite (rolling_restart_unfold _ _ _ _ g) in Hrun by assumption.
  fold servers in Hrun.
  split; [|split].
  - destruct (batches_spec rem service_name servers batch_size
                (batch_indices (Z.of_nat (length servers)) batch_size) [])
      as (evs & r & entered & rest & Heq & Hloop & W & F & _).
    rewrite Hloop in Hrun. cbn [app] in Hrun. injection Hrun as <- <-.
    intros s k Hk Hin Hfail.
    destruct (F s Hfail) as (-> & Hlast & i & Hi & Hsi).
    split; [reflexivity|]. split; [exact Hlast|].
    intros s' Hs' Hc.
    assert (Hii : In i entered) by (eapply last_Some_elem_of, list_elem_of_In in Hi; exact Hi).
    destruct (batch_indices_lookup _ _ _ _ i i Hbs Heq Hi Hii) as (Hi0 & k0 & Hk0).
    apply slice_positions in Hin as (p1 & Hp1 & Hr1); [|nia|exact Hbs].
    apply slice_positions in Hsi as (p2 & Hp2 & Hr2); [|lia|exact Hbs].
    pose proof (NoDup_lookup _ _ _ _ Hnd Hp1 Hp2) as <-.
    assert (Hkk : k = Z.of_nat k0) by nia.
    apply drop_positions in Hs' as (q & Hq & Hge).
    unfold contacted in Hc. apply in_map_iff in Hc as ([s'' c] & Hfst & Hc).
    cbn in Hfst. subst s''.
    destruct (W s' c Hc) as (j & Hj & Hsj).
    destruct (batch_indices_lookup _ _ _ _ i j Hbs Heq Hi Hj) as (Hj0 & _).
    apply slice_positions in Hsj as (q' & Hq' & Hr'); [|lia|exact Hbs].
    pose proof (NoDup_lookup _ _ _ _ Hnd Hq Hq') as <-.
    nia.
  - destruct (batches_spec rem service_name servers batch_size
                (batch_indices (Z.of_nat (length servers)) batch_size) [])
      as (evs & r & entered & rest & _ & Hloop & _ & _ & L).
    rewrite Hloop in Hrun. cbn [app] in Hrun. injection Hrun as _ <-. exact L.
  - intros Hreach Hstop Hstart Hactive.
    destruct (batches_benign rem service_name servers Hreach Hstop Hstart Hactive batch_size
                (batch_indices (Z.of_nat (length servers)) batch_size) [])
      as (evs & Hloop & Hall).
    { intros i Hi. now apply batch_indices_incl. }
    rewrite Hloop in Hrun. cbn [app] in Hrun. injection Hrun as <- <-.
    split; [reflexivity|].
    intros s Hs. destruct (batch_indices_cover servers batch_size s Hbs Hs) as (i & Hi & Hsi).
    exact (Hall i s Hi Hsi).
Qed.

Lemma start_failure_aborts_the_rollout_witness :
  (forall s k,
      0 <= k ->
      In s (slice Scenario.web_servers (k * 2) (k * 2 + 2)) ->
      start_failed_at "nginx" s Scenario.aborted_restart ->
      Ok false = Ok false
      /\ last Scenario.aborted_restart = Some (Printed (StartFailed "nginx" s))
      /\ forall s', In s' (skipn (Z.to_nat ((k + 1) * 2)) Scenario.web_servers) ->
                    ~ In s' (contacted Scenario.aborted_restart))
  /\ stops_logged "nginx" Scenario.aborted_restart
  /\ ((forall s, In s Scenario.web_servers ->
         connect_error Scenario.start_fails_on_b s = None) ->
      (forall h s, In s Scenario.web_servers ->
         exists rc out err,
           respond Scenario.start_fails_on_b h s (stop_command "nginx") = Ran rc out err) ->
      (forall h s, In s Scenario.web_servers ->
         run_succeeded (respond Scenario.start_fails_on_b h s (start_command "nginx")) = true) ->
      (forall h s, In s Scenario.web_servers ->
         run_succeeded (respond Scenario.start_fails_on_b h s (is_active_command "nginx"))
         = true) ->
      Ok false = Ok true
      /\ forall s, In s Scenario.web_servers -> restarted "nginx" s Scenario.aborted_restart).
Proof.
  refine (start_failure_aborts_the_rollout Scenario.start_fails_on_b "nginx"
            Scenario.inventory "web" (Scenario.make_group "web" Scenario.web_servers) 2
            (Ok false) Scenario.aborted_restart _ _ _ _).
  - reflexivity.
  - lia.
  - apply (bool_decide_unpack _). vm_compute. exact I.
  - reflexivity.
Defined.

(** Batches [[a, b], [c, d]], the start fails on b: the restart returns
    [False] and c and d never hear of it. *)
Example restart_aborts_in_the_first_batch :
  rolling_restart Scenario.start_fails_on_b "nginx" Scenario.inventory "web" 2 []
  = (Ok false, Scenario.aborted_restart)
  /\ start_failed_at "nginx" "b" Scenario.aborted_restart
  /\ contacted Scenario.aborted_restart = ["a"; "b"; "a"; "b"].
Proof.
  split; [reflexivity|]. split; [|reflexivity].
  exists 1, "", "failed". split; [|lia].
  right. right. right. right. now left.
Qed.

(** A failed stop on a is reported and the restart goes on to succeed. *)
Example failed_stop_does_not_abort :
  let run := rolling_restart Scenario.stop_fails_on_a "nginx" Scenario.inventory "web" 2 [] in
  fst run = Ok true
  /\ notices (snd run) = [StopFailed "nginx" "a"]
  /\ map fst (List.filter (fun '(_, c) => String.eqb c "sudo systemctl start nginx")
                (calls (snd run)))
     = Scenario.web_servers.
Proof. repeat split. Qed.

(** * Further properties *)

(** ** Substitution leaves alone what it has no token for *)

Lemma contains_cons (sub : string) (c : Ascii.ascii) (s : string) :
  contains sub (String c s) = false ->
  starts_with sub (String c s) = false /\ contains sub s = false.
Proof. cbn [contains]. intros Hc. now apply orb_false_elim in Hc. Qed.

Lemma replace_absent (s old new : string) :
  contains old s = false -> replace s old new = s.
Proof.
  unfold replace. induction s as [|c s IH]; intros Hc; [reflexivity|].
  apply contains_cons in Hc as [Hhead Htail].
  cbn [replace_from]. rewrite Hhead. f_equal. now apply IH.
Qed.

(** X1.  Bindings whose token does not occur in the command change nothing,
    whatever their values are. *)
Theorem substitute_variables_without_tokens
    {V : Type} `{Str V} (command : string) (variables : list (string * V)) :
  (forall var_name var_value,
      In (var_name, var_value) variables ->
      contains ("{" +:+ var_name +:+ "}") command = false) ->
  substitute_variables command variables = command.
Proof.
  induction variables as [|[var_name var_value] variables IH]; intros Habsent;
    [reflexivity|].
  rewrite substitute_variables_cons.
  rewrite replace_absent by (eapply Habsent; now left).
  apply IH. intros k v Hin. eapply Habsent. right. exact Hin.
Qed.

Lemma substitute_variables_without_tokens_witness :
  substitute_variables "uptime -p" [("svc", "nginx"); ("port", "80")] = "uptime -p".
Proof.
  refine (substitute_variables_without_tokens "uptime -p"
            [("svc", "nginx"); ("port", "80")] _).
  intros var_name var_value [Hin|[Hin|[]]]; injection Hin as <- _; reflexivity.
Defined.

(** ** Substitution on templates with tokens *)

Lemma append_assoc (s t u : string) : (s +:+ t) +:+ u = s +:+ t +:+ u.
Proof.
  induction s as [|c s IH]; [reflexivity|].
  rewrite !append_cons. f_equal. exact IH.
Qed.

Lemma starts_with_append (p y : string) : starts_with p (p +:+ y) = true.
Proof.
  induction p as [|c p IH]; [reflexivity|].
  rewrite append_cons. cbn [starts_with]. now rewrite Ascii.eqb_refl.
Qed.

(** A token can only start at an opening brace. *)
Lemma token_starts_at_a_brace (name s : string) :
  starts_with "{" s = false -> starts_with ("{" +:+ name +:+ "}") s = false.
Proof.
  assert (Htok : exists c, "{" +:+ name +:+ "}" = String c (name +:+ "}")
                           /\ "{" = String c "")
    by (eexists; split; reflexivity).
  destruct Htok as (c & -> & ->).
  destruct s as [|d s]; [reflexivity|]. cbn [starts_with].
  destruct (Ascii.eqb c d); [discriminate|reflexivity].
Qed.

Lemma brace_free_cons (c : Ascii.ascii) (s y : string) :
  brace_free (String c s) = true ->
  starts_with "{" (String c (s +:+ y)) = false /\ brace_free s = true.
Proof.
  unfold brace_free. intros Hb. apply negb_true_iff in Hb.
  apply contains_cons in Hb as [Hhead Htail].
  split; [|now rewrite Htail].
  assert (Hb : exists b, "{" = String b "") by (eexists; reflexivity).
  destruct Hb as [b Hb]. rewrite Hb in *. cbn [starts_with] in *.
  destruct (Ascii.eqb b c); [discriminate Hhead|reflexivity].
Qed.

(** Brace-free text in front of a template is copied as it is. *)
Lemma replace_after_text (name new x y : string) :
  brace_free x = true ->
  replace (x +:+ y) ("{" +:+ name +:+ "}") new
  = x +:+ replace y ("{" +:+ name +:+ "}") new.
Proof.
  unfold replace. induction x as [|c x IH]; intros Hb; [reflexivity|].
  apply (brace_free_cons c x y) in Hb as [Hhead Hb].
  apply (token_starts_at_a_brace name) in Hhead.
  rewrite (append_cons c x y), (append_cons c x).
  cbn [replace_from]. rewrite Hhead.
  f_equal. now apply IH.
Qed.

Lemma replace_from_skips (old new p y : string) :
  replace_from (String.length p) old new (p +:+ y) = replace_from 0 old new y.
Proof.
  induction p as [|c p IH]; [reflexivity|].
  rewrite append_cons. cbn [String.length replace_from]. exact IH.
Qed.

(** A token at the front of a template is replaced, and the scan goes on
    behind it. *)
Lemma replace_at_token (name new y : string) :
  replace (("{" +:+ name +:+ "}") +:+ y) ("{" +:+ name +:+ "}") new
  = new +:+ replace y ("{" +:+ name +:+ "}") new.
Proof.
  unfold replace.
  pose proof (starts_with_append ("{" +:+ name +:+ "}") y) as Hstart.
  assert (Htok : exists c, "{" +:+ name +:+ "}" = String c (name +:+ "}"))
    by (eexists; reflexivity).
  destruct Htok as [c Htok]. rewrite Htok in *.
  generalize dependent (name +:+ "}"). intros tail Hstart _.
  rewrite (append_cons c tail y) in Hstart |- *.
  cbn [replace_from]. rewrite Hstart.
  f_equal. cbn [String.length]. rewrite Nat.sub_succ, Nat.sub_0_r.
  apply replace_from_skips.
Qed.


Lemma no_closing_cons (c : Ascii.ascii) (s : string) :
  contains "}" (String c s) = false ->
  starts_with "}" (String c s) = false /\ contains "}" s = false.
Proof. apply contains_cons. Qed.

(** Between names without a closing brace, a token only matches the token of
    the same name. *)
Lemma name_match (a n rest : string) :
  contains "}" a = false -> contains "}" n = false ->
  starts_with (a +:+ "}") (n +:+ "}" +:+ rest) = true -> n = a.
Proof.
  revert n. induction a as [|c a IH]; intros n Ha Hn Hstart.
  - destruct n as [|d n]; [reflexivity|].
    apply no_closing_cons in Hn as [Hhead _].
    rewrite append_cons in Hstart.
    assert (Hb : exists b, "" +:+ "}" = String b "" /\ "}" = String b "")
      by (eexists; split; reflexivity).
    destruct Hb as (b & Hb1 & Hb2). rewrite Hb1 in Hstart. rewrite Hb2 in Hhead.
    cbn [starts_with] in Hstart, Hhead.
    destruct (Ascii.eqb b d); discriminate.
  - apply no_closing_cons in Ha as [Hhead Ha].
    destruct n as [|d n].
    + assert (Hb : exists b, "" +:+ "}" +:+ rest = String b rest /\ "}" = String b "")
        by (eexists; split; reflexivity).
      destruct Hb as (b & Hb1 & Hb2). rewrite Hb1 in Hstart. rewrite Hb2 in Hhead.
      rewrite append_cons in Hstart. cbn [starts_with] in Hstart, Hhead.
      rewrite Ascii.eqb_sym in Hhead.
      destruct (Ascii.eqb c b); discriminate.
    + apply no_closing_cons in Hn as [_ Hn].
      rewrite !append_cons in Hstart. cbn [starts_with] in Hstart.
      destruct (Ascii.eqb c d) eqn:Hcd; [|discriminate].
      apply Ascii.eqb_eq in Hcd as ->. f_equal. now apply IH.
Qed.

Lemma name_ok_parts (name : string) :
  name_ok name = true ->
  brace_free name = true /\ contains "}" name = false.
Proof.
  unfold name_ok. intros Hok. apply andb_true_iff in Hok as [Hopen Hclose].
  split; [exact Hopen|]. now apply negb_true_iff in Hclose.
Qed.

(** The token of another name is copied as it is. *)
Lemma replace_other_token (a n new rest : string) :
  name_ok a = true -> name_ok n = true -> n <> a ->
  replace (token n +:+ rest) (token a) new
  = token n +:+ replace rest (token a) new.
Proof.
  intros Ha Hn Hdiff.
  apply name_ok_parts in Ha as [_ Ha]. apply name_ok_parts in Hn as [Hopen Hn].
  assert (Hmiss : starts_with (a +:+ "}") (n +:+ "}" +:+ rest) = false).
  { destruct (starts_with (a +:+ "}") (n +:+ "}" +:+ rest)) eqn:Hstart;
      [|reflexivity].
    now apply name_match in Hstart. }
  assert (Hrest : replace (n +:+ "}" +:+ rest) (token a) new
                  = n +:+ "}" +:+ replace rest (token a) new).
  { unfold token. rewrite replace_after_text by exact Hopen. reflexivity. }
  unfold token in *.
  rewrite (append_assoc "{" (n +:+ "}") rest), (append_assoc n "}" rest).
  rewrite (append_assoc "{" (n +:+ "}")), (append_assoc n "}").
  assert (Hb : exists b, (forall s, "{" +:+ s = String b s))
    by (eexists; intros; reflexivity).
  destruct Hb as [b Hb]. rewrite !Hb in *.
  unfold replace in *. cbn [replace_from starts_with].
  rewrite Ascii.eqb_refl, Hmiss. f_equal. exact Hrest.
Qed.

(** One binding replaces every token of its name and nothing else; the value
    it puts in is not looked at. *)
Lemma replace_render (a new : string) (template : list Segment) :
  name_ok a = true -> well_formed template = true ->
  replace (render template) (token a) new = fill a new template.
Proof.
  intros Ha. induction template as [|segment rest IH]; intros Hwf;
    [reflexivity|].
  cbn [well_formed forallb] in Hwf. apply andb_true_iff in Hwf as [Hseg Hrest].
  specialize (IH Hrest).
  destruct segment as [text|n]; cbn [render fill segment_ok] in *.
  - unfold token. rewrite replace_after_text by exact Hseg.
    f_equal. exact IH.
  - destruct (String.eqb n a) eqn:Hna.
    + apply String.eqb_eq in Hna as ->.
      unfold token in *. rewrite replace_at_token. f_equal. exact IH.
    + apply String.eqb_neq in Hna.
      rewrite replace_other_token by assumption. f_equal. exact IH.
Qed.

Lemma render_app (t1 t2 : list Segment) :
  render (t1 ++ t2) = render t1 +:+ render t2.
Proof.
  induction t1 as [|[text|n] t1 IH]; [reflexivity| |];
    cbn [app render]; rewrite IH; now rewrite append_assoc.
Qed.

Lemma fill_render (a : string) (value template : list Segment) :
  fill a (render value) template = render (expand a value template).
Proof.
  induction template as [|[text|n] rest IH]; [reflexivity| |].
  - cbn [fill expand flat_map app render]. f_equal. exact IH.
  - cbn [fill expand flat_map]. fold (expand a value rest).
    rewrite render_app, IH.
    destruct (String.eqb n a); [reflexivity|].
    cbn [render]. now rewrite append_empty_r.
Qed.

Lemma expand_well_formed (a : string) (value template : list Segment) :
  well_formed value = true -> well_formed template = true ->
  well_formed (expand a value template) = true.
Proof.
  intros Hvalue. induction template as [|segment rest IH]; intros Hwf;
    [reflexivity|].
  cbn [well_formed forallb] in Hwf. apply andb_true_iff in Hwf as [Hseg Hrest].
  cbn [expand flat_map]. fold (expand a value rest).
  unfold well_formed. rewrite forallb_app. apply andb_true_iff.
  split; [|now apply IH].
  destruct segment as [text|n].
  - cbn [forallb]. now rewrite Hseg.
  - destruct (String.eqb n a); [exact Hvalue|].
    cbn [forallb]. now rewrite Hseg.
Qed.

Lemma expand_all_well_formed (bindings : Bindings) (template : list Segment) :
  bindings_ok bindings = true -> well_formed template = true ->
  well_formed (expand_all bindings template) = true.
Proof.
  revert template.
  induction bindings as [|[a value] bindings IH]; intros template Hok Hwf;
    [exact Hwf|].
  cbn [bindings_ok forallb fst snd] in Hok.
  apply andb_true_iff in Hok as [Hbinding Hok].
  apply andb_true_iff in Hbinding as [_ Hvalue].
  cbn [expand_all fold_left fst snd]. apply IH; [exact Hok|].
  now apply expand_well_formed.
Qed.

(** Bindings with template values act on the tokens of the template, one
    binding after the other. *)
Lemma substitute_variables_render (bindings : Bindings) (template : list Segment) :
  bindings_ok bindings = true -> well_formed template = true ->
  substitute_variables (render template) (variables_of bindings)
  = render (expand_all bindings template).
Proof.
  revert template.
  induction bindings as [|[a value] bindings IH]; intros template Hok Hwf;
    [reflexivity|].
  cbn [bindings_ok forallb fst snd] in Hok.
  apply andb_true_iff in Hok as [Hbinding Hok].
  apply andb_true_iff in Hbinding as [Ha Hvalue].
  cbn [variables_of map fst snd]. rewrite substitute_variables_cons.
  change (str (render value)) with (render value).
  fold (token a). rewrite replace_render by assumption.
  rewrite fill_render. fold (variables_of bindings).
  rewrite IH; [reflexivity|exact Hok|now apply expand_well_formed].
Qed.

(** C9.  Substitution goes through the bindings one at a time, in their
    order.  An empty map leaves every command as it is.  For every command
    template whose opening braces all belong to tokens with brace-free names,
    and every list of bindings with brace-free names whose values are such
    templates themselves, the bindings act on the tokens of the template one
    after the other, each on the outcome of the ones before it: the tokens a
    value brings in are rewritten by the bindings that come later, and by
    none that came before.  A last binding, whose value may be any string,
    replaces every token of its name in that outcome, and what its value
    holds stays as it is. *)
Theorem substitute_variables_is_sequential
    (template : list Segment) (bindings : Bindings) (name value : string) :
  well_formed template = true ->
  bindings_ok bindings = true ->
  name_ok name = true ->
  (forall command : string,
      substitute_variables command ([] : list (string * string)) = command)
  /\ substitute_variables (render template) (variables_of bindings)
     = render (expand_all bindings template)
  /\ substitute_variables (render template)
       (variables_of bindings ++ [(name, value)])
     = fill name value (expand_all bindings template).
Proof.
  intros Hwf Hok Hname.
  split; [exact substitute_variables_nil|].
  split; [now apply substitute_variables_render|].
  rewrite substitute_variables_app, substitute_variables_render by assumption.
  rewrite substitute_variables_cons, substitute_variables_nil.
  change (str value) with value. fold (token name).
  apply replace_render; [exact Hname|].
  now apply expand_all_well_formed.
Qed.

Lemma substitute_variables_is_sequential_witness :
  (forall command : string,
      substitute_variables command ([] : list (string * string)) = command)
  /\ substitute_variables "deploy {app} to {env} as {app}"
       [("app", "{env}-svc")]
     = "deploy {env}-svc to {env} as {env}-svc"
  /\ substitute_variables "deploy {app} to {env} as {app}"
       [("app", "{env}-svc"); ("env", "prod {app}")]
     = "deploy prod {app}-svc to prod {app} as prod {app}-svc".
Proof.
  refine (substitute_variables_is_sequential
            [Text "deploy "; Token "app"; Text " to "; Token "env";
             Text " as "; Token "app"]
            [("app", [Token "env"; Text "-svc"])]
            "env" "prod {app}" _ _ _).
  - reflexivity.
  - reflexivity.
  - reflexivity.
Defined.

(** ** The worker in general *)

Section AttemptsInGeneral.
Context {V : Type} `{Str V}.
Variable rem : Remote.
Variable task : Task.t.
Variable server command : string.


Hypothesis delay_ok : 0 <= Task.delay task.


End AttemptsInGeneral.



(** The flaky target: one failed call, one retry, success on attempt 2 of a
    possible 4. *)
Example flaky_target_succeeds_on_the_second_attempt :
  execute_on_server Scenario.flaky (Scenario.make_task "uptime" 3 1)
    ([] : list (string * string)) "a" []
  = (Ok (Some (Success "a" "ok" 2)),
     [Exec "a" "uptime" (Raised "connection reset");
      Printed (ExceptionNotice "a" 1 "connection reset");
      Slept 1;
      Exec "a" "uptime" (Ran 0 "ok" "")]).
Proof. reflexivity. Qed.

(** ** Failing calls and the outer handler *)




(** The target on which every call times out: three calls, then ['error']. *)
Example unreachable_host_is_retried :
  execute_on_server (Scenario.always (Raised "timed out"))
    (Scenario.make_task "uptime" 2 0) ([] : list (string * string)) "a" []
  = (Ok (Some (Error "a" "timed out" 3)),
     [Exec "a" "uptime" (Raised "timed out");
      Printed (ExceptionNotice "a" 1 "timed out");
      Slept 0;
      Exec "a" "uptime" (Raised "timed out");
      Printed (ExceptionNotice "a" 2 "timed out");
      Slept 0;
      Exec "a" "uptime" (Raised "timed out")]).
Proof. reflexivity. Qed.

(** ** A delay that [time.sleep] rejects *)

(** X3.  With a negative delay the first unsuccessful call that would be retried
    ends the worker: the [ValueError] of [time.sleep] leaves the retry
    handler and reaches the outer handler, so after that single call the
    outcome is a ['connection_error'] carrying the message of [time.sleep]. *)
Theorem negative_delay_ends_in_connection_error
    {V : Type} `{Str V} (rem : Remote) (task : Task.t)
    (variables : list (string * V)) (server : string) :
  let command := substitute_variables (Task.command task) variables in
  0 < Task.retries task ->
  Task.delay task < 0 ->
  connect_error rem server = None ->
  run_succeeded (respond rem [] server command) = false ->
  exists tr,
    execute_on_server rem task variables server []
    = (Ok (Some (ConnectionError server "sleep length must be non-negative")), tr)
    /\ calls tr = [(server, command)].
Proof.
  intros command Hr Hd Hc Hbad.
  rewrite execute_on_server_connected by exact Hc.
  rewrite range1_succ by lia.
  change (seq 0 (S (Z.to_nat (Task.retries task))))
    with (0%nat :: seq 1 (Z.to_nat (Task.retries task))).
  cbn [map for_each]. fold command.
  unfold try_except, bind, attempt_body, try_except, bind, run_warn, print, emit, sleep.
  destruct (Z.ltb_spec (Task.delay task) 0) as [_|?]; [|lia].
  destruct (Z.ltb_spec (Z.of_nat 0) (Task.retries task)) as [_|?]; [|lia].
  destruct (respond rem [] server command) as [rc out err|msg]; cbn in *.
  - rewrite Hbad. cbn. eexists. split; reflexivity.
  - eexists. split; reflexivity.
Qed.

Lemma negative_delay_ends_in_connection_error_witness :
  exists tr,
    execute_on_server (Scenario.always (Ran 1 "" "busy")) (Scenario.make_task "uptime" 2 (-1))
      ([] : list (string * string)) "a" []
    = (Ok (Some (ConnectionError "a" "sleep length must be non-negative")), tr)
    /\ calls tr = [("a", "uptime")].
Proof.
  refine (negative_delay_ends_in_connection_error (Scenario.always (Ran 1 "" "busy"))
            (Scenario.make_task "uptime" 2 (-1)) ([] : list (string * string)) "a" _ _ _ _).
  - cbn. lia.
  - cbn. lia.
  - reflexivity.
  - reflexivity.
Defined.

(** ** A retry count below zero *)

Section NegativeRetries.
Context {V : Type} `{Str V}.
Variable rem : Remote.
Variable task : Task.t.
Variable variables : list (string * V).

Lemma execute_on_server_without_attempts (server : string) (h : History) :
  Task.retries task < 0 ->
  connect_error rem server = None ->
  execute_on_server rem task variables server h = (Ok None, h).
Proof.
  intros Hr Hc. rewrite execute_on_server_connected by exact Hc.
  unfold range1. replace (Z.to_nat (Task.retries task + 1)) with 0%nat by lia.
  reflexivity.
Qed.

(** The worker turns every exception into an outcome. *)
Lemma submit_never_raises (server : string) :
  exists x, submit rem task variables server = Ok x.
Proof.
  unfold submit, execute_on_server, try_except.
  destruct ((Connection rem server;; _) []) as [[x|e] h']; cbn; eauto.
Qed.

Lemma collect_meets_none (futures : list (Res (option Outcome))) (results : list Outcome) :
  Forall (fun f => exists x, f = Ok x) futures ->
  In (Ok None) futures ->
  collect futures results = Raise (TypeError "'NoneType' object is not subscriptable").
Proof.
  intros Hall. revert results.
  induction Hall as [|f futures [[o|] ->] _ IH]; intros results Hin.
  - destruct Hin.
  - cbn. apply IH. destruct Hin as [Hin|Hin]; [discriminate Hin|exact Hin].
  - reflexivity.
Qed.

End NegativeRetries.

(** X4.  With [retries < 0] the attempt loop is empty and a worker that reaches
    its target returns [None]; the collecting loop then fails on
    [result['status']].  So as soon as one target is reachable the whole call
    raises [TypeError], in every completion order, and no outcome of any
    target is returned. *)
Theorem negative_retries_raise_type_error
    {V : Type} `{Str V}
    (as_completed : forall A : Type, list A -> list A)
    (rem : Remote) (task : Task.t) (variables : list (string * V))
    (servers : list string) (server : string) :
  (forall (A : Type) (l : list A), Permutation (as_completed A l) l) ->
  Task.retries task < 0 ->
  In server servers ->
  connect_error rem server = None ->
  execute_task_on_servers rem task variables as_completed servers
  = Raise (TypeError "'NoneType' object is not subscriptable").
Proof.
  intros Hperm Hr Hin Hc. unfold execute_task_on_servers.
  apply collect_meets_none.
  - eapply Permutation_Forall; [symmetry; apply Hperm|].
    apply Forall_map, Forall_forall. intros s _. apply submit_never_raises.
  - eapply Permutation_in; [symmetry; apply Hperm|].
    apply in_map_iff. exists server. split; [|exact Hin].
    unfold submit. now rewrite execute_on_server_without_attempts.
Qed.

Lemma negative_retries_raise_type_error_witness :
  execute_task_on_servers (Scenario.unreachable "c") (Scenario.make_task "uptime" (-1) 0)
    ([] : list (string * string)) (fun _ l => rev l) ["c"; "d"]
  = Raise (TypeError "'NoneType' object is not subscriptable").
Proof.
  refine (negative_retries_raise_type_error (fun _ l => rev l) (Scenario.unreachable "c")
            (Scenario.make_task "uptime" (-1) 0) ([] : list (string * string))
            ["c"; "d"] "d" _ _ _ _).
  - intros A l. symmetry. apply Permutation_rev.
  - cbn. lia.
  - right. now left.
  - reflexivity.
Defined.

(** ** The batches of a rolling restart *)

Lemma slice_take_drop {A : Type} (l : list A) (i n : Z) :
  0 <= i -> 0 < n ->
  slice l i (i + n) = firstn (Z.to_nat n) (skipn (Z.to_nat i) l).
Proof.
  intros Hi Hn. unfold slice, slice_index.
  destruct (Z.ltb_spec i 0) as [?|_]; [lia|].
  destruct (Z.ltb_spec (i + n) 0) as [?|_]; [lia|].
  destruct (Z_le_gt_dec (Z.of_nat (length l)) i) as [Hout|Hin].
  - rewrite !Z.min_r by lia.
    replace (Z.to_nat (Z.of_nat (length l) - Z.of_nat (length l))) with 0%nat by lia.
    rewrite !skipn_all2 by lia. now rewrite !firstn_nil.
  - rewrite (Z.min_l i) by lia.
    destruct (Z_le_gt_dec (i + n) (Z.of_nat (length l))) as [Hfull|Hshort].
    + rewrite Z.min_l by lia. f_equal. lia.
    + rewrite Z.min_r by lia.
      rewrite !firstn_all2; [reflexivity| |]; rewrite length_skipn; lia.
Qed.

Lemma batches_up_to {A : Type} (l : list A) (batch_size : Z) (m : nat) :
  0 < batch_size ->
  concat (map (fun k : nat => slice l (0 + Z.of_nat k * batch_size)
                                 (0 + Z.of_nat k * batch_size + batch_size))
              (seq 0 m))
  = firstn (m * Z.to_nat batch_size) l.
Proof.
  intros Hbs. induction m as [|m IH]; [reflexivity|].
  rewrite seq_S, map_app, concat_app, IH. cbn [map concat Nat.add].
  rewrite app_nil_r, slice_take_drop by lia.
  replace (Z.to_nat (0 + Z.of_nat m * batch_size)) with (m * Z.to_nat batch_size)%nat by lia.
  replace (S m * Z.to_nat batch_size)%nat
    with (m * Z.to_nat batch_size + Z.to_nat batch_size)%nat by lia.
  apply take_take_drop.
Qed.

(** X5.  For a positive batch size the indices of [range(0, len(servers),
    batch_size)] cut the server list into consecutive batches: put end to
    end they give back the list, and every batch is non-empty and has at most
    [batch_size] members. *)
Theorem batches_partition_the_servers (servers : list string) (batch_size : Z) :
  0 < batch_size ->
  let indices := batch_indices (Z.of_nat (length servers)) batch_size in
  range3 0 (Z.of_nat (length servers)) batch_size = Ok indices
  /\ concat (map (fun i => slice servers i (i + batch_size)) indices) = servers
  /\ Forall (fun i => slice servers i (i + batch_size) <> []
                      /\ Z.of_nat (length (slice servers i (i + batch_size))) <= batch_size)
            indices.
Proof.
  intros Hbs indices. subst indices. split; [|split].
  - unfold range3. destruct (Z.eqb_spec batch_size 0) as [?|_]; [lia|reflexivity].
  - unfold batch_indices. rewrite map_map, batches_up_to by exact Hbs.
    apply firstn_all2. unfold range_len.
    destruct (Z.ltb_spec 0 batch_size) as [_|?]; [|lia].
    destruct (Z.ltb_spec 0 (Z.of_nat (length servers))) as [Hpos|Hzero]; [|lia].
    pose proof (Z.mul_succ_div_gt (Z.of_nat (length servers) - 0 - 1) batch_size Hbs).
    assert (0 <= (Z.of_nat (length servers) - 0 - 1) / batch_size)
      by (apply Z.div_pos; lia).
    nia.
  - apply List.Forall_forall. intros i Hi. unfold batch_indices in Hi.
    apply in_map_iff in Hi as (k & <- & Hk). apply in_seq in Hk.
    rewrite slice_take_drop by lia.
    unfold range_len in Hk.
    destruct (Z.ltb_spec 0 batch_size) as [_|?]; [|lia].
    destruct (Z.ltb_spec 0 (Z.of_nat (length servers))) as [Hpos|Hzero]; [|lia].
    assert (Hdiv : 0 <= (Z.of_nat (length servers) - 0 - 1) / batch_size)
      by (apply Z.div_pos; lia).
    pose proof (Z.mul_div_le (Z.of_nat (length servers) - 0 - 1) batch_size Hbs) as Hle.
    assert (Hlt : 0 + Z.of_nat k * batch_size < Z.of_nat (length servers)) by nia.
    split.
    + intros Hnil. apply (f_equal (@length string)) in Hnil.
      rewrite length_firstn, length_skipn in Hnil. cbn in Hnil. lia.
    + rewrite length_firstn. lia.
Qed.

Lemma batches_partition_the_servers_witness :
  range3 0 (Z.of_nat (length ["a"; "b"; "c"; "d"; "e"])) 2
  = Ok (batch_indices (Z.of_nat (length ["a"; "b"; "c"; "d"; "e"])) 2)
  /\ concat (map (fun i => slice ["a"; "b"; "c"; "d"; "e"] i (i + 2))
               (batch_indices (Z.of_nat (length ["a"; "b"; "c"; "d"; "e"])) 2))
     = ["a"; "b"; "c"; "d"; "e"]
  /\ Forall (fun i => slice ["a"; "b"; "c"; "d"; "e"] i (i + 2) <> []
                      /\ Z.of_nat (length (slice ["a"; "b"; "c"; "d"; "e"] i (i + 2))) <= 2)
            (batch_indices (Z.of_nat (length ["a"; "b"; "c"; "d"; "e"])) 2).
Proof.
  refine (batches_partition_the_servers ["a"; "b"; "c"; "d"; "e"] 2 _). lia.
Defined.

Example five_servers_in_batches_of_two :
  map (fun i => slice ["a"; "b"; "c"; "d"; "e"] i (i + 2)) (batch_indices 5 2)
  = [["a"; "b"]; ["c"; "d"]; ["e"]].
Proof. reflexivity. Qed.

(** ** Groups that are not in the inventory *)

(** X6.  Naming a group the inventory does not have is a [KeyError] for that
    name, raised before any server is contacted: in a rolling restart, in a
    health check, in a failover (whichever of its two groups is the unknown
    one) and in a playbook whose hosts are not ['all']. *)
Theorem unknown_group_is_a_key_error
    {V : Type} `{Str V} (rem : Remote)
    (as_completed : forall A : Type, list A -> list A)
    (self : InfrastructureOrchestrator.t) (group_name : string) (h : History) :
  server_groups self !! group_name = None ->
  (forall service_name batch_size,
      rolling_restart rem service_name self group_name batch_size h
      = (Raise (KeyError group_name), h))
  /\ check_group_health rem self group_name h = (Raise (KeyError group_name), h)
  /\ (forall backup_group,
        disaster_recovery rem self group_name backup_group h
        = (Raise (KeyError group_name), h))
  /\ (forall primary_group primary,
        server_groups self !! primary_group = Some primary ->
        disaster_recovery rem self primary_group group_name h
        = (Raise (KeyError group_name), h))
  /\ (forall playbook : Playbook.t V,
        Playbook.hosts playbook = group_name ->
        group_name <> "all" ->
        run_playbook rem as_completed self playbook = Raise (KeyError group_name)).
Proof.
  intros Hnone. split; [|split; [|split; [|split]]].
  - intros service_name batch_size. unfold rolling_restart, bind, group.
    now rewrite Hnone.
  - unfold check_group_health, bind, group. now rewrite Hnone.
  - intros backup_group. unfold disaster_recovery, bind, group. now rewrite Hnone.
  - intros primary_group primary Hp. unfold disaster_recovery, bind, group.
    now rewrite Hp, Hnone.
  - intros playbook Hhosts Hall. unfold run_playbook, target_servers.
    rewrite Hhosts. apply String.eqb_neq in Hall. now rewrite Hall, Hnone.
Qed.

Lemma unknown_group_is_a_key_error_witness :
  (forall service_name batch_size,
      rolling_restart Scenario.healthy service_name Scenario.inventory "cache" batch_size []
      = (Raise (KeyError "cache"), []))
  /\ check_group_health Scenario.healthy Scenario.inventory "cache" []
     = (Raise (KeyError "cache"), [])
  /\ (forall backup_group,
        disaster_recovery Scenario.healthy Scenario.inventory "cache" backup_group []
        = (Raise (KeyError "cache"), []))
  /\ (forall primary_group primary,
        server_groups Scenario.inventory !! primary_group = Some primary ->
        disaster_recovery Scenario.healthy Scenario.inventory primary_group "cache" []
        = (Raise (KeyError "cache"), []))
  /\ (forall playbook : Playbook.t string,
        Playbook.hosts playbook = "cache" ->
        "cache" <> "all" ->
        run_playbook Scenario.healthy (fun _ l => l) Scenario.inventory playbook
        = Raise (KeyError "cache")).
Proof.
  refine (unknown_group_is_a_key_error Scenario.healthy (fun _ l => l)
            Scenario.inventory "cache" [] _).
  reflexivity.
Defined.

(** ** More on the health of a group *)

Lemma count_true_all (l : list bool) :
  Forall (fun b => b = true) l -> Spec.count_true l = Z.of_nat (length l).
Proof.
  unfold Spec.count_true. induction 1 as [|b l -> _ IH]; [reflexivity|].
  cbn [List.filter length]. lia.
Qed.

Lemma count_true_some_false (l : list bool) :
  In false l -> Spec.count_true l <= Z.of_nat (length l) - 1.
Proof.
  unfold Spec.count_true. induction l as [|b l IH]; intros Hin; [destruct Hin|].
  destruct b; cbn [List.filter length].
  - destruct Hin as [Hin|Hin]; [discriminate Hin|]. specialize (IH Hin). lia.
  - pose proof (List.filter_length_le (fun b : bool => b) l). lia.
Qed.

(** X7.  On a known, non-empty group: if every probe is good the group is judged
    healthy; and since a group needs 80% of good probes, in a group of fewer
    than five servers a single bad probe makes the judgment [False]. *)
Theorem small_groups_need_every_server
    (rem : Remote) (self : InfrastructureOrchestrator.t)
    (group_name : string) (g : ServerGroup.t) (h : History) :
  server_groups self !! group_name = Some g ->
  ServerGroup.servers g <> [] ->
  exists b tr,
    check_group_health rem self group_name h = (Ok b, h ++ tr)
    /\ length (probe_results tr) = length (ServerGroup.servers g)
    /\ (Forall (fun p => p = true) (probe_results tr) -> b = true)
    /\ ((length (ServerGroup.servers g) < 5)%nat ->
        In false (probe_results tr) -> b = false).
Proof.
  intros Hg Hne.
  destruct (check_group_health_spec rem self group_name g h Hg Hne)
    as (tr & Hrun & Hs & _).
  assert (Hlen : length (probe_results tr) = length (ServerGroup.servers g)).
  { rewrite probe_results_length, <- Hs. now rewrite length_map. }
  assert (Hp : probe_results tr <> []).
  { intros E. rewrite E in Hlen. destruct (ServerGroup.servers g); [congruence|discriminate]. }
  destruct (judged_assess _ Hp) as [_ Hiff].
  exists (judged (probe_results tr)), tr.
  split; [exact Hrun|]. split; [exact Hlen|]. split.
  - intros Hall. apply Hiff. rewrite (count_true_all _ Hall). lia.
  - intros Hsmall Hbad. apply not_true_is_false. intros Hj. apply Hiff in Hj.
    pose proof (count_true_some_false _ Hbad). lia.
Qed.

Lemma small_groups_need_every_server_witness :
  exists b tr,
    check_group_health (Scenario.unreachable "c") Scenario.inventory "web" [] = (Ok b, [] ++ tr)
    /\ length (probe_results tr)
       = length (ServerGroup.servers (Scenario.make_group "web" Scenario.web_servers))
    /\ (Forall (fun p => p = true) (probe_results tr) -> b = true)
    /\ ((length (ServerGroup.servers (Scenario.make_group "web" Scenario.web_servers)) < 5)%nat ->
        In false (probe_results tr) -> b = false).
Proof.
  refine (small_groups_need_every_server (Scenario.unreachable "c") Scenario.inventory
            "web" (Scenario.make_group "web" Scenario.web_servers) [] _ _).
  - reflexivity.
  - discriminate.
Defined.

(** X8.  Whatever the group (empty or not) and whatever the servers answer, a
    health check only ever sends [uptime], once to every server of the group
    whose connection opens, in the order of the group; and it raises
    [ZeroDivisionError] exactly when the group has no servers. *)
Theorem health_check_only_runs_uptime
    (rem : Remote) (self : InfrastructureOrchestrator.t)
    (group_name : string) (g : ServerGroup.t) (h : History) :
  server_groups self !! group_name = Some g ->
  exists tr,
    snd (check_group_health rem self group_name h) = h ++ tr
    /\ calls tr = map (fun s => (s, "uptime")) (reachable_servers rem (ServerGroup.servers g))
    /\ (fst (check_group_health rem self group_name h) = Raise ZeroDivisionError
        <-> ServerGroup.servers g = []).
Proof.
  intros Hg.
  destruct (probing_spec rem (ServerGroup.servers g) 0 h) as (tr & Hloop & _ & Hc).
  exists tr. unfold check_group_health, group, bind. rewrite Hg. cbn. rewrite Hloop.
  destruct (Z.eqb_spec (Z.of_nat (length (ServerGroup.servers g))) 0) as [H0|Hn0]; cbn.
  - split; [reflexivity|]. split; [exact Hc|].
    split; [intros _|reflexivity].
    destruct (ServerGroup.servers g); [reflexivity|cbn in H0; lia].
  - split; [reflexivity|]. split; [exact Hc|].
    split; [discriminate|]. intros E. rewrite E in Hn0. cbn in Hn0. lia.
Qed.

Lemma health_check_only_runs_uptime_witness :
  exists tr,
    snd (check_group_health (Scenario.unreachable "c") Scenario.inventory "web" []) = [] ++ tr
    /\ calls tr
       = map (fun s => (s, "uptime"))
           (reachable_servers (Scenario.unreachable "c")
              (ServerGroup.servers (Scenario.make_group "web" Scenario.web_servers)))
    /\ (fst (check_group_health (Scenario.unreachable "c") Scenario.inventory "web" [])
        = Raise ZeroDivisionError
        <-> ServerGroup.servers (Scenario.make_group "web" Scenario.web_servers) = []).
Proof.
  refine (health_check_only_runs_uptime (Scenario.unreachable "c") Scenario.inventory
            "web" (Scenario.make_group "web" Scenario.web_servers) [] _).
  reflexivity.
Defined.

(** ** Failover with an empty group *)

Lemma empty_group_health (rem : Remote) (self : InfrastructureOrchestrator.t)
    (group_name : string) (g : ServerGroup.t) (h : History) :
  server_groups self !! group_name = Some g ->
  ServerGroup.servers g = [] ->
  check_group_health rem self group_name h = (Raise ZeroDivisionError, h).
Proof.
  intros Hg Hs. unfold check_group_health, group, bind.
  rewrite Hg. cbn. rewrite Hs. reflexivity.
Qed.

(** X9.  A failover checks the primary before the standby, so an empty group
    stops it with [ZeroDivisionError], not with a refusal: an empty primary
    before anything is sent, an empty standby after the probes of the
    primary.  Nothing is activated in either case. *)
Theorem failover_with_an_empty_group
    (rem : Remote) (self : InfrastructureOrchestrator.t)
    (primary_group backup_group : string) (primary backup : ServerGroup.t) (h : History) :
  server_groups self !! primary_group = Some primary ->
  server_groups self !! backup_group = Some backup ->
  (ServerGroup.servers primary = [] ->
   disaster_recovery rem self primary_group backup_group h = (Raise ZeroDivisionError, h))
  /\ (ServerGroup.servers primary <> [] ->
      ServerGroup.servers backup = [] ->
      exists tr,
        disaster_recovery rem self primary_group backup_group h
        = (Raise ZeroDivisionError, h ++ tr)
        /\ calls tr = map (fun s => (s, "uptime"))
                        (reachable_servers rem (ServerGroup.servers primary))).
Proof.
  intros Hp Hb. split.
  - intros Hempty. unfold disaster_recovery, bind, group. rewrite Hp, Hb. cbn.
    now rewrite (empty_group_health rem self primary_group primary h Hp Hempty).
  - intros Hne Hempty.
    destruct (check_group_health_spec rem self primary_group primary h Hp Hne)
      as (tr & Hrun & _ & Hc).
    exists tr. unfold disaster_recovery, bind, group. rewrite Hp, Hb. cbn.
    rewrite Hrun.
    rewrite (empty_group_health rem self backup_group backup (h ++ tr) Hb Hempty).
    split; [reflexivity|exact Hc].
Qed.

Lemma failover_with_an_empty_group_witness :
  (ServerGroup.servers (Scenario.make_group "web" Scenario.web_servers) = [] ->
   disaster_recovery Scenario.healthy Scenario.inventory "web" "empty" []
   = (Raise ZeroDivisionError, []))
  /\ (ServerGroup.servers (Scenario.make_group "web" Scenario.web_servers) <> [] ->
      ServerGroup.servers (Scenario.make_group "empty" []) = [] ->
      exists tr,
        disaster_recovery Scenario.healthy Scenario.inventory "web" "empty" []
        = (Raise ZeroDivisionError, [] ++ tr)
        /\ calls tr = map (fun s => (s, "uptime"))
                        (reachable_servers Scenario.healthy
                           (ServerGroup.servers
                              (Scenario.make_group "web" Scenario.web_servers)))).
Proof.
  refine (failover_with_an_empty_group Scenario.healthy Scenario.inventory "web" "empty"
            (Scenario.make_group "web" Scenario.web_servers)
            (Scenario.make_group "empty" []) [] _ _).
  - reflexivity.
  - reflexivity.
Defined.

(** ** What a finished batch guarantees *)

Lemma health_failed_at_app (service_name s : string) (h1 h2 : History) :
  health_failed_at service_name s (h1 ++ h2) ->
  health_failed_at service_name s h1 \/ health_failed_at service_name s h2.
Proof.
  intros (rc & out & err & Hin & Hrc). apply in_app_or in Hin as [Hin|Hin];
    [left|right]; exists rc, out, err; now split.
Qed.

Lemma health_failed_calls (service_name s : string) (h : History) :
  health_failed_at service_name s h -> In (s, is_active_command service_name) (calls h).
Proof. intros (rc & out & err & Hin & _). eapply exec_in_calls, Hin. Qed.

Lemma silent_no_health_failure (service_name : string) (h : History) :
  calls h = [] -> forall s, ~ health_failed_at service_name s h.
Proof. intros Hc s Hs. apply health_failed_calls in Hs. rewrite Hc in Hs. destruct Hs. Qed.

Lemma other_command_is_no_check (service_name command : string) (batch : list string)
    (h : History) :
  sent_only command batch h -> command <> is_active_command service_name ->
  forall s, ~ health_failed_at service_name s h.
Proof.
  intros Hsent Hne s Hs. apply health_failed_calls in Hs.
  destruct (Hsent _ _ Hs) as [Hc _]. congruence.
Qed.

Lemma restart_ok_app_l (rem : Remote) (service_name s : string) (h1 h2 : History) :
  restart_ok rem service_name s h1 -> restart_ok rem service_name s (h1 ++ h2).
Proof.
  intros (Hc & H1 & (o2 & e2 & H2) & (o3 & e3 & H3)). unfold restart_ok. rewrite calls_app.
  split; [exact Hc|]. split; [apply in_or_app; now left|].
  split; eexists _, _; apply in_or_app; left; eassumption.
Qed.

Lemma restart_ok_app_r (rem : Remote) (service_name s : string) (h1 h2 : History) :
  restart_ok rem service_name s h2 -> restart_ok rem service_name s (h1 ++ h2).
Proof.
  intros (Hc & H1 & (o2 & e2 & H2) & (o3 & e3 & H3)). unfold restart_ok. rewrite calls_app.
  split; [exact Hc|]. split; [apply in_or_app; now right|].
  split; eexists _, _; apply in_or_app; right; eassumption.
Qed.

Section Finished.
Variable rem : Remote.
Variable service_name : string.

(** A stop loop that ends without an exception reached every member. *)
Lemma stop_batch_post (batch : list string) (h : History) :
  exists evs r,
    stop_batch rem service_name batch h = (r, h ++ evs)
    /\ (forall o, r = Ok o ->
          forall s, In s batch ->
            connect_error rem s = None /\ In (s, stop_command service_name) (calls evs)).
Proof.
  revert h. induction batch as [|server batch IH]; intros h.
  - exists [], (Ok None). split; [cbn; unfold ret; now rewrite app_nil_r|].
    intros o _ s [].
  - rewrite stop_batch_cons. unfold bind at 1.
    destruct (connect_run_cases rem service_name server (stop_command service_name)
                (fun result =>
                   (if negb (Result.return_code result =? 0)
                    then print (StopFailed service_name server) else ret tt) ;;
                   ret (None : option bool)) h)
      as [(e & _ & _ & _ & x & Hrun)|[(msg & _ & Hrun)|(rc & out & err & Hc & Hr & Hrun)]].
    + rewrite Hrun. exists [e], (Raise x). split; [reflexivity|]. intros o Ho. discriminate Ho.
    + rewrite Hrun. eexists _, _. split; [reflexivity|]. intros o Ho. discriminate Ho.
    + rewrite Hrun. cbn [Result.return_code].
      remember (Exec server (stop_command service_name) (Ran rc out err)) as e eqn:He.
      assert (Hlog : exists logged,
                 ((if negb (rc =? 0) then print (StopFailed service_name server) else ret tt) ;;
                  ret (None : option bool)) (h ++ [e])
                 = (Ok None, (h ++ [e]) ++ logged)).
      { destruct (negb (rc =? 0)).
        - exists [Printed (StopFailed service_name server)]. reflexivity.
        - exists []. unfold bind, ret. now rewrite app_nil_r. }
      destruct Hlog as (logged & ->).
      destruct (IH ((h ++ [e]) ++ logged)) as (evs & r & Hrest & Hpost).
      rewrite Hrest. exists ([e] ++ logged ++ evs), r.
      split; [now rewrite <- !app_assoc|].
      intros o Ho s [<-|Hs].
      * split; [exact Hc|]. rewrite calls_app. apply in_or_app. left. subst e. now left.
      * destruct (Hpost o Ho s Hs) as [Hcs Hin]. split; [exact Hcs|].
        rewrite !calls_app. apply in_or_app. right. apply in_or_app. now right.
Qed.

(** A start loop either started every member or returned [False]. *)
Lemma start_batch_post (batch : list string) (h : History) :
  exists evs r,
    start_batch rem service_name batch h = (r, h ++ evs)
    /\ (r = Ok None ->
          forall s, In s batch ->
            exists out err, In (Exec s (start_command service_name) (Ran 0 out err)) evs)
    /\ (forall v, r = Ok (Some v) -> v = false).
Proof.
  revert h. induction batch as [|server batch IH]; intros h.
  - exists [], (Ok None). split; [cbn; unfold ret; now rewrite app_nil_r|].
    split; [intros _ s []|intros v Hv; discriminate Hv].
  - rewrite start_batch_cons. unfold bind at 1.
    destruct (connect_run_cases rem service_name server (start_command service_name)
                (fun result =>
                   if negb (Result.return_code result =? 0)
                   then print (StartFailed service_name server) ;; ret (Some false)
                   else ret (None : option bool)) h)
      as [(e & _ & _ & _ & x & Hrun)|[(msg & _ & Hrun)|(rc & out & err & Hc & Hr & Hrun)]].
    + rewrite Hrun. exists [e], (Raise x). split; [reflexivity|].
      split; [intros Ho|intros v Ho]; discriminate Ho.
    + rewrite Hrun. eexists _, _. split; [reflexivity|].
      split; [intros Ho|intros v Ho]; discriminate Ho.
    + rewrite Hrun. cbn [Result.return_code].
      destruct (Z.eqb_spec rc 0) as [->|Hrc]; cbn [negb].
      * unfold ret at 1.
        destruct (IH (h ++ [Exec server (start_command service_name) (Ran 0 out err)]))
          as (evs & r & Hrest & Hall & Hv).
        rewrite Hrest.
        exists ([Exec server (start_command service_name) (Ran 0 out err)] ++ evs), r.
        split; [now rewrite <- app_assoc|]. split; [|exact Hv].
        intros Hr0 s [<-|Hs].
        -- exists out, err. now left.
        -- destruct (Hall Hr0 s Hs) as (o & e & Hin). exists o, e. now right.
      * unfold bind, print, emit, ret. cbn.
        exists [Exec server (start_command service_name) (Ran rc out err);
                Printed (StartFailed service_name server)], (Ok (Some false)).
        split; [now rewrite <- app_assoc|].
        split; [intros Ho; discriminate Ho|intros v [= <-]; reflexivity].
Qed.

(** The health-check loop answers [True] only if it started from [True] and
    every member passed; a failed check is reported and makes the answer
    [False]. *)
Lemma health_check_batch_post (batch : list string) (health_ok : bool) (h : History) :
  exists evs r,
    for_acc batch health_ok (fun health_ok server =>
      Connection rem server ;;
      result <- run_warn rem server (is_active_command service_name) ;;
      if negb (Result.return_code result =? 0)
      then print (HealthCheckFailed server) ;; ret false
      else ret health_ok) h = (r, h ++ evs)
    /\ (r = Ok true ->
          health_ok = true
          /\ forall s, In s batch ->
               exists out err,
                 In (Exec s (is_active_command service_name) (Ran 0 out err)) evs)
    /\ (forall s, health_failed_at service_name s evs ->
          In (HealthCheckFailed s) (notices evs) /\ r <> Ok true).
Proof.
  revert health_ok h. induction batch as [|server batch IH]; intros health_ok h.
  - exists [], (Ok health_ok). split; [cbn; unfold ret; now rewrite app_nil_r|].
    split; [intros [= ->]; split; [reflexivity|intros s []]|].
    intros s (rc & out & err & [] & _).
  - cbn [for_acc]. unfold bind at 1.
    destruct (connect_run_cases rem service_name server (is_active_command service_name)
                (fun result =>
                   if negb (Result.return_code result =? 0)
                   then print (HealthCheckFailed server) ;; ret false
                   else ret health_ok) h)
      as [(e & Hce & _ & _ & x & Hrun)|[(msg & _ & Hrun)|(rc & out & err & Hc & Hr & Hrun)]].
    + rewrite Hrun. exists [e], (Raise x). split; [reflexivity|].
      split; [intros Ho; discriminate Ho|].
      intros s Hs. exfalso. eapply silent_no_health_failure; eassumption.
    + rewrite Hrun. eexists _, _. split; [reflexivity|].
      split; [intros Ho; discriminate Ho|].
      intros s (rc & out & err & [Hin|[]] & _). discriminate Hin.
    + rewrite Hrun. cbn [Result.return_code].
      destruct (Z.eqb_spec rc 0) as [->|Hrc]; cbn [negb].
      * unfold ret at 1.
        destruct (IH health_ok
                    (h ++ [Exec server (is_active_command service_name) (Ran 0 out err)]))
          as (evs & r & Hrest & Hall & Hfail).
        rewrite Hrest.
        exists ([Exec server (is_active_command service_name) (Ran 0 out err)] ++ evs), r.
        split; [now rewrite <- app_assoc|]. split.
        -- intros Hr1. destruct (Hall Hr1) as [Hacc Hin]. split; [exact Hacc|].
           intros s [<-|Hs]; [exists out, err; now left|].
           destruct (Hin s Hs) as (o & e & Hi). exists o, e. now right.
        -- intros s Hs. apply health_failed_at_app in Hs as [Hs|Hs].
           ++ destruct Hs as (rc & ? & ? & [Hin|[]] & Hrc). injection Hin as _ <- _ _.
              contradiction.
           ++ destruct (Hfail s Hs) as [Hn Hr1]. split; [|exact Hr1].
              rewrite notices_app. apply in_or_app. now right.
      * assert (Hstep : (print (HealthCheckFailed server) ;; ret false)
                          (h ++ [Exec server (is_active_command service_name) (Ran rc out err)])
                        = (Ok false,
                           (h ++ [Exec server (is_active_command service_name)
                                    (Ran rc out err)])
                             ++ [Printed (HealthCheckFailed server)])) by reflexivity.
        rewrite Hstep.
        destruct (IH false
                    ((h ++ [Exec server (is_active_command service_name) (Ran rc out err)])
                       ++ [Printed (HealthCheckFailed server)]))
          as (evs & r & Hrest & Hall & Hfail).
        rewrite Hrest.
        exists ([Exec server (is_active_command service_name) (Ran rc out err);
                 Printed (HealthCheckFailed server)] ++ evs), r.
        split; [now rewrite <- !app_assoc|]. split.
        -- intros Hr1. destruct (Hall Hr1) as [Hacc _]. discriminate Hacc.
        -- intros s Hs. split.
           ++ rewrite notices_app. apply health_failed_at_app in Hs as [Hs|Hs].
              ** destruct Hs as (? & ? & ? & [Hin|[Hin|[]]] & _); [|discriminate Hin].
                 injection Hin as <- _ _ _. apply in_or_app. left. now left.
              ** apply in_or_app. right. now apply Hfail.
           ++ intros Hr1. destruct (Hall Hr1) as [Hacc _]. discriminate Hacc.
Qed.

End Finished.

Ltac same_run Hrun evs :=
  injection Hrun as <- Hrun; rewrite <- ?app_assoc in Hrun;
  apply app_inv_head in Hrun; subst evs.

Ltac sync_phase H H' e' :=
  rewrite H in H'; injection H' as <- H'; apply app_inv_head in H'; subst e'.

Section FinishedBatches.
Variable rem : Remote.
Variable service_name : string.
Variable servers : list string.
Variable batch_size : Z.

Lemma batch_body_post (i : Z) (h : History) :
  exists evs r,
    batch_body rem service_name servers batch_size i h = (r, h ++ evs)
    /\ within (slice servers i (i + batch_size)) evs
    /\ (r = Ok None ->
          (forall s, In s (slice servers i (i + batch_size)) ->
                     restart_ok rem service_name s evs)
          /\ forall s, ~ start_failed_at service_name s evs)
    /\ (forall v, r = Ok (Some v) -> v = false)
    /\ (forall s, health_failed_at service_name s evs ->
          In s (slice servers i (i + batch_size))
          /\ In (HealthCheckFailed s) (notices evs)
          /\ r <> Ok None
          /\ (forall v, r = Ok (Some v) -> last evs = Some (Printed RestartFailed))).
Proof.
  destruct (commands_differ service_name) as (Hd1 & Hd2 & Hd3).
  destruct (batch_body_spec rem service_name servers batch_size i h)
    as (evs & r & Hrun & W & F & _).
  exists evs, r. split; [exact Hrun|]. split; [exact W|].
  revert Hrun. unfold batch_body. cbn zeta.
  set (batch := slice servers i (i + batch_size)) in *.
  destruct (stop_batch_post rem service_name batch h) as (e1 & r1 & H1 & P1).
  destruct (stop_batch_spec rem service_name batch h) as (e1' & r1' & H1' & S1 & _).
  sync_phase H1 H1' e1'.
  pose proof (other_command_is_no_check service_name _ _ _ S1 Hd3) as N1.
  unfold bind at 1. rewrite H1.
  destruct r1 as [o1|x1].
  2:{ intros Hrun. same_run Hrun evs.
      split; [intros Hr; discriminate Hr|]. split; [intros v Hv; discriminate Hv|].
      intros s Hs. destruct (N1 s Hs). }
  unfold bind at 1. rewrite sleep_ok by lia.
  destruct (start_batch_post rem service_name batch ((h ++ e1) ++ [Slept 5]))
    as (e2 & r2 & H2 & P2 & V2).
  destruct (start_batch_spec rem service_name batch ((h ++ e1) ++ [Slept 5]))
    as (e2' & r2' & H2' & S2 & F2).
  sync_phase H2 H2' e2'.
  assert (N2 : forall s, ~ health_failed_at service_name s e2).
  { eapply other_command_is_no_check; [exact S2|congruence]. }
  assert (N12 : forall s, ~ health_failed_at service_name s (e1 ++ [Slept 5] ++ e2)).
  { intros s Hs. apply health_failed_at_app in Hs as [Hs|Hs]; [exact (N1 s Hs)|].
    apply health_failed_at_app in Hs as [Hs|Hs]; [|exact (N2 s Hs)].
    exact (silent_no_health_failure service_name [Slept 5] eq_refl s Hs). }
  unfold bind at 1. rewrite H2.
  destruct r2 as [[v|]|x2].
  - intros Hrun. same_run Hrun evs.
    split; [intros Hr; discriminate Hr|].
    split; [intros v' [= <-]; now apply V2|].
    intros s Hs. destruct (N12 s Hs).
  - unfold bind at 1. rewrite sleep_ok by lia.
    destruct (health_check_batch_post rem service_name batch true
                ((((h ++ e1) ++ [Slept 5]) ++ e2) ++ [Slept 10]))
      as (e3 & r3 & H3 & P3 & Q3).
    destruct (health_check_batch_spec rem service_name batch true
                ((((h ++ e1) ++ [Slept 5]) ++ e2) ++ [Slept 10]))
      as (e3' & r3' & H3' & S3).
    sync_phase H3 H3' e3'.
    unfold bind at 1. unfold health_check_batch. rewrite H3.
    assert (Hhf : forall tail s,
               calls tail = [] ->
               health_failed_at service_name s
                 (e1 ++ [Slept 5] ++ e2 ++ [Slept 10] ++ e3 ++ tail) ->
               health_failed_at service_name s e3).
    { intros tail s Ht Hs. rewrite !app_assoc in Hs. rewrite <- (app_assoc e1) in Hs.
      apply health_failed_at_app in Hs as [Hs|Hs];
        [|destruct (silent_no_health_failure service_name tail Ht s Hs)].
      apply health_failed_at_app in Hs as [Hs|Hs]; [|exact Hs].
      apply health_failed_at_app in Hs as [Hs|Hs]; [destruct (N12 s Hs)|].
      destruct (silent_no_health_failure service_name [Slept 10] eq_refl s Hs). }
    assert (Hnote : forall tail s,
               In (HealthCheckFailed s) (notices e3) ->
               In (HealthCheckFailed s)
                  (notices (e1 ++ [Slept 5] ++ e2 ++ [Slept 10] ++ e3 ++ tail))).
    { intros tail s Hin. rewrite !notices_app.
      do 4 (apply in_or_app; right). apply in_or_app. now left. }
    destruct r3 as [[|]|x3]; cbn [negb].
    + assert (Hwait : exists tail,
                 ((if i + batch_size <? Z.of_nat (length servers) then sleep 30 else ret tt) ;;
                  ret (None : option bool))
                   (((((h ++ e1) ++ [Slept 5]) ++ e2) ++ [Slept 10]) ++ e3)
                 = (Ok None,
                    (((((h ++ e1) ++ [Slept 5]) ++ e2) ++ [Slept 10]) ++ e3) ++ tail)
                 /\ calls tail = []).
      { destruct (i + batch_size <? Z.of_nat (length servers)).
        - exists [Slept 30]. unfold bind. rewrite sleep_ok by lia. split; reflexivity.
        - exists []. unfold bind, ret. rewrite app_nil_r. split; reflexivity. }
      destruct Hwait as (tail & -> & Ht).
      intros Hrun. same_run Hrun evs.
      destruct (P3 eq_refl) as [_ Hchecked].
      split; [|split].
      * intros _. split.
        -- intros s Hs. destruct (P1 o1 eq_refl s Hs) as [Hc Hstop].
           destruct (P2 eq_refl s Hs) as (o2 & x2 & Hstart).
           destruct (Hchecked s Hs) as (o3 & x3 & Hcheck).
           split; [exact Hc|]. split; [|split].
           ++ rewrite calls_app. apply in_or_app. now left.
           ++ exists o2, x2. apply in_or_app. right. apply in_or_app. right.
              apply in_or_app. now left.
           ++ exists o3, x3. do 4 (apply in_or_app; right). apply in_or_app. now left.
        -- intros s Hs. destruct (F s Hs) as [Hr _]. discriminate Hr.
      * intros v Hv. discriminate Hv.
      * intros s Hs. apply (Hhf tail s Ht) in Hs.
        destruct (Q3 s Hs) as [_ Hne]. now destruct Hne.
    + intros Hrun. unfold bind, print, emit, ret in Hrun. same_run Hrun evs.
      split; [intros Hr; discriminate Hr|].
      split; [intros v [= <-]; reflexivity|].
      intros s Hs.
      apply (Hhf [Printed RestartFailed] s eq_refl) in Hs.
      split; [|split; [|split]].
      * apply health_failed_calls in Hs. now destruct (S3 _ _ Hs).
      * apply Hnote. now apply Q3.
      * discriminate.
      * intros v _. rewrite !app_assoc. apply last_snoc.
    + intros Hrun. same_run Hrun evs.
      split; [intros Hr; discriminate Hr|].
      split; [intros v Hv; discriminate Hv|].
      intros s Hs.
      assert (Hs3 : health_failed_at service_name s e3).
      { apply (Hhf [] s eq_refl). now rewrite app_nil_r. }
      split; [|split; [|split]].
      * apply health_failed_calls in Hs3. now destruct (S3 _ _ Hs3).
      * pose proof (Hnote [] s (proj1 (Q3 s Hs3))) as Hn. now rewrite app_nil_r in Hn.
      * discriminate.
      * intros v Hv. discriminate Hv.
  - intros Hrun. same_run Hrun evs.
    split; [intros Hr; discriminate Hr|]. split; [intros v Hv; discriminate Hv|].
    intros s Hs. destruct (N12 s Hs).
Qed.

End FinishedBatches.

Section FinishedRollout.
Variable rem : Remote.
Variable service_name : string.
Variable servers : list string.
Variable batch_size : Z.

Lemma batches_post (indices : list Z) (h : History) :
  exists evs r entered rest,
    indices = entered ++ rest
    /\ for_each indices (batch_body rem service_name servers batch_size) h = (r, h ++ evs)
    /\ (forall s c, In (s, c) (calls evs) ->
          exists i, In i entered /\ In s (slice servers i (i + batch_size)))
    /\ (r = Ok None ->
          (forall i s, In i indices -> In s (slice servers i (i + batch_size)) ->
                       restart_ok rem service_name s evs)
          /\ (forall s, ~ start_failed_at service_name s evs)
          /\ (forall s, ~ health_failed_at service_name s evs))
    /\ (forall v, r = Ok (Some v) -> v = false)
    /\ (forall s, health_failed_at service_name s evs ->
          In (HealthCheckFailed s) (notices evs)
          /\ r <> Ok None
          /\ (forall v, r = Ok (Some v) -> last evs = Some (Printed RestartFailed))
          /\ exists i, last entered = Some i /\ In s (slice servers i (i + batch_size))).
Proof.
  revert h. induction indices as [|i indices IH]; intros h.
  - exists [], (Ok None), [], [].
    split; [reflexivity|]. split; [cbn; unfold ret; now rewrite app_nil_r|].
    split; [intros s c []|]. split; [|split].
    + intros _. split; [intros i s []|].
      split; intros s (rc & out & err & [] & _).
    + intros v Hv. discriminate Hv.
    + intros s (rc & out & err & [] & _).
  - destruct (batch_body_post rem service_name servers batch_size i h)
      as (e1 & r1 & H1 & W1 & A1 & V1 & Q1).
    cbn [for_each]. unfold bind at 1. rewrite H1.
    assert (Hone : forall s, health_failed_at service_name s e1 ->
                     In (HealthCheckFailed s) (notices e1)
                     /\ r1 <> Ok None
                     /\ (forall v, r1 = Ok (Some v) -> last e1 = Some (Printed RestartFailed))
                     /\ exists i', last [i] = Some i'
                                   /\ In s (slice servers i' (i' + batch_size))).
    { intros s Hs. destruct (Q1 s Hs) as (Hin & Hn & Hne & Hl).
      split; [exact Hn|]. split; [exact Hne|]. split; [exact Hl|].
      exists i. split; [reflexivity|exact Hin]. }
    assert (Hw : forall s c, In (s, c) (calls e1) ->
                   exists i', In i' [i] /\ In s (slice servers i' (i' + batch_size))).
    { intros s c Hin. exists i. split; [now left|exact (W1 s c Hin)]. }
    destruct r1 as [[v|]|x].
    + exists e1, (Ok (Some v)), [i], indices.
      split; [reflexivity|]. split; [reflexivity|]. split; [exact Hw|].
      split; [intros Hr; discriminate Hr|]. split; [exact V1|exact Hone].
    + destruct (IH (h ++ e1)) as (e2 & r2 & entered & rest & Heq & H2 & W2 & A2 & V2 & Q2).
      destruct (A1 eq_refl) as [Hok1 Hns1].
      exists (e1 ++ e2), r2, (i :: entered), rest.
      split; [now rewrite Heq|]. split; [now rewrite H2, <- app_assoc|].
      split; [|split; [|split]].
      * intros s c Hin. rewrite calls_app in Hin. apply in_app_or in Hin as [Hin|Hin].
        -- exists i. split; [now left|exact (W1 s c Hin)].
        -- destruct (W2 s c Hin) as (i' & Hi' & Hs). exists i'. split; [now right|exact Hs].
      * intros Hr2. destruct (A2 Hr2) as (Hok2 & Hns2 & Hnh2).
        split; [|split].
        -- intros j s [<-|Hj] Hs.
           ++ apply restart_ok_app_l. now apply Hok1.
           ++ apply restart_ok_app_r. now apply (Hok2 j).
        -- intros s Hs. apply start_failed_at_app in Hs as [Hs|Hs];
             [exact (Hns1 s Hs)|exact (Hns2 s Hs)].
        -- intros s Hs. apply health_failed_at_app in Hs as [Hs|Hs]; [|exact (Hnh2 s Hs)].
           destruct (Q1 s Hs) as (_ & _ & Hne & _). now destruct Hne.
      * exact V2.
      * intros s Hs. apply health_failed_at_app in Hs as [Hs|Hs].
        -- destruct (Q1 s Hs) as (_ & _ & Hne & _). now destruct Hne.
        -- destruct (Q2 s Hs) as (Hn & Hne & Hl & i' & Hi' & Hin).
           split; [rewrite notices_app; apply in_or_app; now right|].
           split; [exact Hne|]. split.
           ++ intros v Hv. rewrite last_app, (Hl v Hv). reflexivity.
           ++ exists i'. split; [|exact Hin]. now rewrite last_cons, Hi'.
    + exists e1, (Raise x), [i], indices.
      split; [reflexivity|]. split; [reflexivity|]. split; [exact Hw|].
      split; [intros Hr; discriminate Hr|]. split; [exact V1|exact Hone].
Qed.

(** Commands stay within the batches up to the one a given server is in. *)
Lemma later_batches_untouched (evs : History) (entered rest : list Z) (i k : Z) (s : string) :
  0 < batch_size ->
  NoDup servers ->
  batch_indices (Z.of_nat (length servers)) batch_size = entered ++ rest ->
  (forall s c, In (s, c) (calls evs) ->
     exists j, In j entered /\ In s (slice servers j (j + batch_size))) ->
  last entered = Some i ->
  In s (slice servers i (i + batch_size)) ->
  0 <= k ->
  In s (slice servers (k * batch_size) (k * batch_size + batch_size)) ->
  forall s', In s' (skipn (Z.to_nat ((k + 1) * batch_size)) servers) ->
             ~ In s' (contacted evs).
Proof.
  intros Hbs Hnd Heq W Hi Hsi Hk Hin s' Hs' Hc.
  assert (Hii : In i entered) by (eapply last_Some_elem_of, list_elem_of_In in Hi; exact Hi).
  destruct (batch_indices_lookup _ _ _ _ i i Hbs Heq Hi Hii) as (Hi0 & k0 & Hk0).
  apply slice_positions in Hin as (p1 & Hp1 & Hr1); [|nia|exact Hbs].
  apply slice_positions in Hsi as (p2 & Hp2 & Hr2); [|lia|exact Hbs].
  pose proof (NoDup_lookup _ _ _ _ Hnd Hp1 Hp2) as <-.
  assert (Hkk : k = Z.of_nat k0) by nia.
  apply drop_positions in Hs' as (q & Hq & Hge).
  unfold contacted in Hc. apply in_map_iff in Hc as ([s'' c] & Hfst & Hc).
  cbn in Hfst. subst s''.
  destruct (W s' c Hc) as (j & Hj & Hsj).
  destruct (batch_indices_lookup _ _ _ _ i j Hbs Heq Hi Hj) as (Hj0 & _).
  apply slice_positions in Hsj as (q' & Hq' & Hr'); [|lia|exact Hbs].
  pose proof (NoDup_lookup _ _ _ _ Hnd Hq Hq') as <-.
  nia.
Qed.

End FinishedRollout.

(** X10.  A rolling restart (positive batch size) that returns [True] has gone
    through every server of the group: each one was reachable, was sent the
    stop command, and exited with status zero on both the start and the
    health-check command; no start and no health check failed anywhere. *)
Theorem restart_returning_true_restarted_everything
    (rem : Remote) (service_name : string) (self : InfrastructureOrchestrator.t)
    (server_group : string) (g : ServerGroup.t) (batch_size : Z) (tr : History) :
  server_groups self !! server_group = Some g ->
  0 < batch_size ->
  rolling_restart rem service_name self server_group batch_size [] = (Ok true, tr) ->
  (forall s, In s (ServerGroup.servers g) -> restart_ok rem service_name s tr)
  /\ (forall s, ~ start_failed_at service_name s tr)
  /\ (forall s, ~ health_failed_at service_name s tr).
Proof.
  intros Hg Hbs Hrun.
  rewrite (rolling_restart_unfold _ _ _ _ g) in Hrun by assumption.
  destruct (batches_post rem service_name (ServerGroup.servers g) batch_size
              (batch_indices (Z.of_nat (length (ServerGroup.servers g))) batch_size) [])
    as (evs & r & entered & rest & _ & Hloop & _ & A & V & _).
  rewrite Hloop in Hrun. cbn [app] in Hrun.
  destruct r as [[v|]|x]; [| |discriminate Hrun].
  - injection Hrun as Hres _. rewrite (V v eq_refl) in Hres. discriminate Hres.
  - injection Hrun as <-. destruct (A eq_refl) as (Hok & Hns & Hnh).
    split; [|split; assumption].
    intros s Hs.
    destruct (batch_indices_cover (ServerGroup.servers g) batch_size s Hbs Hs)
      as (i & Hi & Hsi).
    exact (Hok i s Hi Hsi).
Qed.

Lemma restart_returning_true_restarted_everything_witness :
  (forall s, In s (ServerGroup.servers (Scenario.make_group "web" Scenario.web_servers)) ->
             restart_ok Scenario.stop_fails_on_a "nginx" s
               (snd (rolling_restart Scenario.stop_fails_on_a "nginx"
                       Scenario.inventory "web" 3 [])))
  /\ (forall s, ~ start_failed_at "nginx" s
                    (snd (rolling_restart Scenario.stop_fails_on_a "nginx"
                            Scenario.inventory "web" 3 [])))
  /\ (forall s, ~ health_failed_at "nginx" s
                    (snd (rolling_restart Scenario.stop_fails_on_a "nginx"
                            Scenario.inventory "web" 3 []))).
Proof.
  refine (restart_returning_true_restarted_everything Scenario.stop_fails_on_a "nginx"
            Scenario.inventory "web" (Scenario.make_group "web" Scenario.web_servers) 3
            (snd (rolling_restart Scenario.stop_fails_on_a "nginx"
                    Scenario.inventory "web" 3 [])) _ _ _).
  - reflexivity.
  - lia.
  - reflexivity.
Defined.

(** X11.  The health gate.  With a positive batch size and distinct servers, a
    health check that exits non-zero on a target of batch [k] is reported and
    keeps the restart from returning [True]: it returns [False], with the
    line that the rolling restart failed as its last action, unless a later
    check of the same batch raises.  No command is ever sent to a target of a
    later batch. *)
Theorem failed_health_check_aborts_the_rollout
    (rem : Remote) (service_name : string) (self : InfrastructureOrchestrator.t)
    (server_group : string) (g : ServerGroup.t) (batch_size : Z)
    (res : Res bool) (tr : History) (s : string) (k : Z) :
  let servers := ServerGroup.servers g in
  server_groups self !! server_group = Some g ->
  0 < batch_size ->
  NoDup servers ->
  rolling_restart rem service_name self server_group batch_size [] = (res, tr) ->
  0 <= k ->
  In s (slice servers (k * batch_size) (k * batch_size + batch_size)) ->
  health_failed_at service_name s tr ->
  In (HealthCheckFailed s) (notices tr)
  /\ (forall v, res = Ok v ->
        v = false /\ last tr = Some (Printed RestartFailed))
  /\ (forall s', In s' (skipn (Z.to_nat ((k + 1) * batch_size)) servers) ->
                 ~ In s' (contacted tr)).
Proof.
  intros servers Hg Hbs Hnd Hrun Hk Hin Hfail.
  rewrite (rolling_restart_unfold _ _ _ _ g) in Hrun by assumption.
  fold servers in Hrun.
  destruct (batches_post rem service_name servers batch_size
              (batch_indices (Z.of_nat (length servers)) batch_size) [])
    as (evs & r & entered & rest & Heq & Hloop & W & _ & V & Q).
  rewrite Hloop in Hrun. cbn [app] in Hrun. injection Hrun as <- <-.
  destruct (Q s Hfail) as (Hn & Hne & Hl & i & Hi & Hsi).
  split; [exact Hn|]. split.
  - intros v Hv. destruct r as [[v'|]|x]; [|now destruct Hne|discriminate Hv].
    injection Hv as <-. split; [now apply V|now apply (Hl v')].
  - eapply later_batches_untouched; eassumption.
Qed.

Lemma failed_health_check_aborts_the_rollout_witness :
  In (HealthCheckFailed "a")
     (notices (snd (rolling_restart Sample.check_fails_on_a
                      "nginx" Scenario.inventory "web" 2 [])))
  /\ (forall v,
        fst (rolling_restart Sample.check_fails_on_a
               "nginx" Scenario.inventory "web" 2 []) = Ok v ->
        v = false
        /\ last (snd (rolling_restart Sample.check_fails_on_a
                        "nginx" Scenario.inventory "web" 2 []))
           = Some (Printed RestartFailed))
  /\ (forall s',
        In s' (skipn (Z.to_nat ((0 + 1) * 2))
                 (ServerGroup.servers (Scenario.make_group "web" Scenario.web_servers))) ->
        ~ In s' (contacted
                   (snd (rolling_restart
                           Sample.check_fails_on_a
                           "nginx" Scenario.inventory "web" 2 [])))).
Proof.
  refine (failed_health_check_aborts_the_rollout
            Sample.check_fails_on_a "nginx"
            Scenario.inventory "web" (Scenario.make_group "web" Scenario.web_servers) 2
            (fst (rolling_restart Sample.check_fails_on_a
                    "nginx" Scenario.inventory "web" 2 []))
            (snd (rolling_restart Sample.check_fails_on_a
                    "nginx" Scenario.inventory "web" 2 []))
            "a" 0 _ _ _ _ _ _ _).
  - reflexivity.
  - lia.
  - apply (bool_decide_unpack _). vm_compute. exact I.
  - reflexivity.
  - lia.
  - vm_compute. now left.
  - exists 1, "", "failed". split; [|lia].
    vm_compute. do 6 right. now left.
Defined.

(** The health gate at work: both servers of the first batch are checked,
    the failure on a is reported, and c and d are never contacted. *)
Example health_gate_stops_after_the_first_batch :
  let run := rolling_restart Sample.check_fails_on_a
               "nginx" Scenario.inventory "web" 2 [] in
  fst run = Ok false
  /\ notices (snd run) = [HealthCheckFailed "a"; RestartFailed]
  /\ contacted (snd run) = ["a"; "b"; "a"; "b"; "a"; "b"].
Proof. repeat split. Qed.

(** ** Activating the standby *)

Lemma all_succeeded_app (h1 h2 : History) :
  all_succeeded (h1 ++ h2) <-> all_succeeded h1 /\ all_succeeded h2.
Proof. unfold all_succeeded. rewrite runs_app. apply Forall_app. Qed.

Lemma all_succeeded_forallb (h : History) :
  forallb (fun x => run_succeeded (snd x)) (runs h) = true <-> all_succeeded h.
Proof.
  unfold all_succeeded. rewrite forallb_forall, List.Forall_forall. reflexivity.
Qed.

Section Activation.
Variable rem : Remote.
Variable servers : list string.

Lemma answered_app (h1 h2 : History) : answered rem h1 -> answered rem h2 -> answered rem (h1 ++ h2).
Proof. unfold answered. rewrite runs_app. intros H1 H2. apply Forall_app. now split. Qed.

(** [group.run] reaches every member, whatever the earlier members did, and
    fails afterwards if any call was unsuccessful. *)
Lemma group_run_members_spec (command : string) (l : list string) (failed : bool) (h : History) :
  exists evs,
    for_acc l failed (group_member rem command) h
    = (Ok (failed || negb (forallb (fun x => run_succeeded (snd x)) (runs evs))), h ++ evs)
    /\ calls evs = map (fun s => (s, command)) l
    /\ notices evs = []
    /\ answered rem evs.
Proof.
  revert failed h. induction l as [|s l IH]; intros failed h.
  - exists []. cbn. rewrite app_nil_r, orb_false_r. repeat split. constructor.
  - cbn [for_acc]. unfold bind at 1, group_member at 1. cbn zeta.
    destruct (IH (failed || negb (run_succeeded (respond rem h s command)))
                (h ++ [Exec s command (respond rem h s command)]))
      as (evs & Hrun & Hcalls & Hnot & Hans).
    exists ([Exec s command (respond rem h s command)] ++ evs).
    rewrite Hrun, <- app_assoc, calls_app, notices_app, Hcalls, Hnot.
    split; [|split; [reflexivity|split; [reflexivity|]]].
    + f_equal. f_equal. rewrite runs_app. cbn.
      destruct failed, (run_succeeded (respond rem h s command)),
        (forallb (fun x => run_succeeded (snd x)) (runs evs)); reflexivity.
    + apply answered_app; [|exact Hans].
      constructor; [|constructor]. exists h. reflexivity.
Qed.

Lemma group_run_spec (command : string) (h : History) :
  exists evs,
    group_run rem servers command h
    = (if forallb (fun x => run_succeeded (snd x)) (runs evs)
       then Ok tt else Raise GroupException, h ++ evs)
    /\ calls evs = map (fun s => (s, command)) servers
    /\ notices evs = []
    /\ answered rem evs.
Proof.
  destruct (group_run_members_spec command servers false h) as (evs & Hrun & Hc & Hn & Ha).
  exists evs. unfold group_run, bind. rewrite Hrun. cbn [orb].
  split; [|auto]. now destruct (forallb _ (runs evs)).
Qed.

(** The services loop: it either runs to its end, every command having
    succeeded, or raises [GroupException]. *)
Lemma activate_spec (services : list string) (h : History) :
  exists evs r,
    activate rem servers services h = (r, h ++ evs)
    /\ notices evs = []
    /\ (r = Ok tt /\ calls evs = activation_calls servers services /\ all_succeeded evs
        \/ r = Raise GroupException /\ ~ all_succeeded evs).
Proof.
  unfold activate. revert h. induction services as [|service services IH]; intros h.
  - exists [], (Ok tt). cbn. rewrite app_nil_r. split; [reflexivity|].
    split; [reflexivity|]. left. repeat split. constructor.
  - cbn [for_acc]. unfold bind at 1. unfold bind at 1.
    destruct (group_run_spec (start_command service) h) as (e1 & H1 & C1 & N1 & _).
    rewrite H1.
    destruct (forallb _ (runs e1)) eqn:S1.
    2:{ exists e1, (Raise GroupException). split; [reflexivity|]. split; [exact N1|].
        right. split; [reflexivity|]. intros Hall.
        apply all_succeeded_forallb in Hall. congruence. }
    destruct (group_run_spec (enable_command service) (h ++ e1)) as (e2 & H2 & C2 & N2 & _).
    rewrite H2.
    destruct (forallb _ (runs e2)) eqn:S2.
    2:{ exists (e1 ++ e2), (Raise GroupException).
        split; [now rewrite <- app_assoc|].
        split; [now rewrite notices_app, N1, N2|].
        right. split; [reflexivity|]. intros Hall.
        apply all_succeeded_app in Hall as [_ Hall].
        apply all_succeeded_forallb in Hall. congruence. }
    destruct (IH ((h ++ e1) ++ e2)) as (e3 & r & H3 & N3 & Hcases).
    rewrite H3. exists (e1 ++ e2 ++ e3), r.
    split; [now rewrite <- !app_assoc|].
    split; [now rewrite !notices_app, N1, N2, N3|].
    apply all_succeeded_forallb in S1. apply all_succeeded_forallb in S2.
    destruct Hcases as [(-> & C3 & A3)|(-> & A3)].
    + left. split; [reflexivity|]. split.
      * rewrite !calls_app, C1, C2, C3. unfold activation_calls. cbn [map concat].
        now rewrite <- app_assoc.
      * apply all_succeeded_app. split; [exact S1|].
        apply all_succeeded_app. now split.
    + right. split; [reflexivity|]. intros Hall.
      apply all_succeeded_app in Hall as [_ Hall].
      apply all_succeeded_app in Hall as [_ Hall]. now apply A3.
Qed.

(** Opening the group's connections changes nothing when it succeeds, and
    it succeeds only if every member can be reached. *)
Lemma connections_spec (l : list string) (h h' : History) :
  for_acc l tt (fun _ server => Connection rem server) h = (Ok tt, h') ->
  h' = h /\ forall s, In s l -> connect_error rem s = None.
Proof.
  revert h. induction l as [|s l IH]; intros h.
  - cbn. unfold ret. intros [= <-]. split; [reflexivity|intros s []].
  - cbn [for_acc]. unfold bind at 1, Connection at 1.
    destruct (connect_error rem s) as [msg|] eqn:Hc; [discriminate|].
    unfold ret at 1. intros Hrun. apply IH in Hrun as [-> Hall].
    split; [reflexivity|]. intros x [<-|Hx]; auto.
Qed.

End Activation.

(** X12.  A failover that returns [True] found the standby healthy, could open a
    connection to every standby server, sent exactly the start and enable
    commands of every service to every standby server, each of which exited
    with status zero, and ended with the wait for the DNS update. *)
Theorem failover_returning_true_activated_everything
    (rem : Remote) (self : InfrastructureOrchestrator.t)
    (primary_group backup_group : string) (backup : ServerGroup.t) (tr : History) :
  server_groups self !! backup_group = Some backup ->
  disaster_recovery rem self primary_group backup_group [] = (Ok true, tr) ->
  exists primary_healthy h1 h2 tail,
    check_group_health rem self primary_group [] = (Ok primary_healthy, h1)
    /\ check_group_health rem self backup_group h1 = (Ok true, h2)
    /\ tr = h2 ++ tail
    /\ (forall s, In s (ServerGroup.servers backup) -> connect_error rem s = None)
    /\ calls tail
       = activation_calls (ServerGroup.servers backup)
           (default ["nginx"; "app"] (ServerGroup.variables backup !! "services"))
    /\ all_succeeded tail
    /\ last tr = Some (Slept 2).
Proof.
  intros Hb. unfold disaster_recovery, group. unfold bind at 1.
  destruct (server_groups self !! primary_group) as [primary|]; [|discriminate].
  unfold ret at 1. unfold bind at 1. rewrite Hb. unfold ret at 1.
  unfold bind at 1.
  destruct (check_group_health rem self primary_group []) as [[ph|e] h1] eqn:Hp;
    [|discriminate].
  unfold bind at 1.
  destruct (check_group_health rem self backup_group h1) as [[[|]|e] h2] eqn:Hh;
    cbn [negb]; [|discriminate|discriminate].
  unfold bind at 1.
  assert (Hprint : exists notice,
             (if ph then print ManualConfirmationRequired else ret tt) h2
             = (Ok tt, h2 ++ notice) /\ calls notice = [] /\ all_succeeded notice).
  { destruct ph.
    - exists [Printed ManualConfirmationRequired]. repeat split. constructor.
    - exists []. unfold ret. rewrite app_nil_r. repeat split. constructor. }
  destruct Hprint as (notice & -> & Hcn & Han).
  unfold bind at 1. unfold ret at 1. unfold bind at 1.
  destruct (for_acc (ServerGroup.servers backup) tt _ (h2 ++ notice))
    as [[[]|e] h3] eqn:Hconn; [|discriminate].
  apply connections_spec in Hconn as [-> Hreach].
  unfold bind at 1.
  destruct (activate_spec rem (ServerGroup.servers backup)
              (default ["nginx"; "app"] (ServerGroup.variables backup !! "services"))
              (h2 ++ notice)) as (acts & r & Hact & _ & Hcases).
  rewrite Hact.
  destruct Hcases as [(-> & Hcalls & Hall)|(-> & _)]; [|discriminate].
  unfold bind at 1. rewrite sleep_ok by lia. unfold ret.
  intros [= <-].
  exists ph, h1, h2, (notice ++ acts ++ [Slept 2]).
  split; [first [reflexivity|exact Hp]|]. split; [first [reflexivity|exact Hh]|].
  split; [now rewrite <- !app_assoc|]. split; [exact Hreach|].
  split; [rewrite !calls_app, Hcn, Hcalls; cbn; now rewrite app_nil_r|].
  split.
  - apply all_succeeded_app. split; [exact Han|].
    apply all_succeeded_app. split; [exact Hall|constructor].
  - apply last_snoc.
Qed.

Lemma failover_returning_true_activated_everything_witness :
  exists primary_healthy h1 h2 tail,
    check_group_health Scenario.healthy Scenario.inventory "web" [] = (Ok primary_healthy, h1)
    /\ check_group_health Scenario.healthy Scenario.inventory "standby" h1 = (Ok true, h2)
    /\ snd (disaster_recovery Scenario.healthy Scenario.inventory "web" "standby" [])
       = h2 ++ tail
    /\ (forall s, In s (ServerGroup.servers (Scenario.make_group "standby" ["x"])) ->
                  connect_error Scenario.healthy s = None)
    /\ calls tail
       = activation_calls (ServerGroup.servers (Scenario.make_group "standby" ["x"]))
           (default ["nginx"; "app"]
              (ServerGroup.variables (Scenario.make_group "standby" ["x"]) !! "services"))
    /\ all_succeeded tail
    /\ last (snd (disaster_recovery Scenario.healthy Scenario.inventory "web" "standby" []))
       = Some (Slept 2).
Proof.
  refine (failover_returning_true_activated_everything Scenario.healthy Scenario.inventory
            "web" "standby" (Scenario.make_group "standby" ["x"])
            (snd (disaster_recovery Scenario.healthy Scenario.inventory "web" "standby" []))
            _ _).
  - reflexivity.
  - reflexivity.
Defined.

(** X13.  A failed activation.  With a healthy standby whose connections open, if
    the start command of the first service cannot succeed on one standby
    server, the failover raises [GroupException]; by then that start command
    has been sent to every standby server, the failing one included, and
    nothing else has been: no enable command, no other service. *)
Theorem failed_activation_raises_after_reaching_every_server
    (rem : Remote) (self : InfrastructureOrchestrator.t)
    (primary_group backup_group : string) (backup : ServerGroup.t)
    (primary_healthy : bool) (h1 h2 : History)
    (service : string) (services : list string) (server : string) :
  server_groups self !! backup_group = Some backup ->
  check_group_health rem self primary_group [] = (Ok primary_healthy, h1) ->
  check_group_health rem self backup_group h1 = (Ok true, h2) ->
  (forall s, In s (ServerGroup.servers backup) -> connect_error rem s = None) ->
  default ["nginx"; "app"] (ServerGroup.variables backup !! "services")
  = service :: services ->
  In server (ServerGroup.servers backup) ->
  (forall h, run_succeeded (respond rem h server (start_command service)) = false) ->
  exists tail,
    disaster_recovery rem self primary_group backup_group [] = (Raise GroupException, h2 ++ tail)
    /\ calls tail = map (fun s => (s, start_command service)) (ServerGroup.servers backup).
Proof.
  intros Hb Hp Hh Hreach Hservices Hin Hbad.
  destruct (check_group_health_known _ _ _ _ _ _ Hp) as [primary Hpg].
  set (notice := if primary_healthy then [Printed ManualConfirmationRequired] else []).
  destruct (group_run_spec rem (ServerGroup.servers backup) (start_command service)
              (h2 ++ notice)) as (evs & Hrun & Hcalls & _ & Hans).
  assert (Hfailed : forallb (fun x => run_succeeded (snd x)) (runs evs) = false).
  { apply not_true_is_false. intros Hall.
    rewrite forallb_forall in Hall.
    assert (Hcall : In (server, start_command service) (calls evs)).
    { rewrite Hcalls. apply in_map_iff. exists server. split; [reflexivity|exact Hin]. }
    unfold calls in Hcall. apply in_map_iff in Hcall as ([[s c] r] & Hfst & Hr).
    cbn in Hfst. injection Hfst as -> ->.
    specialize (Hall _ Hr). cbn in Hall.
    unfold answered in Hans. rewrite List.Forall_forall in Hans.
    destruct (Hans _ Hr) as [h' Hresp]. cbn in Hresp. rewrite Hresp, Hbad in Hall.
    discriminate Hall. }
  rewrite Hfailed in Hrun.
  exists (notice ++ evs).
  unfold disaster_recovery, bind, group.
  rewrite Hpg, Hb. cbn. rewrite Hp, Hh. cbn.
  assert (Hprint : (if primary_healthy then print ManualConfirmationRequired else ret tt) h2
                   = (Ok tt, h2 ++ notice)).
  { subst notice. destruct primary_healthy; cbn; [reflexivity|].
    unfold ret. now rewrite app_nil_r. }
  rewrite Hprint. cbn.
  rewrite (connections_open rem (ServerGroup.servers backup) Hreach) by apply incl_refl.
  rewrite Hservices. unfold activate. cbn [for_acc]. unfold bind.
  rewrite Hrun. rewrite <- app_assoc.
  split; [reflexivity|].
  rewrite calls_app, Hcalls. subst notice. now destruct primary_healthy.
Qed.

Lemma failed_activation_raises_after_reaching_every_server_witness :
  exists tail,
    disaster_recovery Sample.start_fails_on_q Scenario.inventory "standby" "db" []
    = (Raise GroupException, Sample.standby_and_db_probes ++ tail)
    /\ calls tail
       = map (fun s => (s, start_command "nginx"))
           (ServerGroup.servers (Scenario.make_group "db" Sample.db_servers)).
Proof.
  refine (failed_activation_raises_after_reaching_every_server
            Sample.start_fails_on_q Scenario.inventory "standby" "db"
            (Scenario.make_group "db" Sample.db_servers) true
            Sample.standby_probes Sample.standby_and_db_probes
            "nginx" ["app"] "q" _ _ _ _ _ _ _).
  - reflexivity.
  - reflexivity.
  - reflexivity.
  - reflexivity.
  - reflexivity.
  - right. now left.
  - reflexivity.
Defined.

(** The start fails on q only, yet p, r, s and t were sent it too, and the
    failover stops there. *)
Example failed_activation_trace :
  calls (snd (disaster_recovery Sample.start_fails_on_q Scenario.inventory "standby" "db" []))
  = calls Sample.standby_and_db_probes
    ++ map (fun s => (s, "sudo systemctl start nginx")) Sample.db_servers.
Proof. reflexivity. Qed.

(** ** Playbooks *)

Section PlaybookFacts.
Context {V : Type} `{Str V}.
Variable rem : Remote.
Variable as_completed : forall A : Type, list A -> list A.
Hypothesis completion :
  forall (A : Type) (l : list A), Permutation (as_completed A l) l.
Variable servers : list string.
Variable variables : list (string * V).

(** One task on the fleet. *)
Lemma fleet_returns (task : Task.t) :
  0 <= Task.retries task ->
  exists outs,
    execute_task_on_servers rem task variables as_completed servers = Ok outs
    /\ Permutation (map server_of outs) servers.
Proof.
  intros Hr.
  assert (Hall : Forall (fun f => exists o, f = Ok (Some o))
                   (as_completed _ (map (submit rem task variables) servers))).
  { eapply Permutation_Forall; [symmetry; apply completion|].
    apply Forall_map, Forall_forall. intros s _.
    destruct (submit_returns rem task variables s Hr) as (o & Ho & _). eauto. }
  destruct (all_outcomes _ Hall) as [outs Houts].
  exists outs. unfold execute_task_on_servers. rewrite Houts, collect_outcomes.
  split; [reflexivity|].
  assert (Hp : Permutation (map (fun o => Ok (Some o)) outs)
                 (map (submit rem task variables) servers))
    by (rewrite <- Houts; apply completion).
  apply (Permutation_map future_server) in Hp.
  rewrite !map_map in Hp. cbn in Hp.
  erewrite (map_ext_in (fun s => future_server (submit rem task variables s)) id) in Hp.
  - now rewrite map_id in Hp.
  - intros s _. destruct (submit_returns rem task variables s Hr) as (o & -> & Ho).
    exact Ho.
Qed.

(** Tasks whose name is not [name] leave the entry of [name] alone. *)
Lemma run_tasks_other (tasks : list Task.t) (results final : gmap string (list Outcome))
    (name : string) :
  run_tasks rem as_completed tasks servers variables results = Ok final ->
  ~ In name (map Task.name tasks) ->
  final !! name = results !! name.
Proof.
  revert results. induction tasks as [|task tasks IH]; intros results.
  - cbn. now intros [= <-].
  - cbn [run_tasks map].
    destruct (execute_task_on_servers rem task variables as_completed servers)
      as [outs|e]; [|discriminate].
    intros Hrun Hnot. rewrite (IH _ Hrun) by (intros Hin; apply Hnot; now right).
    apply lookup_insert_ne. intros Heq. apply Hnot. now left.
Qed.

Lemma run_tasks_app (before after : list Task.t) (results : gmap string (list Outcome)) :
  run_tasks rem as_completed (before ++ after) servers variables results
  = match run_tasks rem as_completed before servers variables results with
    | Ok middle => run_tasks rem as_completed after servers variables middle
    | Raise e => Raise e
    end.
Proof.
  revert results. induction before as [|task before IH]; intros results; [reflexivity|].
  cbn [app run_tasks].
  destruct (execute_task_on_servers rem task variables as_completed servers);
    [apply IH|reflexivity].
Qed.

Lemma run_tasks_returns (tasks : list Task.t) (results : gmap string (list Outcome)) :
  Forall (fun task => 0 <= Task.retries task) tasks ->
  exists final, run_tasks rem as_completed tasks servers variables results = Ok final.
Proof.
  intros Hall. revert results. induction Hall as [|task tasks Hr _ IH]; intros results.
  - exists results. reflexivity.
  - destruct (fleet_returns task Hr) as (outs & Hrun & _).
    cbn [run_tasks]. rewrite Hrun. apply IH.
Qed.

End PlaybookFacts.

(** X14.  A playbook whose tasks all have [retries >= 0], on target servers that
    could be determined: [run_playbook] returns a dictionary that holds, for
    every task name, the fleet result of the last task of that name (one
    outcome for each target server), earlier tasks of the same name having
    been overwritten, and nothing under any other name. *)
Theorem playbook_results_keep_the_last_task_of_each_name
    {V : Type} `{Str V} (rem : Remote)
    (as_completed : forall A : Type, list A -> list A)
    (self : InfrastructureOrchestrator.t) (playbook : Playbook.t V)
    (servers : list string) :
  (forall (A : Type) (l : list A), Permutation (as_completed A l) l) ->
  target_servers self (Playbook.hosts playbook) = Ok servers ->
  Forall (fun task => 0 <= Task.retries task) (Playbook.tasks playbook) ->
  exists results,
    run_playbook rem as_completed self playbook = Ok results
    /\ (forall before task after,
          Playbook.tasks playbook = before ++ task :: after ->
          ~ In (Task.name task) (map Task.name after) ->
          exists outs,
            execute_task_on_servers rem task (Playbook.variables playbook)
              as_completed servers = Ok outs
            /\ results !! Task.name task = Some outs
            /\ Permutation (map server_of outs) servers)
    /\ (forall name,
          ~ In name (map Task.name (Playbook.tasks playbook)) ->
          results !! name = None).
Proof.
  intros Hperm Htargets Hall.
  destruct (run_tasks_returns rem as_completed Hperm servers (Playbook.variables playbook)
              (Playbook.tasks playbook) ∅ Hall) as [results Hrun].
  exists results. unfold run_playbook. rewrite Htargets.
  split; [exact Hrun|]. split.
  - intros before task after Heq Hlast.
    rewrite Heq in Hrun, Hall. rewrite run_tasks_app in Hrun.
    destruct (run_tasks rem as_completed before servers (Playbook.variables playbook) ∅)
      as [middle|e]; [|discriminate].
    apply Forall_app in Hall as [_ Hall]. inversion Hall as [|? ? Hr Hafter]; subst.
    destruct (fleet_returns rem as_completed Hperm servers (Playbook.variables playbook)
                task Hr) as (outs & Hfleet & Hp).
    exists outs. split; [exact Hfleet|]. split; [|exact Hp].
    cbn [run_tasks] in Hrun. rewrite Hfleet in Hrun.
    rewrite (run_tasks_other rem as_completed servers (Playbook.variables playbook)
               after _ results (Task.name task) Hrun Hlast).
    apply lookup_insert_eq.
  - intros name Hnot.
    rewrite (run_tasks_other rem as_completed servers (Playbook.variables playbook)
               _ _ results name Hrun Hnot).
    apply lookup_empty.
Qed.

Lemma playbook_results_keep_the_last_task_of_each_name_witness :
  exists results,
    run_playbook (Scenario.unreachable "c") (fun _ l => rev l) Scenario.inventory
      (Sample.deploy "web")
    = Ok results
    /\ (forall before task after,
          Playbook.tasks (Sample.deploy "web") = before ++ task :: after ->
          ~ In (Task.name task) (map Task.name after) ->
          exists outs,
            execute_task_on_servers (Scenario.unreachable "c") task
              (Playbook.variables (Sample.deploy "web"))
              (fun _ l => rev l) Scenario.web_servers = Ok outs
            /\ results !! Task.name task = Some outs
            /\ Permutation (map server_of outs) Scenario.web_servers)
    /\ (forall name,
          ~ In name (map Task.name (Playbook.tasks (Sample.deploy "web"))) ->
          results !! name = None).
Proof.
  refine (playbook_results_keep_the_last_task_of_each_name (Scenario.unreachable "c")
            (fun _ l => rev l) Scenario.inventory (Sample.deploy "web")
            Scenario.web_servers _ _ _).
  - intros A l. symmetry. apply Permutation_rev.
  - reflexivity.
  - repeat constructor; cbn; lia.
Defined.

(** Two tasks of one name: only the second one's outcomes are returned. *)
Example later_task_overwrites_earlier :
  run_playbook Scenario.healthy (fun _ l => l) Scenario.inventory (Sample.deploy "standby")
  = Ok {[ "task" := [Success "x" "ok" 1] ]}.
Proof. reflexivity. Qed.

(** ** Loading the inventory *)

Lemma load_groups_other (items : list (string * GroupConfig.t))
    (server_groups final : gmap string ServerGroup.t) (name : string) :
  load_groups items server_groups = Ok final ->
  ~ In name (map fst items) ->
  final !! name = server_groups !! name.
Proof.
  revert server_groups. induction items as [|[n c] items IH]; intros server_groups.
  - cbn. now intros [= <-].
  - cbn [load_groups map fst].
    destruct (GroupConfig.hosts c) as [hosts|]; [|discriminate].
    intros Hrun Hnot. rewrite (IH _ Hrun) by (intros Hin; apply Hnot; now right).
    apply lookup_insert_ne. intros Heq. apply Hnot. now left.
Qed.

Lemma load_groups_names (items : list (string * GroupConfig.t))
    (server_groups final : gmap string ServerGroup.t) :
  load_groups items server_groups = Ok final ->
  (forall k g, server_groups !! k = Some g -> ServerGroup.name g = k) ->
  forall k g, final !! k = Some g -> ServerGroup.name g = k.
Proof.
  revert server_groups. induction items as [|[n c] items IH]; intros server_groups.
  - cbn. now intros [= <-].
  - cbn [load_groups].
    destruct (GroupConfig.hosts c) as [hosts|]; [|discriminate].
    intros Hrun Hinv. apply (IH _ Hrun).
    intros k g Hk. destruct (decide (n = k)) as [->|Hne].
    + rewrite lookup_insert_eq in Hk. now injection Hk as <-.
    + rewrite lookup_insert_ne in Hk by exact Hne. now apply Hinv.
Qed.

Lemma load_groups_entry (items : list (string * GroupConfig.t))
    (server_groups final : gmap string ServerGroup.t)
    (group_name : string) (group_config : GroupConfig.t) :
  load_groups items server_groups = Ok final ->
  NoDup (map fst items) ->
  In (group_name, group_config) items ->
  exists hosts,
    GroupConfig.hosts group_config = Some hosts
    /\ final !! group_name = Some (loaded_group group_name group_config hosts).
Proof.
  revert server_groups. induction items as [|[n c] items IH]; intros server_groups.
  - intros _ _ [].
  - cbn [load_groups map fst].
    destruct (GroupConfig.hosts c) as [hosts|] eqn:Hh; [|discriminate].
    intros Hrun Hnd Hin. apply NoDup_cons in Hnd as [Hfresh Hnd].
    destruct Hin as [[= <- <-]|Hin].
    + exists hosts. split; [exact Hh|].
      rewrite (load_groups_other _ _ _ n Hrun)
        by (intros Hi; apply Hfresh; apply list_elem_of_In; exact Hi).
      apply lookup_insert_eq.
    + exact (IH _ Hrun Hnd Hin).
Qed.

Lemma load_groups_hosts (items : list (string * GroupConfig.t))
    (server_groups : gmap string ServerGroup.t) :
  (exists final, load_groups items server_groups = Ok final)
  \/ load_groups items server_groups = Raise (KeyError "hosts")
     /\ exists group_name group_config,
          In (group_name, group_config) items /\ GroupConfig.hosts group_config = None.
Proof.
  revert server_groups. induction items as [|[n c] items IH]; intros server_groups.
  - left. eexists. reflexivity.
  - cbn [load_groups]. destruct (GroupConfig.hosts c) as [hosts|] eqn:Hh.
    + destruct (IH (<[n := {| ServerGroup.name := n; ServerGroup.servers := hosts;
                              ServerGroup.roles := default [] (GroupConfig.roles c);
                              ServerGroup.variables := default ∅ (GroupConfig.vars c) |}]>
                      server_groups))
        as [Hok|(Hraise & gn & gc & Hin & Hnone)].
      * left. exact Hok.
      * right. split; [exact Hraise|]. exists gn, gc. split; [now right|exact Hnone].
    + right. split; [reflexivity|]. exists n, c. split; [now left|exact Hh].
Qed.

(** X15.  Loading an inventory whose groups have distinct names.  If every group
    has its ['hosts'], the orchestrator holds exactly the listed groups: each
    can be looked up under its name with its hosts, its roles (none if
    absent) and its variables (none if absent), every stored group carries
    the name it is stored under, and no other name is known.  If some group
    lacks ['hosts'], loading raises [KeyError] for ['hosts']. *)
Theorem loaded_inventory_holds_the_listed_groups
    (items : list (string * GroupConfig.t)) :
  NoDup (map fst items) ->
  ((forall group_name group_config,
       In (group_name, group_config) items -> GroupConfig.hosts group_config <> None) ->
   exists self,
     init (Some items) = Ok self
     /\ (forall group_name group_config,
           In (group_name, group_config) items ->
           exists hosts,
             GroupConfig.hosts group_config = Some hosts
             /\ server_groups self !! group_name
                = Some (loaded_group group_name group_config hosts))
     /\ (forall k g, server_groups self !! k = Some g -> ServerGroup.name g = k)
     /\ (forall k, ~ In k (map fst items) -> server_groups self !! k = None))
  /\ ((exists group_name group_config,
          In (group_name, group_config) items /\ GroupConfig.hosts group_config = None) ->
      init (Some items) = Raise (KeyError "hosts")).
Proof.
  intros Hnd. unfold init.
  destruct (load_groups_hosts items ∅) as [[final Hrun]|(Hraise & gn & gc & Hin & Hnone)].
  - split.
    + intros _. exists {| server_groups := final |}. rewrite Hrun.
      split; [reflexivity|]. cbn [server_groups]. split; [|split].
      * intros group_name group_config Hin.
        exact (load_groups_entry _ _ _ _ _ Hrun Hnd Hin).
      * apply (load_groups_names _ _ _ Hrun). intros k g Hk.
        rewrite lookup_empty in Hk. discriminate Hk.
      * intros k Hk. rewrite (load_groups_other _ _ _ k Hrun Hk). apply lookup_empty.
    + intros (gn & gc & Hin & Hnone). exfalso.
      destruct (load_groups_entry _ _ _ _ _ Hrun Hnd Hin) as (hosts & Hh & _).
      congruence.
  - split.
    + intros Hall. exfalso. exact (Hall gn gc Hin Hnone).
    + intros _. now rewrite Hraise.
Qed.

Lemma loaded_inventory_holds_the_listed_groups_witness :
  ((forall group_name group_config,
       In (group_name, group_config) Sample.two_groups ->
       GroupConfig.hosts group_config <> None) ->
   exists self,
     init (Some Sample.two_groups) = Ok self
     /\ (forall group_name group_config,
           In (group_name, group_config) Sample.two_groups ->
           exists hosts,
             GroupConfig.hosts group_config = Some hosts
             /\ server_groups self !! group_name
                = Some (loaded_group group_name group_config hosts))
     /\ (forall k g, server_groups self !! k = Some g -> ServerGroup.name g = k)
     /\ (forall k, ~ In k (map fst Sample.two_groups) -> server_groups self !! k = None))
  /\ ((exists group_name group_config,
          In (group_name, group_config) Sample.two_groups
          /\ GroupConfig.hosts group_config = None) ->
      init (Some Sample.two_groups) = Raise (KeyError "hosts")).
Proof.
  refine (loaded_inventory_holds_the_listed_groups Sample.two_groups _).
  apply (bool_decide_unpack _). vm_compute. exact I.
Defined.

(** The two groups, loaded: roles default to none. *)
Example two_groups_loaded :
  init (Some Sample.two_groups)
  = Ok {| server_groups :=
            {[ "web" := {| ServerGroup.name := "web"; ServerGroup.servers := ["a"; "b"];
                           ServerGroup.roles := []; ServerGroup.variables := ∅ |};
               "db" := {| ServerGroup.name := "db"; ServerGroup.servers := ["p"];
                          ServerGroup.roles := ["primary"];
                          ServerGroup.variables := ∅ |} ]} |}.
Proof. vm_compute. reflexivity. Qed.

(** A group without hosts stops the loading. *)
Example group_without_hosts :
  init (Some [("web", {| GroupConfig.hosts := None; GroupConfig.roles := None;
                         GroupConfig.vars := None |})])
  = Raise (KeyError "hosts").
Proof. reflexivity. Qed.

Example inventory_without_groups :
  init None = Raise (KeyError "groups").
Proof. reflexivity. Qed.

(** ** How long a rolling restart waits *)

Lemma waits_app (h1 h2 : History) : waits (h1 ++ h2) = waits h1 ++ waits h2.
Proof. unfold waits. apply omap_app. Qed.

(** Loops whose body never sleeps do not sleep. *)
Lemma for_each_quiet {A R : Type} (body : A -> M (option R)) (l : list A) :
  (forall x h, exists evs r, body x h = (r, h ++ evs) /\ waits evs = []) ->
  forall h, exists evs r, for_each l body h = (r, h ++ evs) /\ waits evs = [].
Proof.
  intros Hbody. induction l as [|x l IH]; intros h.
  - exists [], (Ok None). split; [cbn; unfold ret; now rewrite app_nil_r|reflexivity].
  - cbn [for_each]. unfold bind at 1.
    destruct (Hbody x h) as (e1 & r1 & H1 & Q1). rewrite H1.
    destruct r1 as [[v|]|e].
    + exists e1, (Ok (Some v)). split; [reflexivity|exact Q1].
    + destruct (IH (h ++ e1)) as (e2 & r2 & H2 & Q2). rewrite H2.
      exists (e1 ++ e2), r2. split; [now rewrite <- app_assoc|].
      now rewrite waits_app, Q1, Q2.
    + exists e1, (Raise e). split; [reflexivity|exact Q1].
Qed.

Lemma for_acc_quiet {A B : Type} (body : B -> A -> M B) (l : list A) :
  (forall acc x h, exists evs r, body acc x h = (r, h ++ evs) /\ waits evs = []) ->
  forall acc h, exists evs r, for_acc l acc body h = (r, h ++ evs) /\ waits evs = [].
Proof.
  intros Hbody. induction l as [|x l IH]; intros acc h.
  - exists [], (Ok acc). split; [cbn; unfold ret; now rewrite app_nil_r|reflexivity].
  - cbn [for_acc]. unfold bind at 1.
    destruct (Hbody acc x h) as (e1 & r1 & H1 & Q1). rewrite H1.
    destruct r1 as [acc'|e].
    + destruct (IH acc' (h ++ e1)) as (e2 & r2 & H2 & Q2). rewrite H2.
      exists (e1 ++ e2), r2. split; [now rewrite <- app_assoc|].
      now rewrite waits_app, Q1, Q2.
    + exists e1, (Raise e). split; [reflexivity|exact Q1].
Qed.

(** Connecting, running one command and reporting on it involves no wait. *)
Lemma connect_run_quiet {A : Type} (rem : Remote) (server command : string)
    (K : Result.t -> M A) (h : History) :
  (forall result h', exists evs r, K result h' = (r, h' ++ evs) /\ waits evs = []) ->
  exists evs r,
    (Connection rem server ;; result <- run_warn rem server command ;; K result) h
    = (r, h ++ evs)
    /\ waits evs = [].
Proof.
  intros HK. unfold bind, Connection, run_warn.
  destruct (connect_error rem server) as [msg|]; cbn.
  - eexists _, _. split; reflexivity.
  - destruct (respond rem h server command) as [rc out err|msg]; cbn.
    + destruct (HK {| Result.return_code := rc; Result.stdout := out; Result.stderr := err |}
                  (h ++ [Exec server command (Ran rc out err)]))
        as (evs & r & Hrun & Hq).
      rewrite Hrun. exists ([Exec server command (Ran rc out err)] ++ evs), r.
      split; [now rewrite <- app_assoc|]. now rewrite waits_app, Hq.
    + eexists _, _. split; reflexivity.
Qed.

Section Waiting.
Variable rem : Remote.
Variable service_name : string.

Lemma stop_batch_quiet (batch : list string) (h : History) :
  exists evs r, stop_batch rem service_name batch h = (r, h ++ evs) /\ waits evs = [].
Proof.
  apply for_each_quiet. intros server h0. apply connect_run_quiet.
  intros result h'. destruct (negb (Result.return_code result =? 0)).
  - eexists _, _. split; reflexivity.
  - exists [], (Ok None). split; [unfold bind, ret; now rewrite app_nil_r|reflexivity].
Qed.

Lemma start_batch_quiet (batch : list string) (h : History) :
  exists evs r, start_batch rem service_name batch h = (r, h ++ evs) /\ waits evs = [].
Proof.
  apply for_each_quiet. intros server h0. apply connect_run_quiet.
  intros result h'. destruct (negb (Result.return_code result =? 0)).
  - eexists _, _. split; reflexivity.
  - exists [], (Ok None). split; [unfold ret; now rewrite app_nil_r|reflexivity].
Qed.

Lemma health_check_batch_quiet (batch : list string) (h : History) :
  exists evs r, health_check_batch rem service_name batch h = (r, h ++ evs) /\ waits evs = [].
Proof.
  apply for_acc_quiet. intros health_ok server h0. apply connect_run_quiet.
  intros result h'. destruct (negb (Result.return_code result =? 0)).
  - eexists _, _. split; reflexivity.
  - exists [], (Ok health_ok). split; [unfold ret; now rewrite app_nil_r|reflexivity].
Qed.

Variable servers : list string.
Variable batch_size : Z.

(** A batch that passes waits 5 and 10 seconds, and 30 more if servers are
    left. *)
Lemma batch_body_waits (i : Z) (h : History) :
  exists evs r,
    batch_body rem service_name servers batch_size i h = (r, h ++ evs)
    /\ (r = Ok None -> waits evs = batch_waits (Z.of_nat (length servers)) batch_size i).
Proof.
  unfold batch_body. cbn zeta.
  set (batch := slice servers i (i + batch_size)).
  destruct (stop_batch_quiet batch h) as (e1 & r1 & H1 & Q1).
  unfold bind at 1. rewrite H1.
  destruct r1 as [o1|x1];
    [|exists e1, (Raise x1); split; [reflexivity|intros Hr; discriminate Hr]].
  unfold bind at 1. rewrite sleep_ok by lia.
  destruct (start_batch_quiet batch ((h ++ e1) ++ [Slept 5])) as (e2 & r2 & H2 & Q2).
  unfold bind at 1. rewrite H2.
  destruct r2 as [[v|]|x2].
  - exists (e1 ++ [Slept 5] ++ e2), (Ok (Some v)).
    split; [now rewrite <- !app_assoc|intros Hr; discriminate Hr].
  - unfold bind at 1. rewrite sleep_ok by lia.
    destruct (health_check_batch_quiet batch ((((h ++ e1) ++ [Slept 5]) ++ e2) ++ [Slept 10]))
      as (e3 & r3 & H3 & Q3).
    unfold bind at 1. rewrite H3.
    destruct r3 as [[|]|x3]; cbn [negb].
    + unfold batch_waits.
      destruct (i + batch_size <? Z.of_nat (length servers)).
      * unfold bind. rewrite sleep_ok by lia. unfold ret.
        exists (e1 ++ [Slept 5] ++ e2 ++ [Slept 10] ++ e3 ++ [Slept 30]), (Ok None).
        split; [now rewrite <- !app_assoc|]. intros _.
        rewrite !waits_app, Q1, Q2, Q3. reflexivity.
      * unfold bind, ret.
        exists (e1 ++ [Slept 5] ++ e2 ++ [Slept 10] ++ e3), (Ok None).
        split; [now rewrite <- !app_assoc|]. intros _.
        rewrite !waits_app, Q1, Q2, Q3. reflexivity.
    + unfold bind, print, emit, ret.
      exists (e1 ++ [Slept 5] ++ e2 ++ [Slept 10] ++ e3 ++ [Printed RestartFailed]),
             (Ok (Some false)).
      split; [now rewrite <- !app_assoc|intros Hr; discriminate Hr].
    + exists (e1 ++ [Slept 5] ++ e2 ++ [Slept 10] ++ e3), (Raise x3).
      split; [now rewrite <- !app_assoc|intros Hr; discriminate Hr].
  - exists (e1 ++ [Slept 5] ++ e2), (Raise x2).
    split; [now rewrite <- !app_assoc|intros Hr; discriminate Hr].
Qed.

Lemma batches_waits (indices : list Z) (h : History) :
  exists evs r,
    for_each indices (batch_body rem service_name servers batch_size) h = (r, h ++ evs)
    /\ (r = Ok None ->
        waits evs
        = concat (map (batch_waits (Z.of_nat (length servers)) batch_size) indices)).
Proof.
  revert h. induction indices as [|i indices IH]; intros h.
  - exists [], (Ok None). split; [cbn; unfold ret; now rewrite app_nil_r|reflexivity].
  - cbn [for_each]. unfold bind at 1.
    destruct (batch_body_waits i h) as (e1 & r1 & H1 & Q1). rewrite H1.
    destruct r1 as [[v|]|e].
    + exists e1, (Ok (Some v)). split; [reflexivity|intros Hr; discriminate Hr].
    + destruct (IH (h ++ e1)) as (e2 & r2 & H2 & Q2). rewrite H2.
      exists (e1 ++ e2), r2. split; [now rewrite <- app_assoc|].
      intros Hr. rewrite waits_app, (Q1 eq_refl), (Q2 Hr). reflexivity.
    + exists e1, (Raise e). split; [reflexivity|intros Hr; discriminate Hr].
Qed.

End Waiting.

Lemma total_app (l1 l2 : list Z) :
  fold_right Z.add 0 (l1 ++ l2) = fold_right Z.add 0 l1 + fold_right Z.add 0 l2.
Proof. induction l1 as [|x l1 IH]; cbn [app fold_right]; lia. Qed.

(** All batches but the last are followed by the 30 second wait. *)
Lemma total_batch_waits (n batch_size : Z) :
  0 < n -> 0 < batch_size ->
  let m := (n - 1) / batch_size + 1 in
  Z.of_nat (length (batch_indices n batch_size)) = m
  /\ fold_right Z.add 0 (concat (map (batch_waits n batch_size) (batch_indices n batch_size)))
     = 15 * m + 30 * (m - 1).
Proof.
  intros Hn Hbs m.
  assert (Hdiv : 0 <= (n - 1) / batch_size) by (apply Z.div_pos; lia).
  pose proof (Z.mul_div_le (n - 1) batch_size Hbs) as Hle.
  pose proof (Z.mul_succ_div_gt (n - 1) batch_size Hbs) as Hgt.
  assert (Hlen : range_len 0 n batch_size = m).
  { unfold range_len. destruct (Z.ltb_spec 0 batch_size) as [_|?]; [|lia].
    destruct (Z.ltb_spec 0 n) as [_|?]; [|lia]. subst m. f_equal. f_equal. lia. }
  unfold batch_indices. rewrite Hlen, length_map, length_seq.
  split; [lia|].
  assert (Hprefix : forall K : nat,
             Z.of_nat K <= m - 1 ->
             fold_right Z.add 0
               (concat (map (batch_waits n batch_size)
                          (map (fun k : nat => 0 + Z.of_nat k * batch_size) (seq 0 K))))
             = 45 * Z.of_nat K).
  { induction K as [|K IH]; intros HK; [reflexivity|].
    rewrite seq_S, !map_app, concat_app, total_app, IH by lia.
    cbn [map concat Nat.add]. rewrite app_nil_r. unfold batch_waits.
    destruct (Z.ltb_spec (0 + Z.of_nat K * batch_size + batch_size) n) as [_|Hge].
    - cbn. lia.
    - exfalso. subst m. nia. }
  replace (Z.to_nat m) with (S (Z.to_nat (m - 1))) by lia.
  rewrite seq_S, !map_app, concat_app, total_app, Hprefix by lia.
  cbn [map concat Nat.add]. rewrite app_nil_r. unfold batch_waits.
  destruct (Z.ltb_spec (0 + Z.of_nat (Z.to_nat (m - 1)) * batch_size + batch_size) n)
    as [Hlt|_].
  - exfalso. subst m. nia.
  - cbn. lia.
Qed.

(** X16.  How long a successful rolling restart waits.  When a restart of a
    non-empty group returns [True], each of its [m] batches has waited 5
    seconds after the stops and 10 seconds before the health checks, and 30
    seconds follow every batch but the last: [15 m + 30 (m - 1)] seconds in
    all, where [m] is the number of servers divided by the batch size,
    rounded up. *)
Theorem successful_restart_waits_between_batches
    (rem : Remote) (service_name : string) (self : InfrastructureOrchestrator.t)
    (server_group : string) (g : ServerGroup.t) (batch_size : Z) (tr : History) :
  let n := Z.of_nat (length (ServerGroup.servers g)) in
  let m := (n - 1) / batch_size + 1 in
  server_groups self !! server_group = Some g ->
  0 < batch_size ->
  ServerGroup.servers g <> [] ->
  rolling_restart rem service_name self server_group batch_size [] = (Ok true, tr) ->
  waits tr = concat (map (batch_waits n batch_size) (batch_indices n batch_size))
  /\ Z.of_nat (length (batch_indices n batch_size)) = m
  /\ fold_right Z.add 0 (waits tr) = 15 * m + 30 * (m - 1).
Proof.
  intros n m Hg Hbs Hne Hrun.
  assert (Hn : 0 < n) by (subst n; destruct (ServerGroup.servers g); [congruence|cbn; lia]).
  rewrite (rolling_restart_unfold _ _ _ _ g) in Hrun by assumption.
  fold n in Hrun.
  destruct (batches_waits rem service_name (ServerGroup.servers g) batch_size
              (batch_indices n batch_size) []) as (evs & r & Hloop & Hw).
  destruct (batches_post rem service_name (ServerGroup.servers g) batch_size
              (batch_indices n batch_size) [])
    as (evs' & r' & entered & rest & _ & Hloop' & _ & _ & V & _).
  rewrite Hloop in Hloop'. injection Hloop' as Hr _. subst r'.
  rewrite Hloop in Hrun. cbn [app] in Hrun. fold n in Hw.
  destruct (total_batch_waits n batch_size Hn Hbs) as [Hm Htotal].
  destruct r as [[v|]|x]; [| |discriminate Hrun].
  - injection Hrun as Hres _. rewrite (V v eq_refl) in Hres. discriminate Hres.
  - injection Hrun as <-. rewrite (Hw eq_refl).
    split; [reflexivity|]. split; [exact Hm|exact Htotal].
Qed.

Lemma successful_restart_waits_between_batches_witness :
  waits (snd (rolling_restart Scenario.healthy "nginx" Scenario.inventory "db" 2 []))
  = concat (map (batch_waits (Z.of_nat (length (ServerGroup.servers
                                                  (Scenario.make_group "db" Sample.db_servers))))
                             2)
                (batch_indices (Z.of_nat (length (ServerGroup.servers
                                                    (Scenario.make_group "db" Sample.db_servers))))
                               2))
  /\ Z.of_nat (length (batch_indices
                         (Z.of_nat (length (ServerGroup.servers
                                              (Scenario.make_group "db" Sample.db_servers))))
                         2))
     = (Z.of_nat (length (ServerGroup.servers (Scenario.make_group "db" Sample.db_servers))) - 1)
         / 2 + 1
  /\ fold_right Z.add 0
       (waits (snd (rolling_restart Scenario.healthy "nginx" Scenario.inventory "db" 2 [])))
     = 15 * ((Z.of_nat (length (ServerGroup.servers
                                  (Scenario.make_group "db" Sample.db_servers))) - 1) / 2 + 1)
       + 30 * ((Z.of_nat (length (ServerGroup.servers
                                    (Scenario.make_group "db" Sample.db_servers))) - 1) / 2
               + 1 - 1).
Proof.
  refine (successful_restart_waits_between_batches Scenario.healthy "nginx"
            Scenario.inventory "db" (Scenario.make_group "db" Sample.db_servers) 2
            (snd (rolling_restart Scenario.healthy "nginx" Scenario.inventory "db" 2 []))
            _ _ _ _).
  - reflexivity.
  - lia.
  - discriminate.
  - reflexivity.
Defined.

(** Five servers in batches of two: three batches, 105 seconds of waiting,
    none after the last batch. *)
Example five_servers_wait :
  waits (snd (rolling_restart Scenario.healthy "nginx" Scenario.inventory "db" 2 []))
  = [5; 10; 30; 5; 10; 30; 5; 10].
Proof. reflexivity. Qed.
